(** * Resume analyzer: scoring engine, skill normalisation, caches

    A shallow embedding of the deterministic core of the recruiting
    backend, and the properties its specification states about it:

    - [backend/app/services/scoring_engine.py]      (module [scoring_engine])
    - [backend/app/services/resume_parsing.py]      (module [resume_parsing])
    - [backend/app/services/semantic_similarity.py] (module [semantic_similarity])
    - [backend/app/services/ai_match_cache.py]      (module [ai_match_cache])
    - [backend/app/services/embeddings.py]          (module [embeddings])

    Conventions of the embedding.

    - A Python [float] is an exact rational ([Q]); the arithmetic of the
      code is carried out without rounding error and the non-numeric values
      [nan] and [inf] are not represented.  Equality of floats is [Qeq].
    - A Python [int] is a [Z].
    - A Python [str] is a [string] of 7-bit characters; the character
      classes of the code's regular expressions and the methods [strip],
      [lower], [upper], [isupper], [isalpha], [capitalize] are the ASCII
      ones.
    - [None]-able arguments are [option]s; a function that can raise
      returns a [result].
    - Library functions that are not part of the repository and that the
      properties do not depend on ([json.loads], [json.dumps], [math.sqrt],
      the embedding model, [repr] of a non-string JSON value) are Section
      variables.  [hashlib.sha256] is implemented (module [sha256]). *)

From Stdlib Require Import ZArith QArith Qround List String Ascii Bool Lia Lqa.
From Stdlib Require Import DecimalString.
From stdpp Require Import base gmap strings.

Local Open Scope string_scope.
Local Open Scope Z_scope.

(* ================================================================= *)
(** * Part I: the model *)
(* ================================================================= *)

(** ** Python values shared by the modules *)

Module py.

(** Exceptions the modelled code can raise. *)
Inductive exn : Type :=
| AttributeError
| ValueError
| TypeError
| ZeroDivisionError.

Inductive result (A : Type) : Type :=
| Ok (a : A)
| Raise (e : exn).
Arguments Ok {A} a.
Arguments Raise {A} e.

Definition bind {A B} (r : result A) (k : A -> result B) : result B :=
  match r with
  | Ok a => k a
  | Raise e => Raise e
  end.

(** *** Floats as rationals *)

Definition Qltb (x y : Q) : bool := negb (Qle_bool y x).

(** [float(x or 0.0)]: a zero float is falsy and is replaced by [0.0]. *)
Definition float_or_zero (x : Q) : Q := if Qeq_bool x 0 then 0%Q else x.

(** [round(x)] on a float: nearest integer, ties to the even one. *)
Definition round (x : Q) : Z :=
  let f := Qfloor x in
  match Qcompare (x - inject_Z f) (1 # 2) with
  | Lt => f
  | Gt => f + 1
  | Eq => if Z.even f then f else f + 1
  end.

Definition Qmin (x y : Q) : Q := if Qle_bool x y then x else y.
Definition Qmax (x y : Q) : Q := if Qle_bool x y then y else x.

(** [len(x)] as a float numerator *)
Definition Qlen {A} (l : list A) : Q := inject_Z (Z.of_nat (List.length l)).

(** *** Strings *)

Definition chars (s : string) : list ascii := list_ascii_of_string s.
Definition str (l : list ascii) : string := string_of_list_ascii l.

Definition code (c : ascii) : N := N_of_ascii c.
Definition in_range (lo hi : N) (c : ascii) : bool :=
  ((lo <=? code c) && (code c <=? hi))%N.

Definition is_lower : ascii -> bool := in_range 97 122.
Definition is_upper : ascii -> bool := in_range 65 90.
Definition is_digit : ascii -> bool := in_range 48 57.
Definition is_alpha (c : ascii) : bool := is_lower c || is_upper c.
(** [str.isspace] and the regular expressions' [\s] below code point 128:
    tab, newline, vertical tab, form feed, carriage return, the four
    separators 0x1c..0x1f, and the space. *)
Definition is_space (c : ascii) : bool := in_range 9 13 c || in_range 28 32 c.

Definition one_of (set : string) (c : ascii) : bool :=
  existsb (Ascii.eqb c) (chars set).

Definition to_lower (c : ascii) : ascii :=
  if is_upper c then ascii_of_N (code c + 32) else c.
Definition to_upper (c : ascii) : ascii :=
  if is_lower c then ascii_of_N (code c - 32) else c.

Fixpoint drop_while {A} (p : A -> bool) (l : list A) : list A :=
  match l with
  | [] => []
  | x :: l' => if p x then drop_while p l' else l
  end.

Definition strip_by (p : ascii -> bool) (l : list ascii) : list ascii :=
  rev (drop_while p (rev (drop_while p l))).

(** [s.strip()] and [s.strip(set)] *)
Definition strip (s : string) : string := str (strip_by is_space (chars s)).
Definition strip_chars (set : string) (s : string) : string :=
  str (strip_by (one_of set) (chars s)).

Definition lower (s : string) : string := str (map to_lower (chars s)).
Definition upper (s : string) : string := str (map to_upper (chars s)).

(** [s.isupper()]: some cased character, and no lowercase one. *)
Definition isupper (s : string) : bool :=
  existsb is_upper (chars s) && negb (existsb is_lower (chars s)).

(** [s.isalpha()]: non-empty and alphabetic throughout. *)
Definition isalpha (s : string) : bool :=
  match chars s with
  | [] => false
  | l => forallb is_alpha l
  end.

(** [s.capitalize()] *)
Definition capitalize (s : string) : string :=
  match chars s with
  | [] => ""
  | c :: l => str (to_upper c :: map to_lower l)
  end.

Definition len (s : string) : Z := Z.of_nat (String.length s).

(** Truthiness of a string: what [if s], [not s] and [s or d] test. *)
Definition nonempty (s : string) : bool := negb (String.eqb s "").

(** [s.split(sep)] for a one-character separator: every occurrence splits,
    empty pieces are kept. *)
Fixpoint split_aux (sep : ascii) (cur : list ascii) (l : list ascii)
    : list string :=
  match l with
  | [] => [str (rev cur)]
  | c :: l' =>
      if Ascii.eqb c sep then str (rev cur) :: split_aux sep [] l'
      else split_aux sep (c :: cur) l'
  end.
Definition split (sep : ascii) (s : string) : list string :=
  split_aux sep [] (chars s).

(** [sep.join(l)] *)
Fixpoint join (sep : string) (l : list string) : string :=
  match l with
  | [] => ""
  | [x] => x
  | x :: l' => x ++ sep ++ join sep l'
  end.

Fixpoint is_prefix (p l : list ascii) : bool :=
  match p, l with
  | [], _ => true
  | _ :: _, [] => false
  | a :: p', b :: l' => Ascii.eqb a b && is_prefix p' l'
  end.

(** [sub in s] *)
Fixpoint contains_aux (sub l : list ascii) : bool :=
  is_prefix sub l ||
  match l with
  | [] => false
  | _ :: l' => contains_aux sub l'
  end.
Definition contains (sub s : string) : bool := contains_aux (chars sub) (chars s).

(** [s.replace(old, new)] for a non-empty [old]: leftmost occurrences,
    not overlapping.  [skip] counts the characters of a matched [old]
    still to be passed over. *)
Fixpoint replace_aux (old new : list ascii) (skip : nat) (l : list ascii)
    : list ascii :=
  match l with
  | [] => []
  | c :: l' =>
      match skip with
      | S k => replace_aux old new k l'
      | O =>
          if is_prefix old l
          then new ++ replace_aux old new (Nat.pred (List.length old)) l'
          else c :: replace_aux old new O l'
      end
  end.
Definition replace (old new s : string) : string :=
  str (replace_aux (chars old) (chars new) O (chars s)).

(** *** The regular expressions of the code

    Every pattern of the modelled functions is a character class under a
    repetition, so a match is a maximal run of characters of the class. *)

(** What is emitted for a finished run [run] (held reversed) by
    [re.sub(r"[class]{min,}", repl, s)]. *)
Definition flush_sub (min : nat) (repl run : list ascii) : list ascii :=
  match run with
  | [] => []
  | _ => if (min <=? List.length run)%nat then repl else rev run
  end.

Fixpoint sub_runs_aux (p : ascii -> bool) (min : nat) (repl run l : list ascii)
    : list ascii :=
  match l with
  | [] => flush_sub min repl run
  | c :: l' =>
      if p c then sub_runs_aux p min repl (c :: run) l'
      else flush_sub min repl run ++ c :: sub_runs_aux p min repl [] l'
  end.

(** [re.sub(r"[class]{min,}", repl, s)] *)
Definition re_sub (p : ascii -> bool) (min : nat) (repl s : string) : string :=
  str (sub_runs_aux p min (chars repl) [] (chars s)).

Definition flush_find (min : nat) (run : list ascii) : list string :=
  if (min <=? List.length run)%nat
  then match run with [] => [] | _ => [str (rev run)] end
  else [].

Fixpoint find_runs_aux (p : ascii -> bool) (min : nat) (run l : list ascii)
    : list string :=
  match l with
  | [] => flush_find min run
  | c :: l' =>
      if p c then find_runs_aux p min (c :: run) l'
      else flush_find min run ++ find_runs_aux p min [] l'
  end.

(** [[m.group(0) for m in re.finditer(r"[class]{min,}", s)]] *)
Definition re_findall (p : ascii -> bool) (min : nat) (s : string) : list string :=
  find_runs_aux p min [] (chars s).

(** [$] matches at the end and before a final newline. *)
Definition at_end (l : list ascii) : bool :=
  match l with
  | [] => true
  | [c] => Ascii.eqb c "010"%char
  | _ => false
  end.

Fixpoint span {A} (p : A -> bool) (l : list A) : list A * list A :=
  match l with
  | [] => ([], [])
  | x :: l' =>
      if p x then let '(a, b) := span p l' in (x :: a, b) else ([], l)
  end.

(** [str(n)] and [f"{n}"] for an int *)
Definition str_of_int (z : Z) : string := NilZero.string_of_int (Z.to_int z).

End py.

#[global] Instance result_ret : MRet py.result := @py.Ok.
#[global] Instance result_bind : MBind py.result := fun A B k r => py.bind r k.

(** ** [hashlib.sha256]

    SHA-256 (FIPS 180-4) on byte strings; words are naturals below [2^32]. *)

Module sha256.

Local Open Scope N_scope.

Definition w32 (x : N) : N := N.land x 0xffffffff.
Definition add32 (x y : N) : N := w32 (x + y).
Definition rotr (n x : N) : N := N.lor (N.shiftr x n) (w32 (N.shiftl x (32 - n))).
Definition shr (n x : N) : N := N.shiftr x n.
Definition not32 (x : N) : N := N.lxor x 0xffffffff.

Definition Ch (x y z : N) : N := N.lxor (N.land x y) (N.land (not32 x) z).
Definition Maj (x y z : N) : N :=
  N.lxor (N.lxor (N.land x y) (N.land x z)) (N.land y z).
Definition Sigma0 (x : N) : N := N.lxor (N.lxor (rotr 2 x) (rotr 13 x)) (rotr 22 x).
Definition Sigma1 (x : N) : N := N.lxor (N.lxor (rotr 6 x) (rotr 11 x)) (rotr 25 x).
Definition sigma0 (x : N) : N := N.lxor (N.lxor (rotr 7 x) (rotr 18 x)) (shr 3 x).
Definition sigma1 (x : N) : N := N.lxor (N.lxor (rotr 17 x) (rotr 19 x)) (shr 10 x).

(** The constants of FIPS 180-4: the first 32 bits of the fractional parts
    of the square roots of the first 8 primes, and of the cube roots of the
    first 64 primes. *)
Definition is_prime (n : N) : bool :=
  (2 <=? n)
  && forallb (fun d => negb (n mod N.of_nat d =? 0))
             (seq 2 (N.to_nat n - 2)).

Fixpoint primes_from (fuel : nat) (n : N) (count : nat) : list N :=
  match fuel, count with
  | S fuel', S count' =>
      if is_prime n then n :: primes_from fuel' (n + 1) count'
      else primes_from fuel' (n + 1) count
  | _, _ => []
  end.

Definition primes (count : nat) : list N := primes_from 400 2 count.

(** The integer cube root, one bit at a time from bit [bits - 1] down. *)
Fixpoint cube_root (bits : nat) (x acc : N) : N :=
  match bits with
  | O => acc
  | S k =>
      let c := acc + 2 ^ N.of_nat k in
      if c * c * c <=? x then cube_root k x c else cube_root k x acc
  end.

Definition frac_sqrt (p : N) : N := w32 (N.sqrt (p * 2 ^ 64)).
Definition frac_cbrt (p : N) : N := w32 (cube_root 36 (p * 2 ^ 96) 0).

Definition H0 : list N := Eval vm_compute in map frac_sqrt (primes 8).
Definition K : list N := Eval vm_compute in map frac_cbrt (primes 64).

(** [s.encode()]: UTF-8 of code points below 256. *)
Definition encode_char (c : ascii) : list N :=
  let n := N_of_ascii c in
  if n <? 128 then [n]
  else [N.lor 0xc0 (N.shiftr n 6); N.lor 0x80 (N.land n 0x3f)].
Definition encode (s : string) : list N :=
  flat_map encode_char (list_ascii_of_string s).

(** Big-endian bytes of [x], [n] of them. *)
Fixpoint be_bytes (n : nat) (x : N) : list N :=
  match n with
  | O => []
  | S k => N.land (N.shiftr x (8 * N.of_nat k)) 0xff :: be_bytes k x
  end.

(** The message, the byte 0x80, zeros up to 56 modulo 64, and the
    length in bits on 8 bytes. *)
Definition pad (msg : list N) : list N :=
  let l := N.of_nat (List.length msg) in
  let z := (55 + 64 - l mod 64) mod 64 in
  msg ++ [0x80] ++ repeat 0 (N.to_nat z) ++ be_bytes 8 (8 * l).

Fixpoint words (fuel : nat) (bs : list N) : list N :=
  match fuel, bs with
  | S k, b0 :: b1 :: b2 :: b3 :: bs' =>
      (N.shiftl b0 24 + N.shiftl b1 16 + N.shiftl b2 8 + b3) :: words k bs'
  | _, _ => []
  end.

Fixpoint blocks (fuel : nat) (ws : list N) : list (list N) :=
  match fuel, ws with
  | S k, _ :: _ => firstn 16 ws :: blocks k (skipn 16 ws)
  | _, _ => []
  end.

(** Message schedule; [prev] holds the words so far, latest first. *)
Fixpoint extend (n : nat) (prev : list N) : list N :=
  match n with
  | O => rev prev
  | S k =>
      let w j := nth j prev 0 in
      let x := add32 (add32 (sigma1 (w 1%nat)) (w 6%nat))
                     (add32 (sigma0 (w 14%nat)) (w 15%nat)) in
      extend k (x :: prev)
  end.
Definition schedule (block : list N) : list N := extend 48 (rev block).

Definition state : Type := N * N * N * N * N * N * N * N.

Definition step (s : state) (kw : N * N) : state :=
  let '(a, b, c, d, e, f, g, h) := s in
  let '(k, w) := kw in
  let t1 := add32 (add32 (add32 h (Sigma1 e)) (add32 (Ch e f g) k)) w in
  let t2 := add32 (Sigma0 a) (Maj a b c) in
  (add32 t1 t2, a, b, c, add32 d t1, e, f, g).

Definition compress (s : state) (block : list N) : state :=
  let '(a, b, c, d, e, f, g, h) := s in
  let '(a', b', c', d', e', f', g', h') :=
    fold_left step (combine K (schedule block)) s in
  (add32 a a', add32 b b', add32 c c', add32 d d',
   add32 e e', add32 f f', add32 g g', add32 h h').

Definition init : state :=
  let h (j : nat) := nth j H0 0 in
  (h 0%nat, h 1%nat, h 2%nat, h 3%nat, h 4%nat, h 5%nat, h 6%nat, h 7%nat).

Definition digest_words (msg : list N) : list N :=
  let bs := pad msg in
  let ws := words (List.length bs) bs in
  let '(a, b, c, d, e, f, g, h) :=
    fold_left compress (blocks (List.length ws) ws) init in
  [a; b; c; d; e; f; g; h].

Definition hex_digit (n : N) : ascii :=
  if n <? 10 then ascii_of_N (48 + n) else ascii_of_N (87 + n).

Fixpoint hex_word (n : nat) (x : N) : list ascii :=
  match n with
  | O => []
  | S k => hex_digit (N.land (N.shiftr x (4 * N.of_nat k)) 0xf) :: hex_word k x
  end.

(** [hashlib.sha256(bs).hexdigest()] *)
Definition hexdigest_bytes (bs : list N) : string :=
  string_of_list_ascii (flat_map (hex_word 8) (digest_words bs)).

(** [hashlib.sha256(s.encode()).hexdigest()] *)
Definition hexdigest (s : string) : string := hexdigest_bytes (encode s).

End sha256.

(** ** JSON payloads, as [json.loads] returns them *)

Module json.

Import py.

(** A dict is the list of its items, each key once. *)
#[warnings="-register-all"] Inductive value : Type :=
| JNull
| JBool (b : bool)
| JInt (n : Z)
| JFloat (x : Q)
| JStr (s : string)
| JList (l : list value)
| JDict (kv : list (string * value)).

(** Truthiness: what [x or d] and [if x] test. *)
Definition truthy (v : value) : bool :=
  match v with
  | JNull => false
  | JBool b => b
  | JInt n => negb (n =? 0)
  | JFloat x => negb (Qeq_bool x 0)
  | JStr s => nonempty s
  | JList l => match l with [] => false | _ => true end
  | JDict kv => match kv with [] => false | _ => true end
  end.

Fixpoint assoc (k : string) (kv : list (string * value)) : option value :=
  match kv with
  | [] => None
  | (k', v) :: kv' => if String.eqb k k' then Some v else assoc k kv'
  end.

(** [v.get(k)]: only a dict has the method; a missing key gives [None]. *)
Definition get (k : string) (v : value) : result value :=
  match v with
  | JDict kv => Ok (default JNull (assoc k kv))
  | _ => Raise AttributeError
  end.

(** [v or {}] and [v or []] *)
Definition or_dict (v : value) : value := if truthy v then v else JDict [].
Definition or_list (v : value) : value := if truthy v then v else JList [].

Definition is_none (v : value) : bool :=
  match v with JNull => true | _ => false end.

End json.

(** ** [backend/app/services/scoring_engine.py] *)

Module scoring_engine.

Import py json.

Definition NL : string := String (ascii_of_N 10) "".

(** [_WORD_RE = re.compile(r"[A-Za-z0-9+#.]{2,}")] *)
Definition word_char (c : ascii) : bool :=
  is_alpha c || is_digit c || one_of "+#." c.

Definition _STOP : gset string :=
  list_to_set
    [ "a"; "an"; "and"; "are"; "as"; "at"; "be"; "by"; "for"; "from"; "in";
      "is"; "it"; "of"; "on"; "or"; "that"; "the"; "this"; "to"; "with";
      "you"; "your" ].

Definition _SKILL_ALIASES : gmap string string :=
  list_to_map
    [ ("fastapi", "python"); ("django", "python"); ("flask", "python");
      ("pandas", "python"); ("numpy", "python"); ("spring", "java");
      ("springboot", "java"); ("node", "javascript");
      ("nodejs", "javascript"); ("reactjs", "react"); ("nextjs", "react");
      ("typescript", "javascript"); ("postgresql", "sql"); ("mysql", "sql");
      ("sqlite", "sql"); ("rest", "api"); ("restapi", "api");
      ("microservices", "backend"); ("microservice", "backend") ].

(** [re.sub(r"[^a-z0-9+#. ]+", " ", s)]: the class that is replaced. *)
Definition noise_char (c : ascii) : bool :=
  negb (is_lower c || is_digit c || one_of "+#. " c).

Definition _normalize_skill (s : string) : string :=
  let s := lower (strip s) in
  let s := strip (re_sub noise_char 1 " " s) in
  let s := re_sub is_space 2 " " s in
  s.

Definition _canonical_skill (s : string) : string :=
  let n := _normalize_skill s in
  let key := replace " " "" n in
  default (default n (_SKILL_ALIASES !! n)) (_SKILL_ALIASES !! key).

(** [a or b or ""] on two optional strings *)
Definition truthy_str (o : option string) : bool :=
  match o with Some s => nonempty s | None => false end.
Definition select_raw (structured_json ai_structured_json : option string)
    : string :=
  if truthy_str structured_json then default "" structured_json
  else if truthy_str ai_structured_json then default "" ai_structured_json
  else "".

Section with_json.

(** [json.loads]; [None] when it raises. *)
Variable json_loads : string -> option value.
(** [str(v)] for a float, a list or a dict. *)
Variable repr_other : value -> string.

(** [str(v)] *)
Definition py_str (v : value) : string :=
  match v with
  | JStr s => s
  | JInt n => str_of_int n
  | JNull => "None"
  | JBool true => "True"
  | JBool false => "False"
  | _ => repr_other v
  end.

(** The inner loop [for c in candidates] of [extract_resume_skills]. *)
Definition add_candidate (st : gset string * list string) (c : string)
    : gset string * list string :=
  let '(seen, out) := st in
  if negb (nonempty c) then st
  else if bool_decide (c ∈ seen) then st
  else ({[ c ]} ∪ seen, (out ++ [c])%list).

(** The body of [for it in items]. *)
Definition add_item (st : gset string * list string) (it : value)
    : gset string * list string :=
  let n := _canonical_skill (py_str it) in
  if negb (nonempty n) then st
  else
    let candidates :=
      if contains " " n
      then n :: filter (fun p => nonempty p = true) (split " " n)
      else [n] in
    fold_left add_candidate candidates st.

Definition extract_resume_skills
    (structured_json ai_structured_json : option string)
    : result (list string) :=
  let raw := select_raw structured_json ai_structured_json in
  if negb (nonempty raw) then Ok []
  else
    match json_loads raw with
    | None => Ok []
    | Some payload =>
        sections ← get "sections" (or_dict payload);
        skills ← get "skills" (or_dict sections);
        items ← get "items" (or_dict skills);
        match or_list items with
        | JList items => Ok (snd (fold_left add_item items (∅, [])))
        | _ => Ok []
        end
    end.

(** The loops of [extract_job_skill_tokens] that drop repetitions. *)
Definition add_unique (st : gset string * list string) (w : string)
    : gset string * list string :=
  let '(seen, out) := st in
  if bool_decide (w ∈ seen) then st else ({[ w ]} ∪ seen, (out ++ [w])%list).

Definition add_word (st : gset string * list string) (m : string)
    : gset string * list string :=
  let w := strip_chars "." m in
  if negb (nonempty w) || bool_decide (w ∈ _STOP) then st
  else if 40 <? len w then st
  else add_unique st (_canonical_skill w).

Definition extract_job_skill_tokens
    (job_title job_description : option string)
    (required_skills : option (list string)) : list string :=
  let explicit :=
    filter (fun c => nonempty c = true)
           (map _canonical_skill (default [] required_skills)) in
  match explicit with
  | _ :: _ => firstn 60 (snd (fold_left add_unique explicit (∅, [])))
  | [] =>
      let text :=
        lower (strip (default "" job_title ++ NL ++ default "" job_description)) in
      firstn 60 (snd (fold_left add_word (re_findall word_char 2 text) (∅, [])))
  end.

Definition skills_overlap_score (resume_skills job_skills : list string)
    : Q * list string * list string :=
  let rs : gset string := list_to_set resume_skills in
  let js := job_skills in
  match js with
  | [] => (0%Q, [], [])
  | _ =>
      let matched := filter (fun j => j ∈ rs) js in
      let missing := filter (fun j => j ∉ rs) js in
      let recall := (Qlen matched / Qmax 1 (Qlen js))%Q in
      let precision :=
        if bool_decide (rs = ∅) then 0%Q
        else (Qlen matched / Qmax 1 (inject_Z (Z.of_nat (size rs))))%Q in
      let score :=
        if Qle_bool (precision + recall) 0 then 0%Q
        else (2 * precision * recall / (precision + recall))%Q in
      let score := if Qltb score 0 then 0%Q else score in
      let score := if Qltb 1 score then 1%Q else score in
      (score, firstn 12 matched, firstn 8 missing)
  end.

(** [str(sec.get("text") or "")], then the items joined below it. *)
Definition section_text (sec : value) : result string :=
  text ← get "text" sec;
  let txt := if truthy text then py_str text else "" in
  items ← get "items" sec;
  match or_list items with
  | JList (x :: l) =>
      let strs := map py_str (filter (fun v => is_none v = false) (x :: l)) in
      Ok (strip (strip (txt ++ NL ++ join NL strs)))
  | _ => Ok (strip txt)
  end.

Definition extract_resume_section_text (name : string)
    (structured_json ai_structured_json : option string) : result string :=
  let raw := select_raw structured_json ai_structured_json in
  if negb (nonempty raw) then Ok ""
  else
    match json_loads raw with
    | None => Ok ""
    | Some payload =>
        sections ← get "sections" (or_dict payload);
        sec ← get name (or_dict sections);
        section_text (or_dict sec)
    end.

Definition extract_resume_experience_text :=
  extract_resume_section_text "experience".

Definition extract_resume_education_text :=
  extract_resume_section_text "education".

(** The loop that collects [exp_tokens], leaving it at 800 tokens. *)
Fixpoint collect_exp_tokens (ms : list string) (exp_tokens : gset string)
    : gset string :=
  match ms with
  | [] => exp_tokens
  | m :: ms' =>
      let w := strip_chars "." m in
      if negb (nonempty w) || bool_decide (w ∈ _STOP)
      then collect_exp_tokens ms' exp_tokens
      else
        let exp_tokens := {[ w ]} ∪ exp_tokens in
        if (800 <=? size exp_tokens)%nat then exp_tokens
        else collect_exp_tokens ms' exp_tokens
  end.

Definition experience_relevance_score (job_tokens : list string)
    (experience_text : string) : Q :=
  let et := strip (lower experience_text) in
  if negb (nonempty et) || match job_tokens with [] => true | _ => false end
  then 0%Q
  else
    let exp_tokens := collect_exp_tokens (re_findall word_char 2 et) ∅ in
    if bool_decide (exp_tokens = ∅) then 0%Q
    else
      let overlap := filter (fun t => t ∈ exp_tokens) job_tokens in
      let overlap_ratio := (Qlen overlap / Qmax 1 (Qlen job_tokens))%Q in
      let length_factor := Qmin 1 (Qmax 0 (inject_Z (len et) / 900)) in
      let score := (0.7 * overlap_ratio + 0.3 * length_factor)%Q in
      if Qltb score 0 then 0%Q
      else if Qltb 1 score then 1%Q
      else score.

(** [sum(1 for kw in kws if kw in txt)] *)
Definition hits (kws : list string) (txt : string) : Q :=
  Qlen (filter (fun kw => contains kw txt = true) kws).

Definition education_relevance_score (job_title job_description : option string)
    (education_text : string) : Q :=
  let txt := strip (lower education_text) in
  if negb (nonempty txt) then 0%Q
  else
    let degree_hits :=
      hits [ "b.tech"; "btech"; "b.e"; "be "; "bachelor"; "m.tech"; "mtech";
             "master"; "computer science"; "engineering" ] txt in
    let cert_hits :=
      hits [ "certification"; "certified"; "course"; "bootcamp";
             "specialization" ] txt in
    let job_text :=
      lower (default "" job_title ++ " " ++ default "" job_description) in
    let stem_overlap :=
      Qlen (filter (fun stem => contains stem txt && contains stem job_text = true)
                   [ "backend"; "api"; "cloud"; "data"; "python"; "java";
                     "javascript"; "sql"; "devops" ]) in
    let score :=
      (0.35 * Qmin 1 (degree_hits / 3)
       + 0.15 * Qmin 1 (cert_hits / 2)
       + 0.50 * Qmin 1 (stem_overlap / 4))%Q in
    if Qltb score 0 then 0%Q
    else if Qltb 1 score then 1%Q
    else score.

(** [compute_final_score]: each pair [if x < 0.0: x = 0.0],
    [if x > 1.0: x = 1.0] of the source is two rebindings, in its order. *)
Definition compute_final_score
    (semantic_score skills_score experience_score education_score
     ai_reasoning_score : Q) : Z :=
  let semantic_score := float_or_zero semantic_score in
  let skills_score := float_or_zero skills_score in
  let experience_score := float_or_zero experience_score in
  let education_score := float_or_zero education_score in
  let ai_reasoning_score := float_or_zero ai_reasoning_score in
  let semantic_score := if Qltb semantic_score 0 then 0%Q else semantic_score in
  let semantic_score := if Qltb 1 semantic_score then 1%Q else semantic_score in
  let skills_score := if Qltb skills_score 0 then 0%Q else skills_score in
  let skills_score := if Qltb 1 skills_score then 1%Q else skills_score in
  let experience_score := if Qltb experience_score 0 then 0%Q else experience_score in
  let experience_score := if Qltb 1 experience_score then 1%Q else experience_score in
  let education_score := if Qltb education_score 0 then 0%Q else education_score in
  let education_score := if Qltb 1 education_score then 1%Q else education_score in
  let ai_reasoning_score := if Qltb ai_reasoning_score 0 then 0%Q else ai_reasoning_score in
  let ai_reasoning_score := if Qltb 1 ai_reasoning_score then 1%Q else ai_reasoning_score in
  let val :=
    (100 * (0.10 * semantic_score
            + 0.20 * skills_score
            + 0.15 * experience_score
            + 0.10 * education_score
            + 0.45 * ai_reasoning_score))%Q in
  let out := round val in
  if out <? 0 then 0
  else if 100 <? out then 100
  else out.

(** The [weights] entry of the breakdown. *)
Record weights : Type := {
  w_ai_reasoning : Q;
  w_skills : Q;
  w_experience : Q;
  w_education : Q;
  w_semantic : Q
}.

(** The breakdown dict, one field per key. *)
Record breakdown : Type := {
  bd_weights : weights;
  bd_semantic_score : Q;
  bd_skills_score : Q;
  bd_experience_score : Q;
  bd_education_score : Q;
  bd_ai_reasoning_score : Q;
  bd_ai_relevance_score : Q;
  bd_matched_skills : list string;
  bd_missing_skills : list string;
  bd_notes : list string
}.

Definition score_application
    (job_title job_description : option string)
    (job_required_skills : option (list string))
    (resume_structured_json resume_ai_structured_json : option string)
    (semantic_score : Q) (ai_relevance_pct : option Z)
    : result (Q * Z * breakdown) :=
  resume_skills ←
    extract_resume_skills resume_structured_json resume_ai_structured_json;
  let job_skills :=
    extract_job_skill_tokens job_title job_description job_required_skills in
  let '(skills_score, matched, missing) :=
    skills_overlap_score resume_skills job_skills in
  exp_text ←
    extract_resume_experience_text resume_structured_json resume_ai_structured_json;
  let experience_score := experience_relevance_score job_skills exp_text in
  edu_text ←
    extract_resume_education_text resume_structured_json resume_ai_structured_json;
  let education_score :=
    education_relevance_score job_title job_description edu_text in
  let ai_score := (fun n => Z.max 0 (Z.min 100 n)) <$> ai_relevance_pct in
  let ai_reasoning_score :=
    match ai_score with
    | Some n => (inject_Z n / 100)%Q
    | None => 0%Q
    end in
  let final_score :=
    compute_final_score semantic_score skills_score experience_score
                        education_score ai_reasoning_score in
  let notes :=
    ((if negb (truthy_str resume_structured_json)
         && negb (truthy_str resume_ai_structured_json)
      then ["No structured resume skills available; skills_score may be low."]
      else [])
     ++ (match job_skills with
         | [] => ["Could not extract skill tokens from job description."]
         | _ => []
         end)
     ++ (match ai_score with
         | None => ["No AI reasoning score available; ai_reasoning_score set to 0."]
         | Some _ => []
         end))%list in
  Ok (skills_score, final_score,
      {| bd_weights :=
           {| w_ai_reasoning := 0.45; w_skills := 0.20; w_experience := 0.15;
              w_education := 0.10; w_semantic := 0.10 |};
         bd_semantic_score := semantic_score;
         bd_skills_score := skills_score;
         bd_experience_score := experience_score;
         bd_education_score := education_score;
         bd_ai_reasoning_score := ai_reasoning_score;
         bd_ai_relevance_score := ai_reasoning_score;
         bd_matched_skills := matched;
         bd_missing_skills := missing;
         bd_notes := notes |}).

End with_json.

End scoring_engine.

(** ** [backend/app/services/resume_parsing.py]: skill normalisation *)

Module resume_parsing.

Import py.

Definition CR : string := String (ascii_of_N 13) "".
Definition NL : string := String (ascii_of_N 10) "".

(** [_LINE_CLEAN_RE = re.compile(r"[\t ]{2,}")] *)
Definition tab_or_space (c : ascii) : bool := in_range 9 9 c || in_range 32 32 c.

Definition _normalize_line (s : string) : string :=
  let s := replace CR NL (replace (CR ++ NL) NL s) in
  let s := strip (re_sub tab_or_space 2 " " s) in
  s.

(** [re.sub(r"[^A-Za-z0-9+#. ]+", " ", s)]: the class that is replaced. *)
Definition noise_char (c : ascii) : bool :=
  negb (is_alpha c || is_digit c || one_of "+#. " c).

(** [re.match(r"^[A-Za-z]{1,6}\d+(\.\d+)?$", s)].  Letters, digits and the
    dot are disjoint classes, so each repetition matches a maximal run. *)
Definition match_version (s : string) : bool :=
  let '(letters, r1) := span is_alpha (chars s) in
  let '(digits, r2) := span is_digit r1 in
  (1 <=? List.length letters)%nat && (List.length letters <=? 6)%nat
  && (1 <=? List.length digits)%nat
  && (at_end r2
      || match r2 with
         | c :: r3 =>
             Ascii.eqb c "."%char
             && (let '(frac, r4) := span is_digit r3 in
                 (1 <=? List.length frac)%nat && at_end r4)
         | [] => false
         end).

(** [re.match(r"^[A-Za-z0-9+#.]+$", s)] *)
Definition token_char (c : ascii) : bool :=
  is_alpha c || is_digit c || one_of "+#." c.
Definition match_single_token (s : string) : bool :=
  let '(tok, r) := span token_char (chars s) in
  (1 <=? List.length tok)%nat && at_end r.

Definition acronyms : gset string :=
  list_to_set [ "api"; "apis"; "sql"; "aws"; "gcp"; "ml"; "ai"; "ci"; "cd" ].

(** The cleaning of one raw item, up to the length filter: [None] when the
    loop [continue]s.  The bullet U+2022 of [s.strip(" -•")] has no
    7-bit character; the set is the space and the hyphen. *)
Definition clean_item (raw : string) : option string :=
  let s := _normalize_line raw in
  let s := strip (strip_chars " -" s) in
  if negb (nonempty s) then None
  else
    let s := strip (re_sub noise_char 1 " " s) in
    let s := re_sub tab_or_space 2 " " s in
    if (len s <? 2) || (40 <? len s) then None
    else Some s.

(** The casing of a kept token: the [if]/[elif] chain that sets [norm]. *)
Definition case_form (s : string) : string :=
  if isupper s then s
  else if match_version s then s
  else if match_single_token s then
    if bool_decide (lower s ∈ acronyms) then upper s else s
  else
    join " " (map (fun w => if isalpha w then capitalize w else w) (split " " s)).

(** One turn of the loop [for raw in items]. *)
Definition step (st : gset string * list string) (raw : string)
    : gset string * list string :=
  let '(seen, out) := st in
  match clean_item raw with
  | None => st
  | Some s =>
      let norm := case_form s in
      let key := lower norm in
      if bool_decide (key ∈ seen) then st
      else ({[ key ]} ∪ seen, (out ++ [norm])%list)
  end.

Definition normalize_skills (items : list string) : list string :=
  snd (fold_left step items (∅, [])).

(** *** Sections *)

Definition _HEADING_ALIASES : list (string * list string) :=
  [ ("skills",
     [ "skills"; "technical skills"; "key skills"; "core skills";
       "skills & tools"; "tools"; "technologies"; "tech stack" ]);
    ("experience",
     [ "experience"; "work experience"; "professional experience";
       "employment"; "employment history"; "work history"; "internships";
       "projects"; "project experience" ]);
    ("education",
     [ "education"; "academic"; "academic background";
       "education & certifications"; "certifications"; "certification" ]) ].

(** [re.sub(r"[^a-z0-9 &]+", "", key)]: the class that is removed. *)
Definition not_heading_char (c : ascii) : bool :=
  negb (is_lower c || is_digit c || one_of " &" c).

Definition _canonical_heading (line : string) : option string :=
  let raw := _normalize_line line in
  if negb (nonempty raw) then None
  else
    let key := lower (strip (strip_chars "-" (strip_chars ":" (strip raw)))) in
    let key := strip (re_sub not_heading_char 1 "" key) in
    if negb (nonempty key) then None
    else
      fst <$> List.find
                (fun ca => String.eqb key (fst ca)
                           || existsb (String.eqb key) (snd ca))
                _HEADING_ALIASES.

(** [(text or "").replace("\r\n", "\n").replace("\r", "\n").split("\n")] *)
Definition lines_of (text : string) : list string :=
  split "010"%char (replace CR NL (replace (CR ++ NL) NL text)).

(** The loop over [enumerate(lines)], from line [i] on. *)
Fixpoint hits_from (i : nat) (lines : list string)
    : list (nat * string * string) :=
  match lines with
  | [] => []
  | line :: lines' =>
      match _canonical_heading line with
      | Some canon => (i, canon, _normalize_line line) :: hits_from (S i) lines'
      | None => hits_from (S i) lines'
      end
  end.

(** One turn of the loop that drops a heading repeated within two lines. *)
Definition dedup_step (dedup : list (nat * string * string))
    (hit : nat * string * string) : list (nat * string * string) :=
  let '(i, canon, _) := hit in
  match last dedup with
  | Some (i0, canon0, _) =>
      if String.eqb canon0 canon && (Z.of_nat i - Z.of_nat i0 <=? 2)
      then dedup
      else (dedup ++ [hit])%list
  | None => (dedup ++ [hit])%list
  end.

(** The value of an entry of [spans]; [end] is a keyword. *)
Record section_span : Type := {
  span_start : nat;
  span_end : nat;
  heading_line : string
}.

(** [d[k] = v] on a dict, which keeps the place of a key it has. *)
Fixpoint dict_set {A : Type} (k : string) (v : A) (d : list (string * A))
    : list (string * A) :=
  match d with
  | [] => [(k, v)]
  | (k', v') :: d' =>
      if String.eqb k' k then (k', v) :: d' else (k', v') :: dict_set k v d'
  end.

(** [d.get(k)] *)
Definition dict_get {A : Type} (k : string) (d : list (string * A)) : option A :=
  snd <$> List.find (fun kv => String.eqb (fst kv) k) d.

(** The loop over [enumerate(dedup)]; [n] is [len(lines)]. *)
Fixpoint spans_from (n : nat) (dedup : list (nat * string * string))
    (spans : list (string * section_span)) : list (string * section_span) :=
  match dedup with
  | [] => spans
  | (line_idx, canon, hline) :: rest =>
      let e :=
        match rest with
        | (next_idx, _, _) :: _ => next_idx
        | [] => n
        end in
      spans_from n rest
        (dict_set canon
           {| span_start := line_idx + 1; span_end := e; heading_line := hline |}
           spans)
  end.

Definition detect_sections (text : string) : list (string * section_span) :=
  let lines := lines_of text in
  let hits := hits_from 0 lines in
  let dedup := fold_left dedup_step hits [] in
  spans_from (List.length lines) dedup [].

(** [lines[start:end]] joined and stripped *)
Definition _slice_text (lines : list string) (start e : nat) : string :=
  strip (join NL (firstn (e - start) (skipn start lines))).

(** The dict of [extract_section_texts], in the order of its keys. *)
Definition extract_section_texts (text : string) : list (string * string) :=
  let lines := lines_of text in
  let spans := detect_sections text in
  map (fun sec =>
         (sec,
          match dict_get sec spans with
          | Some meta => _slice_text lines (span_start meta) (span_end meta)
          | None => ""
          end))
      [ "skills"; "experience"; "education" ].

(** *** Skill items *)

(** [_BULLET_LINE_RE.sub("", l)] with [r"^\s*[-]\s+"]: the bullets other
    than the hyphen have no 7-bit character. *)
Definition drop_bullet (l : list ascii) : list ascii :=
  match drop_while is_space l with
  | c :: r =>
      if Ascii.eqb c "-"%char
      then match r with
           | c' :: _ => if is_space c' then drop_while is_space r else l
           | [] => l
           end
      else l
  | [] => l
  end.

(** [_SKILL_SPLIT_RE.split(blob)] with [r"[,/|;\n]+"]: the pieces between
    the maximal runs of separators. *)
Definition skill_sep (c : ascii) : bool :=
  one_of ",/|;" c || Ascii.eqb c "010"%char.

Fixpoint re_split_aux (p : ascii -> bool) (cur : list ascii) (in_sep : bool)
    (l : list ascii) : list string :=
  match l with
  | [] => [str (rev cur)]
  | c :: l' =>
      if p c then
        if in_sep then re_split_aux p cur true l'
        else str (rev cur) :: re_split_aux p [] true l'
      else re_split_aux p (c :: cur) false l'
  end.
Definition re_split (p : ascii -> bool) (s : string) : list string :=
  re_split_aux p [] false (chars s).

(** [_WORD_SKILL_RE = re.compile(r"[A-Za-z0-9+#.]{2,}")] *)
Definition word_skill_char : ascii -> bool := token_char.

(** The body of [for p in parts]. *)
Definition add_part (tokens : list string) (p : string) : list string :=
  let words := re_findall word_skill_char 2 p in
  match words with
  | [] => tokens
  | _ =>
      if (List.length words <=? 3)%nat && (len p <=? 40)
      then (tokens ++ [join " " words])%list
      else (tokens ++ words)%list
  end.

Definition extract_skill_items (skills_text full_text : string) : list string :=
  let base :=
    if nonempty (strip skills_text) then strip skills_text else strip full_text in
  if negb (nonempty base) then []
  else
    let cleaned :=
      omap (fun line =>
              let l := _normalize_line line in
              if negb (nonempty l) then None
              else Some (strip (str (drop_bullet (chars l)))))
           (split "010"%char base) in
    let blob := join NL cleaned in
    let parts :=
      filter (fun p => nonempty p = true) (map strip (re_split skill_sep blob)) in
    fold_left add_part parts [].

(** [skills[:n], skills[n:]] for the first [n] skills when there is a skills
    section. *)
Definition split_primary_secondary (skills : list string) (skills_text : string)
    : list string * list string :=
  match skills with
  | [] => ([], [])
  | _ =>
      if nonempty (strip skills_text)
      then
        let n := Z.min 8 (Z.max 3 (Z.of_nat (List.length skills) / 3)) in
        (firstn (Z.to_nat n) skills, skipn (Z.to_nat n) skills)
      else ([], skills)
  end.

(** *** The parsed resume *)

(** The payload of [parse_resume_text], one field per leaf of the dict; the
    [items] of the experience and of the education section are the empty
    list.  After a refinement [primary] and [secondary] hold what the
    response holds. *)
Record payload : Type := {
  version : Z;
  skills_text : string;
  skills_items : list string;
  skills_primary : json.value;
  skills_secondary : json.value;
  llm_refined : bool;
  experience_text : string;
  education_text : string;
  headings_found : list string;
  warnings : list string
}.

(** What the request of [_maybe_refine_with_llm] comes to: a status of 400
    or more, the two values [parsed.get("primary") or []] and
    [parsed.get("secondary") or []], or an exception. *)
Inductive llm_outcome : Type :=
| llm_http_error (status_code : Z)
| llm_answer (primary secondary : json.value)
| llm_exception.

(** A list of strings as a decoded value. *)
Definition str_list (l : list string) : json.value :=
  json.JList (map json.JStr l).

Section with_llm.

(** [os.getenv] of the three variables, and the request made for the
    extracted skills. *)
Variable AI_API_KEY : option string.
Variable LLM_ENDPOINT : option string.
Variable LLM_MODEL : option string.
Variable llm_request : list string -> llm_outcome.

Definition env_set (v : option string) : bool :=
  match v with Some s => nonempty s | None => false end.

Definition _maybe_refine_with_llm (p : payload) : payload * list string :=
  if negb (env_set AI_API_KEY) then (p, [])
  else if negb (env_set LLM_ENDPOINT) || negb (env_set LLM_MODEL)
  then (p, [ "LLM refinement skipped: set LLM_ENDPOINT and LLM_MODEL to enable." ])
  else
    match llm_request (skills_items p) with
    | llm_http_error status_code =>
        (p, [ "LLM refinement failed: HTTP " ++ str_of_int status_code ++ "." ])
    | llm_answer primary secondary =>
        ({| version := version p;
            skills_text := skills_text p;
            skills_items := skills_items p;
            skills_primary := primary;
            skills_secondary := secondary;
            llm_refined := true;
            experience_text := experience_text p;
            education_text := education_text p;
            headings_found := headings_found p;
            warnings := warnings p |}, [])
    | llm_exception =>
        (p, [ "LLM refinement failed due to an unexpected error." ])
    end.

Definition parse_resume_text (text : string) : payload :=
  let raw_text := strip text in
  let sections := extract_section_texts raw_text in
  let section sec := default "" (dict_get sec sections) in
  let skill_items := extract_skill_items (section "skills") raw_text in
  let skills := normalize_skills skill_items in
  let '(primary, secondary) :=
    split_primary_secondary skills (section "skills") in
  let p :=
    {| version := 1;
       skills_text := section "skills";
       skills_items := skills;
       skills_primary := str_list primary;
       skills_secondary := str_list secondary;
       llm_refined := false;
       experience_text := section "experience";
       education_text := section "education";
       headings_found := map fst (detect_sections raw_text);
       warnings := [] |} in
  let '(p, llm_warnings) := _maybe_refine_with_llm p in
  let warnings :=
    (warnings p ++ llm_warnings
     ++ (if negb (nonempty raw_text)
         then [ "No extracted_text available to parse." ]
         else []))%list in
  {| version := version p;
     skills_text := skills_text p;
     skills_items := skills_items p;
     skills_primary := skills_primary p;
     skills_secondary := skills_secondary p;
     llm_refined := llm_refined p;
     experience_text := experience_text p;
     education_text := education_text p;
     headings_found := headings_found p;
     warnings := warnings |}.

End with_llm.

End resume_parsing.

(** ** [backend/app/services/semantic_similarity.py]: cosine similarity *)

Module semantic_similarity.

Import py.

(** [x / y] on floats raises on a zero divisor. *)
Definition float_div (x y : Q) : result Q :=
  if Qeq_bool y 0 then Raise ZeroDivisionError else Ok (x / y)%Q.

(** The body of [for x, y in zip(a, b)]. *)
Definition accumulate (acc : Q * Q * Q) (xy : Q * Q) : Q * Q * Q :=
  let '(dot, na, nb) := acc in
  let '(x, y) := xy in
  (dot + x * y, na + x * x, nb + y * y)%Q.

Section with_sqrt.

(** [math.sqrt] *)
Variable sqrt : Q -> Q.

Definition cosine_similarity (a b : list Q) : result Q :=
  match a, b with
  | [], _ | _, [] => Ok 0%Q
  | _, _ =>
      if negb (List.length a =? List.length b)%nat then Ok 0%Q
      else
        let '(dot, na, nb) := fold_left accumulate (combine a b) (0, 0, 0)%Q in
        if Qle_bool na 0 || Qle_bool nb 0 then Ok 0%Q
        else float_div dot (sqrt na * sqrt nb)
  end.

End with_sqrt.

(** A square root to run the model with: Newton's iteration from
    [(x + 1) / 2], which stays above the root. *)
Fixpoint newton (n : nat) (x y : Q) : Q :=
  match n with
  | O => y
  | S k => newton k x (Qred ((y + x / y) / 2))
  end.
Definition sqrt_newton (x : Q) : Q := newton 6 x (Qred ((x + 1) / 2)).

End semantic_similarity.

(** ** [backend/app/services/ai_match_cache.py]

    The table [ai_match_cache] is the list of its rows, oldest first; a
    query on it does not fail. *)

Module ai_match_cache.

Import py json.

(** [models/ai_match_cache.py]; the position of a row in the table is its
    primary key. *)
Module AIMatchCache.
Record t : Type := {
  cache_key : string;
  job_id : option Z;
  resume_id : option Z;
  model_version : string;
  match_result_json : string;
  match_score : option Z;
  api_latency_ms : option Z;
  created_at : Z;
  expires_at : option Z
}.
End AIMatchCache.

Definition table : Type := list AIMatchCache.t.

Section with_config.

(** [config.GEMINI_MODEL] *)
Variable GEMINI_MODEL : string.
(** [json.loads] and [json.dumps]; [None] when they raise. *)
Variable json_loads : string -> option value.
Variable json_dumps : value -> option string.

(** [model_version or GEMINI_MODEL] *)
Definition model_or_default (model_version : option string) : string :=
  match model_version with
  | Some m => if nonempty m then m else GEMINI_MODEL
  | None => GEMINI_MODEL
  end.

Definition _generate_cache_key
    (job_id resume_id : option Z) (job_text resume_text : option string)
    (model_version : option string) : result string :=
  let model_version := model_or_default model_version in
  match job_id, resume_id with
  | Some j, Some r =>
      let key_string := str_of_int j ++ ":" ++ str_of_int r ++ ":" ++ model_version in
      Ok (sha256.hexdigest key_string)
  | _, _ =>
      match job_text, resume_text with
      | Some jt, Some rt =>
          let job_hash := substring 0 32 (sha256.hexdigest jt) in
          let resume_hash := substring 0 32 (sha256.hexdigest rt) in
          let key_string := job_hash ++ ":" ++ resume_hash ++ ":" ++ model_version in
          Ok (sha256.hexdigest key_string)
      | _, _ => Raise ValueError
      end
  end.

(** [db.query(AIMatchCache).filter(AIMatchCache.cache_key == k).first()] *)
Definition first_with_key (db : table) (k : string) : option AIMatchCache.t :=
  List.find (fun row => String.eqb (AIMatchCache.cache_key row) k) db.

(** [get_cached_match]; [now] is [datetime.now(timezone.utc)].  The debug
    message reads [match_result.get('score')], and the outer handler turns
    the error of a payload that is no dict into [None]. *)
Definition get_cached_match (now : Z) (db : table)
    (job_id resume_id : option Z) (job_text resume_text : option string)
    (model_version : option string) : option value :=
  match _generate_cache_key job_id resume_id job_text resume_text model_version with
  | Raise _ => None
  | Ok key =>
      match first_with_key db key with
      | None => None
      | Some cache_entry =>
          if match AIMatchCache.expires_at cache_entry with
             | Some e => e <? now
             | None => false
             end
          then None
          else
            match json_loads (AIMatchCache.match_result_json cache_entry) with
            | None => None
            | Some match_result =>
                match get "score" match_result with
                | Ok _ => Some match_result
                | Raise _ => None
                end
            end
      end
  end.

(** [int(x) if isinstance(x, (int, float)) else None]; a bool is an int. *)
Definition score_column (v : value) : option Z :=
  match v with
  | JInt n => Some n
  | JBool b => Some (if b then 1 else 0)
  | JFloat x => Some (Qnum x ÷ Zpos (Qden x))
  | _ => None
  end.

(** The row that [cache_match_result] builds, or the exception of building
    it. *)
Definition new_entry (now : Z) (key : string) (match_result : value)
    (job_id resume_id : option Z) (api_latency_ms : option Z)
    (model_version : string) : result AIMatchCache.t :=
  match json_dumps match_result with
  | None => Raise TypeError
  | Some text =>
      score ← get "score" match_result;
      Ok {| AIMatchCache.cache_key := key;
            AIMatchCache.job_id := job_id;
            AIMatchCache.resume_id := resume_id;
            AIMatchCache.model_version := model_version;
            AIMatchCache.match_result_json := text;
            AIMatchCache.match_score := score_column score;
            AIMatchCache.api_latency_ms := api_latency_ms;
            AIMatchCache.created_at := now;
            AIMatchCache.expires_at := None |}
  end.

(** [db.add(row); db.commit()]: the columns [job_id] and [resume_id] are
    [nullable=False], and [cache_key] is unique. *)
Definition commit_insert (db : table) (row : AIMatchCache.t) : option table :=
  match AIMatchCache.job_id row, AIMatchCache.resume_id row with
  | Some _, Some _ =>
      match first_with_key db (AIMatchCache.cache_key row) with
      | None => Some (db ++ [row])%list
      | Some _ => None
      end
  | _, _ => None
  end.

(** [cache_match_result]: the table after the call and the returned flag. *)
Definition cache_match_result (now : Z) (db : table) (match_result : value)
    (job_id resume_id : option Z) (job_text resume_text : option string)
    (api_latency_ms : option Z) (model_version : option string)
    : table * bool :=
  match _generate_cache_key job_id resume_id job_text resume_text model_version with
  | Raise _ => (db, false)
  | Ok key =>
      let model_version := model_or_default model_version in
      match first_with_key db key with
      | Some existing => (db, true)
      | None =>
          match new_entry now key match_result job_id resume_id
                          api_latency_ms model_version with
          | Raise _ => (db, false)
          | Ok cache_entry =>
              match commit_insert db cache_entry with
              | Some db' => (db', true)
              | None => (db, false)
              end
          end
      end
  end.

End with_config.

(** [db.query(AIMatchCache).filter(AIMatchCache.job_id == job_id).delete()]
    and the commit: the table without the rows of the job, and the number of
    rows deleted. *)
Definition invalidate_job_cache (db : table) (job_id : Z) : table * Z :=
  let count :=
    List.length (filter (fun row => AIMatchCache.job_id row = Some job_id) db) in
  (filter (fun row => AIMatchCache.job_id row <> Some job_id) db, Z.of_nat count).

Definition invalidate_resume_cache (db : table) (resume_id : Z) : table * Z :=
  let count :=
    List.length (filter (fun row => AIMatchCache.resume_id row = Some resume_id) db) in
  (filter (fun row => AIMatchCache.resume_id row <> Some resume_id) db,
   Z.of_nat count).



End ai_match_cache.

(** ** [backend/app/services/embeddings.py]

    The table [embeddings] is the list of its rows; the position of a row
    is its primary key.  [now] is the clock of the database, read by
    [server_default=func.now()] and [onupdate=func.now()]. *)

Module embeddings.

Import py.

(** [models/embedding.py] *)
Module Embedding.
Record t : Type := {
  entity_type : string;
  entity_id : Z;
  model : string;
  dim : Z;
  text_hash : string;
  vector_json : string;
  created_at : Z;
  updated_at : Z
}.
End Embedding.

Definition table : Type := list Embedding.t.

Definition NL : string := String (ascii_of_N 10) "".

(** [_WS_RE.sub(" ", text.strip())] with [_WS_RE = re.compile(r"\s+")] *)
Definition normalize_text (text : string) : string :=
  re_sub is_space 1 " " (strip text).

Definition text_hash (text model : string) : string :=
  sha256.hexdigest (model ++ NL ++ text).

(** The rows of one entity and model. *)
Definition of_key (entity_type : string) (entity_id : Z) (model_name : string)
    (row : Embedding.t) : bool :=
  String.eqb (Embedding.entity_type row) entity_type
  && (Embedding.entity_id row =? entity_id)
  && String.eqb (Embedding.model row) model_name.

(** [.order_by(Embedding.updated_at.desc()).first()] over the rows from
    position [i] on: the position and the row of the latest update, the
    earliest such row when several share it. *)
Fixpoint latest_from (p : Embedding.t -> bool) (i : nat) (rows : table)
    (best : option (nat * Embedding.t)) : option (nat * Embedding.t) :=
  match rows with
  | [] => best
  | row :: rows' =>
      let best' :=
        if p row then
          match best with
          | Some (_, b) =>
              if Embedding.updated_at b <? Embedding.updated_at row
              then Some (i, row) else best
          | None => Some (i, row)
          end
        else best in
      latest_from p (S i) rows' best'
  end.

Definition latest (db : table) (entity_type : string) (entity_id : Z)
    (model_name : string) : option (nat * Embedding.t) :=
  latest_from (of_key entity_type entity_id model_name) O db None.

Section with_config.

(** [config.EMBEDDINGS_ENABLED], [config.EMBEDDINGS_MODEL] *)
Variable EMBEDDINGS_ENABLED : bool.
Variable EMBEDDINGS_MODEL : string.
(** [next(_get_embedder().embed([t]))] as a list of floats; loading the
    model can raise. *)
Variable embedder : string -> result (list Q).
(** [json.dumps] of a list of floats *)
Variable json_dumps : list Q -> string.

(** [model or EMBEDDINGS_MODEL] *)
Definition model_or_default (model : option string) : string :=
  match model with
  | Some m => if nonempty m then m else EMBEDDINGS_MODEL
  | None => EMBEDDINGS_MODEL
  end.

Definition embed_text (text : string) : result (list Q) :=
  if negb EMBEDDINGS_ENABLED then Ok []
  else
    let t := normalize_text text in
    if negb (nonempty t) then Ok []
    else embedder t.

(** The row [r] after [row.text_hash = h; row.vector_json = payload;
    row.dim = dim] and the commit, which sets [updated_at]. *)
Definition rewritten (r : Embedding.t) (h : string) (v : list Q) (now : Z)
    : Embedding.t :=
  {| Embedding.entity_type := Embedding.entity_type r;
     Embedding.entity_id := Embedding.entity_id r;
     Embedding.model := Embedding.model r;
     Embedding.dim := Z.of_nat (List.length v);
     Embedding.text_hash := h;
     Embedding.vector_json := json_dumps v;
     Embedding.created_at := Embedding.created_at r;
     Embedding.updated_at := now |}.

(** [Embedding(entity_type=..., entity_id=..., model=..., dim=...,
    text_hash=..., vector_json=...)] once committed. *)
Definition created (et : string) (eid : Z) (mn : string) (h : string)
    (v : list Q) (now : Z) : Embedding.t :=
  {| Embedding.entity_type := et;
     Embedding.entity_id := eid;
     Embedding.model := mn;
     Embedding.dim := Z.of_nat (List.length v);
     Embedding.text_hash := h;
     Embedding.vector_json := json_dumps v;
     Embedding.created_at := now;
     Embedding.updated_at := now |}.

(** [get_or_create_embedding]: the table after the call and the returned
    row, or the exception of the embedder. *)
Definition get_or_create_embedding (now : Z) (db : table)
    (entity_type : string) (entity_id : Z) (text : string)
    (model : option string) : result (table * option Embedding.t) :=
  if negb EMBEDDINGS_ENABLED then Ok (db, None)
  else
    let model_name := model_or_default model in
    let norm := normalize_text text in
    if negb (nonempty norm) then Ok (db, None)
    else
      let h := text_hash norm model_name in
      let row := latest db entity_type entity_id model_name in
      if match row with
         | Some (_, r) =>
             String.eqb (Embedding.text_hash r) h
             && nonempty (Embedding.vector_json r)
         | None => false
         end
      then Ok (db, snd <$> row)
      else
        vector ← embed_text norm;
        match vector with
        | [] => Ok (db, None)
        | _ =>
            match row with
            | Some (i, r) =>
                let r' := rewritten r h vector now in
                Ok (<[ i := r' ]> db, Some r')
            | None =>
                let r' := created entity_type entity_id model_name h vector now in
                Ok ((db ++ [r'])%list, Some r')
            end
        end.

(** The outcomes of a call, by the path it takes. *)
Inductive outcome (now : Z) (db : table) (et : string) (eid : Z) (text : string)
    (model : option string) : table -> option Embedding.t -> Prop :=
| nothing :
    outcome now db et eid text model db None
| reused (i : nat) (r : Embedding.t) :
    EMBEDDINGS_ENABLED = true ->
    nonempty (normalize_text text) = true ->
    latest db et eid (model_or_default model) = Some (i, r) ->
    Embedding.text_hash r = text_hash (normalize_text text) (model_or_default model) ->
    nonempty (Embedding.vector_json r) = true ->
    outcome now db et eid text model db (Some r)
| updated (i : nat) (r : Embedding.t) (v : list Q) :
    EMBEDDINGS_ENABLED = true ->
    nonempty (normalize_text text) = true ->
    latest db et eid (model_or_default model) = Some (i, r) ->
    db !! i = Some r ->
    of_key et eid (model_or_default model) r = true ->
    embed_text (normalize_text text) = Ok v -> v <> [] ->
    outcome now db et eid text model
      (<[ i := rewritten r (text_hash (normalize_text text) (model_or_default model)) v now ]> db)
      (Some (rewritten r (text_hash (normalize_text text) (model_or_default model)) v now))
| inserted (v : list Q) :
    EMBEDDINGS_ENABLED = true ->
    nonempty (normalize_text text) = true ->
    List.filter (of_key et eid (model_or_default model)) db = [] ->
    embed_text (normalize_text text) = Ok v -> v <> [] ->
    outcome now db et eid text model
      (db ++ [created et eid (model_or_default model)
                (text_hash (normalize_text text) (model_or_default model)) v now])%list
      (Some (created et eid (model_or_default model)
               (text_hash (normalize_text text) (model_or_default model)) v now)).

End with_config.


Section with_json.

(** [json.loads], [None] when it raises, and [float(s)] on a string. *)
Variable json_loads : string -> option json.value.
Variable float_of_str : string -> option Q.

(** [float(x)] on a decoded value; [None] when it raises. *)
Definition py_float (x : json.value) : option Q :=
  match x with
  | json.JInt n => Some (inject_Z n)
  | json.JFloat q => Some q
  | json.JBool b => Some (if b then 1%Q else 0%Q)
  | json.JStr s => float_of_str s
  | _ => None
  end.

(** [vector_from_row]: any exception, and a payload that is no list, gives
    the empty vector. *)
Definition vector_from_row (row : Embedding.t) : list Q :=
  let text :=
    if nonempty (Embedding.vector_json row) then Embedding.vector_json row
    else "[]" in
  match json_loads text with
  | Some (json.JList data) => default [] (mapM py_float data)
  | _ => []
  end.

End with_json.

End embeddings.

(** The rest of [services/semantic_similarity.py], which reads the table of
    embeddings. *)
Module semantic_similarity_db.

Import py embeddings semantic_similarity.

(** [_TOK_RE = re.compile(r"[a-z0-9+#.]{2,}")] *)
Definition tok_char (c : ascii) : bool :=
  is_lower c || is_digit c || one_of "+#." c.

(** The same 24 words as [scoring_engine._STOP]. *)
Definition _STOP : gset string := scoring_engine._STOP.

(** The inner function [toks]. *)
Definition toks (s : string) : list string :=
  firstn 1200 (filter (fun w => w ∉ _STOP) (re_findall tok_char 2 s)).

(** [Counter(l)]: the words in the order of their first occurrence, with
    their counts. *)
Fixpoint count_word (w : string) (counts : list (string * Z))
    : list (string * Z) :=
  match counts with
  | [] => [(w, 1)]
  | (x, n) :: counts' =>
      if String.eqb x w then (x, n + 1) :: counts'
      else (x, n) :: count_word w counts'
  end.

Definition Counter (l : list string) : list (string * Z) :=
  fold_left (fun counts w => count_word w counts) l [].

Definition dim : Z := 256.

Section with_hash.

(** [math.sqrt], and the built-in [hash] on strings of the running
    interpreter. *)
Variable sqrt : Q -> Q.
Variable py_hash : string -> Z.

(** [v[hash(w) % dim] += float(c)]; the index is within the [dim]
    entries. *)
Definition bump (v : list Q) (wc : string * Z) : list Q :=
  let i := Z.to_nat (py_hash (fst wc) mod dim) in
  match v !! i with
  | Some x => <[ i := (x + inject_Z (snd wc))%Q ]> v
  | None => v
  end.

Definition hashed (words : list string) : list Q :=
  fold_left bump (Counter words) (replicate (Z.to_nat dim) 0%Q).

Definition fallback_semantic_similarity (resume_text job_text : string)
    : result Q :=
  let rt := lower resume_text in
  let jt := lower job_text in
  if negb (nonempty (strip rt)) || negb (nonempty (strip jt)) then Ok 0%Q
  else
    let ra := toks rt in
    let ja := toks jt in
    match ra, ja with
    | [], _ | _, [] => Ok 0%Q
    | _, _ => cosine_similarity sqrt (hashed ra) (hashed ja)
    end.

(** [if score < 0.0: return 0.0], [if score > 1.0: return 1.0] *)
Definition clamp_score (score : Q) : Q :=
  if Qltb score 0 then 0%Q else if Qltb 1 score then 1%Q else score.

(** [_get_latest_embedding] *)
Definition _get_latest_embedding (db : table) (entity_type : string)
    (entity_id : Z) (model : string) : option Embedding.t :=
  snd <$> latest db entity_type entity_id model.

Variable EMBEDDINGS_ENABLED : bool.
Variable EMBEDDINGS_MODEL : string.
Variable embedder : string -> result (list Q).
Variable json_dumps : list Q -> string.
Variable json_loads : string -> option json.value.
Variable float_of_str : string -> option Q.

(** [resume_job_similarity]: the table after the call and the score; [now]
    and [now'] are the times of the two commits. *)
Definition resume_job_similarity (now now' : Z) (db : table)
    (resume_id job_id : Z) (resume_text job_text : string)
    (model : option string) : result (table * Q) :=
  let model_name := model_or_default EMBEDDINGS_MODEL model in
  r ← get_or_create_embedding EMBEDDINGS_ENABLED EMBEDDINGS_MODEL embedder
         json_dumps now db "resume" resume_id resume_text (Some model_name);
  let '(db, r_row) := r in
  j ← get_or_create_embedding EMBEDDINGS_ENABLED EMBEDDINGS_MODEL embedder
         json_dumps now' db "job" job_id job_text (Some model_name);
  let '(db, j_row) := j in
  let r_row :=
    match r_row with
    | Some row => Some row
    | None => _get_latest_embedding db "resume" resume_id model_name
    end in
  let j_row :=
    match j_row with
    | Some row => Some row
    | None => _get_latest_embedding db "job" job_id model_name
    end in
  match r_row, j_row with
  | Some r_row, Some j_row =>
      let rv := vector_from_row json_loads float_of_str r_row in
      let jv := vector_from_row json_loads float_of_str j_row in
      score ← cosine_similarity sqrt rv jv;
      Ok (db, clamp_score score)
  | _, _ =>
      score ← fallback_semantic_similarity resume_text job_text;
      Ok (db, clamp_score score)
  end.

End with_hash.

End semantic_similarity_db.

(** ** The specification's own formulas

    Definitions that follow the words of the specification, to be compared
    with the functions above. *)

Module spec.

Import py.

(** "clamped to [0,1]" *)
Definition clamp01 (x : Q) : Q := Qmax 0 (Qmin 1 x).


(** "final = round(100 * (0.45*ai_reasoning + 0.20*skills + 0.15*experience
    + 0.10*education + 0.10*semantic))" *)
Definition weighted (semantic skills experience education ai_reasoning : Q) : Q :=
  (100 * (0.45 * ai_reasoning + 0.20 * skills + 0.15 * experience
          + 0.10 * education + 0.10 * semantic))%Q.

(** "harmonic mean (F1) of precision and recall, 0 if both are 0": the
    harmonic mean [2 / (1/p + 1/r)] of two positive rates, and 0 when a rate
    is 0. *)
Definition harmonic_mean (p r : Q) : Q :=
  if Qle_bool p 0 || Qle_bool r 0 then 0%Q else (2 / (1 / p + 1 / r))%Q.

(** "norms": the squared Euclidean norm of a vector; the norm is zero when
    it is. *)
Definition norm_sq (v : list Q) : Q := fold_right (fun x s => (x * x + s)%Q) 0%Q v.

(** "deduplicate case-insensitively, preserving first-seen form and
    order": an element stays unless its lowercase form was met before;
    [seen] lists the lowercase forms met so far. *)
Fixpoint dedup_ci (seen : list string) (l : list string) : list string :=
  match l with
  | [] => []
  | x :: l' =>
      if existsb (String.eqb (lower x)) seen then dedup_ci seen l'
      else x :: dedup_ci (lower x :: seen) l'
  end.

(** "a fixed set of known acronyms (api, sql, aws, gcp, ml, ai, ci, cd)" *)
Definition claimed_acronyms : list string :=
  [ "api"; "sql"; "aws"; "gcp"; "ml"; "ai"; "ci"; "cd" ].

(** "preserve case for all-caps tokens and version-like tokens; uppercase a
    fixed set of known acronyms; otherwise title-case each word" *)
Definition claimed_case_form (s : string) : string :=
  if isupper s || resume_parsing.match_version s then s
  else if existsb (String.eqb (lower s)) claimed_acronyms then upper s
  else join " " (map capitalize (split " " s)).

Definition claimed_normalize_skills (items : list string) : list string :=
  dedup_ci [] (map claimed_case_form (omap resume_parsing.clean_item items)).

End spec.

(** ** Steps of the functions above, named for the proofs *)

Module steps.

Import py.

(** The clamping of one component, as [compute_final_score] writes it. *)
Definition clamp_steps (x : Q) : Q :=
  let x := float_or_zero x in
  let x := if Qltb x 0 then 0%Q else x in
  if Qltb 1 x then 1%Q else x.

(** The F1 formula as [skills_overlap_score] writes it. *)
Definition f1_steps (precision recall : Q) : Q :=
  if Qle_bool (precision + recall) 0 then 0%Q
  else (2 * precision * recall / (precision + recall))%Q.

(** The last two [if]s of [skills_overlap_score]. *)
Definition clamp_ifs (score : Q) : Q :=
  let score := if Qltb score 0 then 0%Q else score in
  if Qltb 1 score then 1%Q else score.

End steps.

(** ** Library functions and tables to run the model with *)

Module samples.

Import py json ai_match_cache.

(** [json.loads] on two texts. *)
Definition sample_loads (s : string) : option value :=
  if String.eqb s "[1]" then Some (JList [JInt 1])
  else if String.eqb s "{}" then Some (JDict [])
  else None.


(** A table with one row, stored for job 1 and resume 2. *)
Definition sample_cache : ai_match_cache.table :=
  [ {| AIMatchCache.cache_key := sha256.hexdigest "1:2:gemini-2.0-flash";
       AIMatchCache.job_id := Some 1;
       AIMatchCache.resume_id := Some 2;
       AIMatchCache.model_version := "gemini-2.0-flash";
       AIMatchCache.match_result_json := "{}";
       AIMatchCache.match_score := Some 90;
       AIMatchCache.api_latency_ms := None;
       AIMatchCache.created_at := 0;
       AIMatchCache.expires_at := None |} ].

(** An embedder and a serialiser to run the model with. *)
Definition sample_embedder (t : string) : result (list Q) :=
  Ok [inject_Z (len t) / 100; 1 # 4]%Q.

Definition sample_dumps (v : list Q) : string :=
  "[" ++ join ", "
           (map (fun x => str_of_int (Qnum x) ++ "/" ++ str_of_int (Zpos (Qden x))) v)
  ++ "]".

(** A hash of strings, two stored vectors read back, and an embedder whose
    model fails to load. *)
Definition sample_hash (w : string) : Z := 31 * len w + 7.

Definition sample_vector_loads (s : string) : option value :=
  if String.eqb s "[16/100, 1/4]"
  then Some (JList [JFloat (inject_Z 16 / 100); JFloat (1 # 4)])
  else if String.eqb s "[14/100, 1/4]"
  then Some (JList [JFloat (inject_Z 14 / 100); JFloat (1 # 4)])
  else None.


End samples.

(** ** Invariants of the loops, named for the proofs *)

Module invariants.

(** The state of a loop that appends to [out] what is not in [seen]: [out]
    has no repetition and [seen] is the set of its elements. *)
Definition seen_out (st : gset string * list string) : Prop :=
  NoDup (snd st) /\ (forall c, c ∈ fst st <-> In c (snd st)).

(** The constraints of the table [ai_match_cache]: [cache_key] is unique, and
    [job_id] and [resume_id] are not null. *)
Definition cache_constraints (db : ai_match_cache.table) : Prop :=
  NoDup (map ai_match_cache.AIMatchCache.cache_key db)
  /\ Forall (fun row =>
               is_Some (ai_match_cache.AIMatchCache.job_id row)
               /\ is_Some (ai_match_cache.AIMatchCache.resume_id row)) db.

(** A text whose only white space is single spaces between other
    characters; [prev] tells that the character before was a space, or that
    there was none. *)
Fixpoint clean_from (prev : bool) (l : list ascii) : bool :=
  match l with
  | [] => negb prev
  | c :: l' =>
      if py.is_space c
      then Ascii.eqb c " "%char && negb prev && clean_from true l'
      else clean_from false l'
  end.

Definition single_spaced (s : string) : Prop :=
  s = "" \/ clean_from true (py.chars s) = true.

(** The last character, when there is one, is no white space. *)
Definition ends_well (l : list ascii) : Prop :=
  forall h t, rev l = h :: t -> py.is_space h = false.

(** A kept skill: letters, digits, [+], [#], [.] and single spaces between
    them. *)
Definition tidy (s : string) : Prop :=
  single_spaced s
  /\ Forall (fun c => resume_parsing.noise_char c = false) (py.chars s).

(** Two texts with white space at the same places, and the same there. *)
Definition alike (c c' : ascii) : Prop :=
  py.is_space c' = py.is_space c
  /\ (py.is_space c = true -> c' = c)
  /\ resume_parsing.noise_char c' = resume_parsing.noise_char c
  /\ resume_parsing.token_char c' = resume_parsing.token_char c.

Definition same_spaces (l l' : list ascii) : Prop := Forall2 alike l l'.

(** Line indices that are at least [lo], increase strictly, and stay below
    [n]. *)
Fixpoint ascending (lo n : nat) (l : list (nat * string * string)) : Prop :=
  match l with
  | [] => (lo <= n)%nat
  | (i, _, _) :: rest => (lo <= i)%nat /\ ascending (S i) n rest
  end.

(** Line [i] is a heading of the section [canon], and [hline] is the line
    normalized. *)
Definition heading_at (lines : list string) (i : nat) (canon hline : string)
    : Prop :=
  exists line,
    lines !! i = Some line
    /\ resume_parsing._canonical_heading line = Some canon
    /\ hline = resume_parsing._normalize_line line.

(** A span lies within the lines, starts below a heading of its section,
    and its section is one of the three. *)
Definition span_ok (lines : list string) (canon : string)
    (sp : resume_parsing.section_span) : Prop :=
  In canon [ "skills"; "experience"; "education" ]
  /\ (1 <= resume_parsing.span_start sp <= resume_parsing.span_end sp)%nat
  /\ (resume_parsing.span_end sp <= List.length lines)%nat
  /\ heading_at lines (resume_parsing.span_start sp - 1) canon
                (resume_parsing.heading_line sp).

End invariants.

(* ================================================================= *)
(** * Part II: properties *)
(* ================================================================= *)

(** ** Floats *)

Section floats.

Import py.

Lemma Qltb_true (x y : Q) : Qltb x y = true <-> (x < y)%Q.
Proof.
  unfold Qltb. rewrite negb_true_iff, <- not_true_iff_false, Qle_bool_iff.
  split; [apply Qnot_le_lt | apply Qlt_not_le].
Qed.

Lemma Qltb_false (x y : Q) : Qltb x y = false <-> (y <= x)%Q.
Proof.
  unfold Qltb. rewrite negb_false_iff. apply Qle_bool_iff.
Qed.

Lemma float_or_zero_eq (x : Q) : (float_or_zero x == x)%Q.
Proof.
  unfold float_or_zero. destruct (Qeq_bool x 0) eqn:E; [|reflexivity].
  apply Qeq_bool_iff in E. now rewrite E.
Qed.

Lemma Qmin_spec (x y : Q) :
  ((x <= y)%Q /\ Qmin x y = x) \/ ((y < x)%Q /\ Qmin x y = y).
Proof.
  unfold Qmin. destruct (Qle_bool x y) eqn:E.
  - left. split; [now apply Qle_bool_iff | reflexivity].
  - right. split; [|reflexivity].
    apply Qnot_le_lt. intros H. apply Qle_bool_iff in H. congruence.
Qed.

Lemma Qmax_spec (x y : Q) :
  ((x <= y)%Q /\ Qmax x y = y) \/ ((y < x)%Q /\ Qmax x y = x).
Proof.
  unfold Qmax. destruct (Qle_bool x y) eqn:E.
  - left. split; [now apply Qle_bool_iff | reflexivity].
  - right. split; [|reflexivity].
    apply Qnot_le_lt. intros H. apply Qle_bool_iff in H. congruence.
Qed.

(** [round] does not see the representation of its argument. *)
Lemma round_comp (x y : Q) : (x == y)%Q -> round x = round y.
Proof.
  intros E. unfold round.
  rewrite (Qfloor_comp _ _ E).
  assert (Ec : ((x - inject_Z (Qfloor y)) ?= 1 # 2)%Q
               = ((y - inject_Z (Qfloor y)) ?= 1 # 2)%Q).
  { apply Qcompare_comp; [now rewrite E | reflexivity]. }
  now rewrite Ec.
Qed.

Lemma round_bounds (lo hi : Z) (x : Q) :
  (inject_Z lo <= x)%Q -> (x <= inject_Z hi)%Q -> lo <= round x <= hi.
Proof.
  intros Hlo Hhi.
  assert (Hf1 : lo <= Qfloor x).
  { rewrite <- (Qfloor_Z lo). now apply Qfloor_resp_le. }
  assert (Hf2 : Qfloor x <= hi).
  { rewrite <- (Qfloor_Z hi). now apply Qfloor_resp_le. }
  unfold round. cbv zeta.
  destruct (Z.eq_dec (Qfloor x) hi) as [E|NE].
  - assert (Hx : Qcompare (x - inject_Z (Qfloor x)) (1 # 2) = Lt).
    { rewrite <- Qlt_alt, E. lra. }
    rewrite Hx. lia.
  - destruct (Qcompare _ _); [destruct (Z.even _)| |]; lia.
Qed.

End floats.

(** ** The final score *)

Section final_score_properties.

Import py scoring_engine spec steps.

Lemma clamp_steps_clamp01 (x : Q) : (clamp_steps x == clamp01 x)%Q.
Proof.
  unfold clamp_steps, clamp01.
  pose proof (float_or_zero_eq x) as E.
  destruct (Qmin_spec 1 x) as [[H1 ->]|[H1 ->]];
    [destruct (Qmax_spec 0 1) as [[H2 ->]|[H2 ->]]
    |destruct (Qmax_spec 0 x) as [[H2 ->]|[H2 ->]]];
    destruct (Qltb (float_or_zero x) 0) eqn:A;
    try (apply Qltb_true in A); try (apply Qltb_false in A);
    match goal with
    | |- context [Qltb 1 ?y] =>
        destruct (Qltb 1 y) eqn:B;
        try (apply Qltb_true in B); try (apply Qltb_false in B)
    end; lra.
Qed.

Lemma clamp01_range (x : Q) : (0 <= clamp01 x <= 1)%Q.
Proof.
  unfold clamp01.
  destruct (Qmin_spec 1 x) as [[H1 ->]|[H1 ->]];
    [destruct (Qmax_spec 0 1) as [[H2 ->]|[H2 ->]]
    |destruct (Qmax_spec 0 x) as [[H2 ->]|[H2 ->]]]; lra.
Qed.

Lemma compute_final_score_unfold (s k e d a : Q) :
  compute_final_score s k e d a
  = let out :=
      round (100 * (0.10 * clamp_steps s + 0.20 * clamp_steps k
                    + 0.15 * clamp_steps e + 0.10 * clamp_steps d
                    + 0.45 * clamp_steps a))%Q in
    if out <? 0 then 0 else if 100 <? out then 100 else out.
Proof. reflexivity. Qed.

Lemma weighted_range (s k e d a : Q) :
  (0 <= weighted (clamp01 s) (clamp01 k) (clamp01 e) (clamp01 d) (clamp01 a) <= 100)%Q.
Proof.
  unfold weighted.
  pose proof (clamp01_range s). pose proof (clamp01_range k).
  pose proof (clamp01_range e). pose proof (clamp01_range d).
  pose proof (clamp01_range a). lra.
Qed.

(** The rounded blend is within range before the last clamp, which
    therefore never changes it. *)
Lemma compute_final_score_round (s k e d a : Q) :
  compute_final_score s k e d a
  = round (weighted (clamp01 s) (clamp01 k) (clamp01 e) (clamp01 d) (clamp01 a)).
Proof.
  rewrite compute_final_score_unfold. cbv zeta.
  rewrite (round_comp _ (weighted (clamp01 s) (clamp01 k) (clamp01 e)
                                  (clamp01 d) (clamp01 a))).
  2:{ unfold weighted. rewrite !clamp_steps_clamp01. ring. }
  pose proof (weighted_range s k e d a) as [Hlo Hhi].
  pose proof (round_bounds 0 100 _ Hlo Hhi) as Hr.
  destruct (Z.ltb_spec (round (weighted (clamp01 s) (clamp01 k) (clamp01 e)
                                        (clamp01 d) (clamp01 a))) 0); [lia|].
  destruct (Z.ltb_spec 100 (round (weighted (clamp01 s) (clamp01 k) (clamp01 e)
                                            (clamp01 d) (clamp01 a)))); lia.
Qed.

End final_score_properties.

Section final_score_claims.

Import py json scoring_engine spec.



(** The adversarial inputs the specification names: a negative semantic
    score, and an AI percentage of 150 (which counts as 100). *)
Example final_score_adversarial :
  compute_final_score (-7) 0.5 0.5 0.5 0.5 = 45
  /\ compute_final_score 1 1 1 1 (inject_Z (Z.max 0 (Z.min 100 150)) / 100) = 100
  /\ compute_final_score 12 (-3) 40 (-1) 9 = 70.
Proof. repeat split; vm_compute; reflexivity. Qed.

(** The worked example of the specification does not give 58. *)
Lemma C3_worked_example_is_not_58 :
  compute_final_score 0.8 0.667 0.5 0.3 (inject_Z (Z.max 0 (Z.min 100 88)) / 100)
  <> 58.
Proof. vm_compute. discriminate. Qed.

(** C3 (amended): for [ai_relevance_pct = 88], [skills_score = 0.667],
    [experience_score = 0.5], [education_score = 0.3] and
    [semantic_score = 0.8] the blend is [100 * 0.7144 = 71.44] and the final
    score is 71. *)
Theorem C3_worked_example :
  (weighted 0.8 0.667 0.5 0.3 (88 / 100) == 71.44)%Q
  /\ round 71.44 = 71
  /\ compute_final_score 0.8 0.667 0.5 0.3
       (inject_Z (Z.max 0 (Z.min 100 88)) / 100) = 71.
Proof. repeat split; vm_compute; reflexivity. Qed.

End final_score_claims.

(** ** Skills overlap *)

Section skills_overlap_properties.

Import py json scoring_engine spec steps.

Lemma clamp_ifs_clamp01 (x y : Q) : (x == y)%Q -> (clamp_ifs x == clamp01 y)%Q.
Proof.
  intros E. unfold clamp_ifs, clamp01.
  destruct (Qmin_spec 1 y) as [[H1 ->]|[H1 ->]];
    [destruct (Qmax_spec 0 1) as [[H2 ->]|[H2 ->]]
    |destruct (Qmax_spec 0 y) as [[H2 ->]|[H2 ->]]];
    destruct (Qltb x 0) eqn:A;
    try (apply Qltb_true in A); try (apply Qltb_false in A);
    match goal with
    | |- context [Qltb 1 ?z] =>
        destruct (Qltb 1 z) eqn:B;
        try (apply Qltb_true in B); try (apply Qltb_false in B)
    end; lra.
Qed.

(** On non-negative rates the code's formula is the harmonic mean. *)
Lemma f1_steps_harmonic (p r p' r' : Q) :
  (p == p')%Q -> (r == r')%Q -> (0 <= p)%Q -> (0 <= r)%Q ->
  (f1_steps p r == harmonic_mean p' r')%Q.
Proof.
  intros Ep Er Hp Hr. unfold f1_steps, harmonic_mean.
  destruct (Qle_bool (p + r) 0) eqn:S.
  - apply Qle_bool_iff in S.
    assert (Hp0 : (p' <= 0)%Q) by lra.
    apply Qle_bool_iff in Hp0. now rewrite Hp0.
  - assert (S' : (0 < p + r)%Q).
    { apply Qnot_le_lt. intros H. apply Qle_bool_iff in H. congruence. }
    destruct (Qle_bool p' 0) eqn:A; [|destruct (Qle_bool r' 0) eqn:B]; cbn [orb].
    + apply Qle_bool_iff in A.
      assert (E0 : (p == 0)%Q) by lra.
      rewrite E0. field. lra.
    + apply Qle_bool_iff in B.
      assert (E0 : (r == 0)%Q) by lra.
      rewrite E0. field. lra.
    + assert (A' : (0 < p')%Q).
      { apply Qnot_le_lt. intros H. apply Qle_bool_iff in H. congruence. }
      assert (B' : (0 < r')%Q).
      { apply Qnot_le_lt. intros H. apply Qle_bool_iff in H. congruence. }
      rewrite Ep, Er. field. repeat split; lra.
Qed.

Lemma Qlen_nonneg {A} (l : list A) : (0 <= Qlen l)%Q.
Proof.
  unfold Qlen. rewrite <- (Zle_Qle 0). lia.
Qed.

Lemma Qmax_1_pos (n : nat) :
  (0 < n)%nat -> (Qmax 1 (inject_Z (Z.of_nat n)) == inject_Z (Z.of_nat n))%Q.
Proof.
  intros Hn.
  assert (H1 : (1 <= inject_Z (Z.of_nat n))%Q).
  { rewrite <- (Zle_Qle 1). lia. }
  destruct (Qmax_spec 1 (inject_Z (Z.of_nat n))) as [[_ ->]|[H2 ->]]; lra.
Qed.

Lemma Qdiv_nonneg (x y : Q) : (0 <= x)%Q -> (0 < y)%Q -> (0 <= x / y)%Q.
Proof.
  intros Hx Hy. apply Qle_shift_div_l; [exact Hy|]. lra.
Qed.

Lemma Qdiv_eq_0 (x y : Q) : (0 < y)%Q -> (x / y == 0)%Q <-> (x == 0)%Q.
Proof.
  intros Hy. split; intros H.
  - assert (E : (x == x / y * y)%Q) by (field; lra).
    rewrite E, H. ring.
  - rewrite H. field. lra.
Qed.

(** No job token is found in an empty set of resume tokens. *)
Lemma filter_elem_of_empty (rs : gset string) (l : list string) :
  rs = ∅ -> filter (fun j => j ∈ rs) l = [].
Proof.
  intros ->. induction l as [|a l IH]; [reflexivity|].
  rewrite filter_cons_False; [exact IH|]. apply not_elem_of_empty.
Qed.

End skills_overlap_properties.

Section skills_overlap_claims.

Import py json scoring_engine spec steps.

(** C4: for a non-empty list of job tokens, [skills_overlap_score] returns
    the harmonic mean (F1) of recall = |matched| / |job tokens| and
    precision = |matched| / |resume tokens| (0 when there is no resume
    token), clamped to [0,1], with the first 12 matched and the first 8
    missing job tokens.  The two rates are 0 together, and then the score
    is 0.  |resume tokens| counts the distinct tokens, as the set [rs] of
    the code does; it is the length of a list without repetitions.  For the job tokens python, fastapi, sql and the resume
    tokens python, fastapi, aws the result is 2/3 with python and fastapi
    matched and sql missing. *)
Theorem C4_skills_overlap_f1 :
  (forall resume_skills job_skills : list string,
     job_skills <> [] ->
     let rs : gset string := list_to_set resume_skills in
     let matched := filter (fun j => j ∈ rs) job_skills in
     let missing := filter (fun j => j ∉ rs) job_skills in
     let recall := (Qlen matched / Qlen job_skills)%Q in
     let precision :=
       if bool_decide (size rs = 0%nat) then 0%Q
       else (Qlen matched / inject_Z (Z.of_nat (size rs)))%Q in
     let '(score, shown_matched, shown_missing) :=
       skills_overlap_score resume_skills job_skills in
     (score == clamp01 (harmonic_mean precision recall))%Q
     /\ (0 <= score <= 1)%Q
     /\ shown_matched = firstn 12 matched
     /\ shown_missing = firstn 8 missing
     /\ (List.length shown_matched <= 12)%nat
     /\ (List.length shown_missing <= 8)%nat
     /\ ((precision == 0)%Q <-> (recall == 0)%Q)
     /\ (NoDup resume_skills -> size rs = List.length resume_skills))
  /\ (let '(score, shown_matched, shown_missing) :=
        skills_overlap_score ["python"; "fastapi"; "aws"]
                             ["python"; "fastapi"; "sql"] in
      (score == 2 # 3)%Q
      /\ shown_matched = ["python"; "fastapi"]
      /\ shown_missing = ["sql"]).
Proof.
  split; [|vm_compute; repeat split; reflexivity].
  intros resume_skills job_skills Hne. cbv zeta.
  unfold skills_overlap_score.
  destruct job_skills as [|j0 js0]; [contradiction|].
  set (js := j0 :: js0).
  set (rs := list_to_set resume_skills : gset string).
  set (matched := filter (fun j => j ∈ rs) js).
  set (missing := filter (fun j => j ∉ rs) js).
  fold (f1_steps
          (if bool_decide (rs = ∅) then 0%Q
           else (Qlen matched / Qmax 1 (inject_Z (Z.of_nat (size rs))))%Q)
          (Qlen matched / Qmax 1 (Qlen js))%Q).
  match goal with
  | |- context [f1_steps ?p ?r] => set (pc := p); set (rc := r)
  end.
  fold (clamp_ifs (f1_steps pc rc)).
  assert (Hjs : (0 < List.length js)%nat) by (subst js; cbn; lia).
  assert (Er : (rc == Qlen matched / Qlen js)%Q).
  { subst rc. unfold Qlen at 2 3. now rewrite (Qmax_1_pos _ Hjs). }
  assert (Hr : (0 <= rc)%Q).
  { rewrite Er. apply Qdiv_nonneg; [apply Qlen_nonneg|].
    unfold Qlen. rewrite <- (Zlt_Qlt 0). lia. }
  assert (Ep : (pc == if bool_decide (size rs = 0%nat) then 0%Q
                      else Qlen matched / inject_Z (Z.of_nat (size rs)))%Q
               /\ (0 <= pc)%Q).
  { subst pc. destruct (decide (rs = ∅)) as [E0|N0].
    - rewrite (bool_decide_eq_true_2 _ E0).
      rewrite bool_decide_eq_true_2; [split; [reflexivity|lra]|].
      now rewrite E0, size_empty.
    - rewrite (bool_decide_eq_false_2 _ N0).
      assert (Hs : (0 < size rs)%nat).
      { destruct (size rs) eqn:Es; [|lia].
        exfalso. apply N0. now apply size_empty_inv, leibniz_equiv in Es. }
      rewrite bool_decide_eq_false_2 by lia.
      rewrite (Qmax_1_pos _ Hs). split; [reflexivity|].
      apply Qdiv_nonneg; [apply Qlen_nonneg|].
      rewrite <- (Zlt_Qlt 0). lia. }
  destruct Ep as [Ep Hp].
  pose proof (clamp_ifs_clamp01 _ _ (f1_steps_harmonic _ _ _ _ Ep Er Hp Hr)) as Hs.
  split; [exact Hs|].
  split; [rewrite Hs; apply clamp01_range|].
  split; [reflexivity|]. split; [reflexivity|].
  split; [apply firstn_le_length|]. split; [apply firstn_le_length|].
  split; [|intros Hnd; subst rs; now apply size_list_to_set].
  assert (Hj : (0 < Qlen js)%Q).
  { unfold Qlen. rewrite <- (Zlt_Qlt 0). lia. }
  rewrite (Qdiv_eq_0 _ _ Hj).
  destruct (decide (size rs = 0%nat)) as [E0|N0].
  - rewrite (bool_decide_eq_true_2 _ E0).
    apply size_empty_inv, leibniz_equiv in E0.
    subst matched. rewrite (filter_elem_of_empty rs js E0).
    split; reflexivity.
  - rewrite (bool_decide_eq_false_2 _ N0).
    apply Qdiv_eq_0. rewrite <- (Zlt_Qlt 0). lia.
Qed.

(** The specification's example, obtained from the general statement. *)
Lemma C4_skills_overlap_witness :
  let '(score, shown_matched, shown_missing) :=
    skills_overlap_score ["python"; "fastapi"; "aws"]
                         ["python"; "fastapi"; "sql"] in
  (0 <= score <= 1)%Q
  /\ (List.length shown_matched <= 12)%nat
  /\ (List.length shown_missing <= 8)%nat.
Proof.
  pose proof (proj1 C4_skills_overlap_f1
                ["python"; "fastapi"; "aws"] ["python"; "fastapi"; "sql"]) as H.
  cbv zeta in H.
  destruct (skills_overlap_score _ _) as [[score ms] mi].
  destruct H as (_ & H1 & _ & _ & H2 & H3 & _ & _); [discriminate|].
  exact (conj H1 (conj H2 H3)).
Defined.

End skills_overlap_claims.

(** ** The AI match cache *)

Section cache_key_claims.

Import py json ai_match_cache.

Lemma hex_word_length (n : nat) (x : N) : List.length (sha256.hex_word n x) = n.
Proof. induction n as [|n IH]; cbn; [reflexivity|now rewrite IH]. Qed.

Lemma length_string_of_list_ascii (l : list ascii) :
  String.length (string_of_list_ascii l) = List.length l.
Proof. induction l as [|c l IH]; cbn; [reflexivity|now rewrite IH]. Qed.

(** A digest is 64 hexadecimal characters, so its first 32 are half of it. *)
Lemma hexdigest_length (s : string) : String.length (sha256.hexdigest s) = 64%nat.
Proof.
  unfold sha256.hexdigest, sha256.hexdigest_bytes, sha256.digest_words.
  destruct (fold_left _ _ _) as [[[[[[[a b] c] d] e] f] g] h].
  rewrite length_string_of_list_ascii.
  cbn [flat_map]. rewrite !length_app, !hex_word_length. reflexivity.
Qed.

(** With the texts "a" and "b" and the model "m", the key is not the hash
    of the two full digests and the model. *)
Lemma C5_key_is_not_of_full_digests :
  _generate_cache_key "gemini-2.0-flash" None None (Some "a") (Some "b") (Some "m")
  <> Ok (sha256.hexdigest
           (sha256.hexdigest "a" ++ ":" ++ sha256.hexdigest "b" ++ ":" ++ "m")).
Proof. vm_compute. intros H. discriminate H. Qed.

(** C5 (amended): with both ids the key is the SHA-256 of
    "{job_id}:{resume_id}:{model}"; otherwise, with both texts, it is the
    SHA-256 of the first 32 hexadecimal characters of the digest of the job
    text, the first 32 of the digest of the resume text and the model name,
    joined by ":"; each digest has 64 characters.  The model name is the
    configured one when none is given. *)
Theorem C5_generate_cache_key :
  forall (GEMINI_MODEL : string) (model_version : option string),
    let model := model_or_default GEMINI_MODEL model_version in
    (forall (j r : Z) (job_text resume_text : option string),
        _generate_cache_key GEMINI_MODEL (Some j) (Some r) job_text resume_text
                            model_version
        = Ok (sha256.hexdigest (str_of_int j ++ ":" ++ str_of_int r ++ ":" ++ model)))
    /\ (forall (job_id resume_id : option Z) (job_text resume_text : string),
          let key :=
            Ok (sha256.hexdigest
                  (substring 0 32 (sha256.hexdigest job_text) ++ ":"
                   ++ substring 0 32 (sha256.hexdigest resume_text) ++ ":"
                   ++ model)) in
          _generate_cache_key GEMINI_MODEL None resume_id
                              (Some job_text) (Some resume_text) model_version = key
          /\ _generate_cache_key GEMINI_MODEL job_id None
                                 (Some job_text) (Some resume_text) model_version = key
          /\ String.length (sha256.hexdigest job_text) = 64%nat
          /\ String.length (sha256.hexdigest resume_text) = 64%nat).
Proof.
  intros G mv model. split.
  - reflexivity.
  - intros jid rid jt rt key. split; [|split; [|split]].
    + reflexivity.
    + destruct jid; reflexivity.
    + apply hexdigest_length.
    + apply hexdigest_length.
Qed.

End cache_key_claims.

Section cache_write_claims.

Import py json ai_match_cache.

Variable GEMINI_MODEL : string.
Variable json_dumps : value -> option string.

Lemma first_with_key_in (db : table) (key : string) :
  (exists row, In row db /\ AIMatchCache.cache_key row = key) ->
  exists row, first_with_key db key = Some row.
Proof.
  intros (row & Hin & Hk). unfold first_with_key.
  destruct (find _ db) as [r|] eqn:F; [now exists r|].
  pose proof (find_none _ _ F row Hin) as H. cbn in H.
  rewrite Hk, String.eqb_refl in H. discriminate.
Qed.

Lemma first_with_key_key (db : table) (key : string) (row : AIMatchCache.t) :
  first_with_key db key = Some row ->
  In row db /\ AIMatchCache.cache_key row = key.
Proof.
  intros F. apply find_some in F. destruct F as [Hin Hk].
  split; [exact Hin|]. now apply String.eqb_eq.
Qed.

(** A write that reports success leaves a row under its key. *)
Lemma cache_match_result_stores
    (now : Z) (db db' : table) (match_result : value)
    (job_id resume_id : option Z) (job_text resume_text : option string)
    (api_latency_ms : option Z) (model_version : option string) (key : string) :
  _generate_cache_key GEMINI_MODEL job_id resume_id job_text resume_text
                      model_version = Ok key ->
  cache_match_result GEMINI_MODEL json_dumps now db match_result job_id resume_id
                     job_text resume_text api_latency_ms model_version
  = (db', true) ->
  exists row, In row db' /\ AIMatchCache.cache_key row = key.
Proof.
  intros Hk. unfold cache_match_result. rewrite Hk.
  destruct (first_with_key db key) as [existing|] eqn:F.
  - intros [= <-]. exists existing. now apply first_with_key_key.
  - unfold new_entry.
    destruct (json_dumps match_result) as [text|]; [|discriminate].
    destruct (get "score" match_result) as [score|]; [|discriminate].
    cbn [mbind result_bind bind].
    unfold commit_insert. cbn [AIMatchCache.job_id AIMatchCache.resume_id
                               AIMatchCache.cache_key].
    destruct job_id; [|discriminate]. destruct resume_id; [|discriminate].
    rewrite F. intros [= <-].
    eexists. split; [apply in_or_app; right; left; reflexivity|reflexivity].
Qed.

(** An existing row makes the write a no-op that reports success. *)
Lemma cache_match_result_existing
    (now : Z) (db : table) (match_result : value)
    (job_id resume_id : option Z) (job_text resume_text : option string)
    (api_latency_ms : option Z) (model_version : option string) (key : string) :
  _generate_cache_key GEMINI_MODEL job_id resume_id job_text resume_text
                      model_version = Ok key ->
  (exists row, In row db /\ AIMatchCache.cache_key row = key) ->
  cache_match_result GEMINI_MODEL json_dumps now db match_result job_id resume_id
                     job_text resume_text api_latency_ms model_version
  = (db, true).
Proof.
  intros Hk Hex. unfold cache_match_result. rewrite Hk.
  destruct (first_with_key_in db key Hex) as [row ->]. reflexivity.
Qed.

End cache_write_claims.

Section cache_idempotence_claims.

Import py json ai_match_cache samples.

(** C6: when the table holds a row under the computed key,
    [cache_match_result] returns [True] and leaves the table as it is,
    whatever result it is given; hence after a write that succeeded, a
    second write for the same job, resume and model, with any other result,
    changes nothing: the row stored under the key and what
    [get_cached_match] reads stay the same. *)
Theorem C6_cache_write_idempotent :
  forall (GEMINI_MODEL : string) (json_dumps : value -> option string)
         (job_id resume_id : option Z) (job_text resume_text : option string)
         (model_version : option string) (key : string),
    _generate_cache_key GEMINI_MODEL job_id resume_id job_text resume_text
                        model_version = Ok key ->
    let put now db match_result api_latency_ms :=
      cache_match_result GEMINI_MODEL json_dumps now db match_result job_id
                         resume_id job_text resume_text api_latency_ms
                         model_version in
    (forall now db match_result api_latency_ms,
        (exists row, In row db /\ AIMatchCache.cache_key row = key) ->
        put now db match_result api_latency_ms = (db, true))
    /\ (forall now1 now2 db db1 result1 result2 latency1 latency2,
          put now1 db result1 latency1 = (db1, true) ->
          put now2 db1 result2 latency2 = (db1, true)
          /\ first_with_key (fst (put now2 db1 result2 latency2)) key
             = first_with_key db1 key
          /\ forall json_loads now,
               get_cached_match GEMINI_MODEL json_loads now
                 (fst (put now2 db1 result2 latency2))
                 job_id resume_id job_text resume_text model_version
               = get_cached_match GEMINI_MODEL json_loads now db1
                   job_id resume_id job_text resume_text model_version).
Proof.
  intros G jd jid rid jt rt mv key Hk put.
  assert (P1 : forall now db match_result api_latency_ms,
             (exists row, In row db /\ AIMatchCache.cache_key row = key) ->
             put now db match_result api_latency_ms = (db, true)).
  { intros. subst put. cbv beta. now apply cache_match_result_existing with key. }
  split; [exact P1|].
  intros now1 now2 db db1 r1 r2 l1 l2 H1.
  assert (Hex : exists row, In row db1 /\ AIMatchCache.cache_key row = key).
  { subst put. cbv beta in H1.
    now apply (cache_match_result_stores G jd now1 db db1 r1 jid rid jt rt l1 mv). }
  rewrite (P1 now2 db1 r2 l2 Hex). cbn [fst].
  split; [reflexivity|]. split; reflexivity.
Qed.

Lemma C6_cache_write_witness :
  cache_match_result "gemini-2.0-flash" (fun _ => Some "{}") 7 sample_cache
    (JDict [("score", JInt 10)]) (Some 1) (Some 2) None None (Some 120) None
  = (sample_cache, true).
Proof.
  refine (proj1 (C6_cache_write_idempotent "gemini-2.0-flash" (fun _ => Some "{}")
                   (Some 1) (Some 2) None None None
                   (sha256.hexdigest "1:2:gemini-2.0-flash") _)
                7 sample_cache (JDict [("score", JInt 10)]) (Some 120) _).
  - reflexivity.
  - eexists. split; [left; reflexivity|reflexivity].
Defined.

End cache_idempotence_claims.

(** ** The embedding cache *)

Section latest_row.

Import py embeddings.

Variable p : Embedding.t -> bool.

Lemma latest_from_spec (rows : table) :
  forall (i : nat) (best : option (nat * Embedding.t)),
    match latest_from p i rows best with
    | Some (j, r) =>
        best = Some (j, r)
        \/ exists k, j = (i + k)%nat /\ rows !! k = Some r /\ p r = true
    | None => best = None /\ List.filter p rows = []
    end.
Proof.
  induction rows as [|row rows IH]; intros i best; cbn [latest_from].
  - destruct best as [[j r]|]; [left; reflexivity|split; reflexivity].
  - match goal with |- context [latest_from p (S i) rows ?b] => set (best' := b) end.
    specialize (IH (S i) best').
    destruct (latest_from p (S i) rows best') as [[j r]|].
    + destruct IH as [E|(k & -> & Hk & Hp)].
      * subst best'. destruct (p row) eqn:Pr; [|left; exact E].
        destruct best as [[j0 b]|].
        -- destruct (Embedding.updated_at b <? Embedding.updated_at row);
             [|left; exact E].
           injection E as <- <-. right. exists 0%nat.
           split; [lia|]. split; [reflexivity|exact Pr].
        -- injection E as <- <-. right. exists 0%nat.
           split; [lia|]. split; [reflexivity|exact Pr].
      * right. exists (S k). split; [lia|]. split; [exact Hk|exact Hp].
    + destruct IH as [E F]. subst best'.
      destruct (p row) eqn:Pr.
      * destruct best as [[j0 b]|]; [|discriminate].
        destruct (Embedding.updated_at b <? Embedding.updated_at row); discriminate.
      * split; [exact E|]. cbn [List.filter]. rewrite Pr. exact F.
Qed.

Lemma filter_nonempty_lookup (rows : table) (k : nat) (r : Embedding.t) :
  rows !! k = Some r -> p r = true -> (1 <= List.length (List.filter p rows))%nat.
Proof.
  revert k. induction rows as [|x rows IH]; intros k Hk Hp; [discriminate|].
  cbn [List.filter]. destruct k as [|k].
  - injection Hk as ->. rewrite Hp. cbn. lia.
  - specialize (IH k Hk Hp). destruct (p x); cbn; lia.
Qed.




End latest_row.

Section embedding_cache.

Import py embeddings.

Variable EMBEDDINGS_ENABLED : bool.
Variable EMBEDDINGS_MODEL : string.
Variable embedder : string -> result (list Q).
Variable json_dumps : list Q -> string.

(** [json.dumps] of a list is never the empty string. *)
Hypothesis json_dumps_nonempty : forall v, nonempty (json_dumps v) = true.

Abbreviation goc :=
  (get_or_create_embedding EMBEDDINGS_ENABLED EMBEDDINGS_MODEL embedder json_dumps).
Abbreviation embed := (embed_text EMBEDDINGS_ENABLED embedder).
Abbreviation model_of := (model_or_default EMBEDDINGS_MODEL).
Abbreviation rewritten := (embeddings.rewritten json_dumps).
Abbreviation created := (embeddings.created json_dumps).
Abbreviation outcome :=
  (embeddings.outcome EMBEDDINGS_ENABLED EMBEDDINGS_MODEL embedder json_dumps).


Lemma get_or_create_embedding_outcome
    (now : Z) (db db' : table) (et : string) (eid : Z) (text : string)
    (model : option string) (res : option Embedding.t) :
  goc now db et eid text model = Ok (db', res) ->
  outcome now db et eid text model db' res.
Proof.
  unfold get_or_create_embedding.
  destruct (negb EMBEDDINGS_ENABLED) eqn:En; [intros [= <- <-]; constructor|].
  apply negb_false_iff in En.
  destruct (nonempty (normalize_text text)) eqn:Hn; cbn [negb];
    [|intros [= <- <-]; constructor].
  pose proof (latest_from_spec (of_key et eid (model_of model)) db 0 None) as L.
  fold (latest db et eid (model_of model)) in L.
  destruct (latest db et eid (model_of model)) as [[i r]|] eqn:Lt.
  - destruct L as [L|(k & Ek & Hk & Hp)]; [discriminate|].
    cbn [Nat.add] in Ek. subst k.
    destruct (String.eqb _ _ && nonempty _) eqn:C.
    + intros [= <- <-]. apply andb_true_iff in C. destruct C as [C1 C2].
      apply String.eqb_eq in C1. now apply reused with i.
    + destruct (embed (normalize_text text)) as [v|e] eqn:Ev; [|discriminate].
      cbn [mbind result_bind bind].
      destruct v as [|x v]; [intros [= <- <-]; constructor|].
      intros [= <- <-]. now apply updated.
  - destruct L as [_ F].
    destruct (embed (normalize_text text)) as [v|e] eqn:Ev; [|discriminate].
    cbn [andb mbind result_bind bind].
    destruct v as [|x v]; [intros [= <- <-]; constructor|].
    intros [= <- <-]. now apply inserted.
Qed.









End embedding_cache.

Section embedding_cache_example.

Import py embeddings samples.


End embedding_cache_example.

(** ** Cosine similarity *)

Section cosine_properties.

Import py semantic_similarity spec.

Lemma norm_sq_nonneg (v : list Q) : (0 <= norm_sq v)%Q.
Proof.
  induction v as [|x v IH]; [cbn; lra|].
  change (norm_sq (x :: v)) with (x * x + norm_sq v)%Q.
  assert (Hx : (0 <= x * x)%Q) by nra. lra.
Qed.

(** The loop over [zip(a, b)] adds the squared norms of both vectors when
    they have the same length. *)
Lemma accumulate_norms (a : list Q) :
  forall (b : list Q) (dot na nb : Q),
    List.length a = List.length b ->
    let '(_, na', nb') := fold_left accumulate (combine a b) (dot, na, nb) in
    (na' == na + norm_sq a)%Q /\ (nb' == nb + norm_sq b)%Q.
Proof.
  induction a as [|x a IH]; intros [|y b] dot na nb Hlen; try discriminate.
  - cbn. split; ring.
  - cbn [combine fold_left accumulate norm_sq fold_right].
    injection Hlen as Hlen.
    specialize (IH b (dot + x * y)%Q (na + x * x)%Q (nb + y * y)%Q Hlen).
    destruct (fold_left accumulate (combine a b) _) as [[d na'] nb'].
    destruct IH as [Ha Hb]. split.
    + rewrite Ha. unfold norm_sq. ring.
    + rewrite Hb. unfold norm_sq. ring.
Qed.

Lemma newton_pos (n : nat) (x : Q) :
  (0 < x)%Q -> forall y, (0 < y)%Q -> (0 < newton n x y)%Q.
Proof.
  intros Hx. induction n as [|n IH]; intros y Hy; cbn [newton]; [exact Hy|].
  apply IH. rewrite Qred_correct.
  assert (Hd : (0 < x / y)%Q) by (apply Qlt_shift_div_l; [exact Hy|lra]).
  generalize dependent (x / y)%Q. intros z Hz.
  apply Qlt_shift_div_l; lra.
Qed.

Lemma sqrt_newton_pos (x : Q) : (0 < x)%Q -> (0 < sqrt_newton x)%Q.
Proof.
  intros Hx. unfold sqrt_newton. apply newton_pos; [exact Hx|].
  rewrite Qred_correct. apply Qlt_shift_div_l; lra.
Qed.

Section with_sqrt.

Variable sqrt : Q -> Q.

(** [math.sqrt] of a positive float is positive. *)
Hypothesis sqrt_pos : forall x, (0 < x)%Q -> (0 < sqrt x)%Q.

(** C8: [cosine_similarity] returns 0.0 when a vector is empty, when the
    lengths differ, and when a vector has zero norm; in every case it
    returns a float: the division by the product of the norms is not
    reached with a zero divisor. *)
Theorem C8_cosine_similarity_guards :
  forall a b : list Q,
    (a = [] \/ b = [] \/ List.length a <> List.length b
     \/ (norm_sq a == 0)%Q \/ (norm_sq b == 0)%Q ->
     cosine_similarity sqrt a b = Ok 0%Q)
    /\ exists q, cosine_similarity sqrt a b = Ok q.
Proof.
  intros a b.
  destruct a as [|x a]; [split; [reflexivity|now exists 0%Q]|].
  destruct b as [|y b]; [split; [reflexivity|now exists 0%Q]|].
  unfold cosine_similarity.
  destruct (Nat.eqb_spec (List.length (x :: a)) (List.length (y :: b))) as [Hlen|Hlen];
    cbn [negb]; [|split; [reflexivity|now exists 0%Q]].
  pose proof (accumulate_norms (x :: a) (y :: b) 0 0 0 Hlen) as Hn.
  destruct (fold_left accumulate (combine (x :: a) (y :: b)) _) as [[dot na] nb].
  destruct Hn as [Ha Hb].
  pose proof (norm_sq_nonneg (x :: a)) as Pa.
  pose proof (norm_sq_nonneg (y :: b)) as Pb.
  destruct (Qle_bool na 0) eqn:Ea; [split; [reflexivity|now exists 0%Q]|].
  destruct (Qle_bool nb 0) eqn:Eb; [split; [reflexivity|now exists 0%Q]|].
  cbn [orb].
  assert (Hna : (0 < na)%Q).
  { apply Qnot_le_lt. intros H. apply Qle_bool_iff in H. congruence. }
  assert (Hnb : (0 < nb)%Q).
  { apply Qnot_le_lt. intros H. apply Qle_bool_iff in H. congruence. }
  split.
  - intros [H|[H|[H|[H|H]]]]; try discriminate; try contradiction; exfalso; lra.
  - unfold float_div.
    assert (Hp : (0 < sqrt na * sqrt nb)%Q).
    { apply Qmult_lt_0_compat; apply sqrt_pos; assumption. }
    destruct (Qeq_bool (sqrt na * sqrt nb) 0) eqn:E.
    + apply Qeq_bool_iff in E. exfalso. lra.
    + eexists. reflexivity.
Qed.

End with_sqrt.

Lemma C8_cosine_similarity_witness :
  cosine_similarity sqrt_newton [1; 2]%Q [0; 0]%Q = Ok 0%Q
  /\ exists q, cosine_similarity sqrt_newton [3; 4]%Q [4; 3]%Q = Ok q.
Proof.
  split.
  - apply (proj1 (C8_cosine_similarity_guards sqrt_newton sqrt_newton_pos
                    [1; 2]%Q [0; 0]%Q)).
    right. right. right. right. reflexivity.
  - apply (proj2 (C8_cosine_similarity_guards sqrt_newton sqrt_newton_pos
                    [3; 4]%Q [4; 3]%Q)).
Defined.

End cosine_properties.

(** ** Skill normalisation *)

Section normalize_skills_properties.

Import py resume_parsing spec.

(** The loop of [normalize_skills] keeps, in order, the forms whose
    lowercase key was not met before. *)
Lemma normalize_loop_dedup (items : list string) :
  forall (seen : gset string) (seen_l out : list string),
    (forall k, k ∈ seen <-> In k seen_l) ->
    snd (fold_left step items (seen, out))
    = (out ++ dedup_ci seen_l (map case_form (omap clean_item items)))%list.
Proof.
  induction items as [|raw items IH]; intros seen seen_l out Hs.
  - cbn. now rewrite app_nil_r.
  - cbn [fold_left omap list_omap]. unfold step at 2.
    destruct (clean_item raw) as [s|]; [|now apply IH].
    cbn [map dedup_ci].
    destruct (existsb (String.eqb (lower (case_form s))) seen_l) eqn:E.
    + rewrite bool_decide_eq_true_2; [now apply IH|].
      apply Hs. apply existsb_exists in E. destruct E as (k & Hin & Hk).
      apply String.eqb_eq in Hk. now subst k.
    + rewrite bool_decide_eq_false_2.
      * rewrite (IH _ (lower (case_form s) :: seen_l)).
        -- now rewrite <- app_assoc.
        -- intros k. rewrite elem_of_union, elem_of_singleton, Hs. cbn.
           split; intros [H|H]; auto.
      * intros Hin. apply Hs in Hin.
        assert (existsb (String.eqb (lower (case_form s))) seen_l = true).
        { apply existsb_exists. exists (lower (case_form s)).
          split; [exact Hin|apply String.eqb_refl]. }
        congruence.
Qed.

(** What [dedup_ci] keeps: a subsequence, with pairwise distinct lowercase
    forms, none of them in [seen], and no lowercase form is lost. *)
Lemma dedup_ci_sublist (l : list string) :
  forall seen, sublist (dedup_ci seen l) l.
Proof.
  induction l as [|x l IH]; intros seen; cbn [dedup_ci]; [constructor|].
  destruct (existsb _ seen); [apply sublist_cons|apply sublist_skip]; apply IH.
Qed.

Lemma dedup_ci_keys (l : list string) :
  forall seen,
    NoDup (map lower (dedup_ci seen l))
    /\ (forall k, In k (map lower (dedup_ci seen l)) -> ~ In k seen)
    /\ (forall x, In x l -> In (lower x) seen \/ In (lower x) (map lower (dedup_ci seen l))).
Proof.
  induction l as [|x l IH]; intros seen; cbn [dedup_ci].
  - split; [constructor|]. split; [intros k []|intros x []].
  - destruct (existsb (String.eqb (lower x)) seen) eqn:E.
    + destruct (IH seen) as (N & D & C). split; [exact N|]. split; [exact D|].
      intros y [<-|Hy]; [|now apply C].
      left. apply existsb_exists in E. destruct E as (k & Hin & Hk).
      apply String.eqb_eq in Hk. now subst k.
    + destruct (IH (lower x :: seen)) as (N & D & C).
      cbn [map]. split; [|split].
      * constructor; [|exact N].
        rewrite list_elem_of_In. intros Hin. apply (D _ Hin). now left.
      * intros k [<-|Hin].
        -- intros Hin. assert (existsb (String.eqb (lower x)) seen = true); [|congruence].
           apply existsb_exists. exists (lower x). split; [exact Hin|apply String.eqb_refl].
        -- intros Hs. apply (D _ Hin). now right.
      * intros y [<-|Hy]; [right; now left|].
        destruct (C y Hy) as [[<-|H]|H]; [right; now left|now left|right; now right].
Qed.

End normalize_skills_properties.

Section normalize_skills_claims.

Import py resume_parsing spec.

Lemma acronyms_list (k : string) :
  bool_decide (k ∈ acronyms) = existsb (String.eqb k) ("apis" :: claimed_acronyms).
Proof.
  assert (H : k ∈ acronyms <-> In k ("apis" :: claimed_acronyms)).
  { unfold acronyms. rewrite elem_of_list_to_set, list_elem_of_In.
    unfold claimed_acronyms. cbn [In]. tauto. }
  destruct (existsb (String.eqb k) ("apis" :: claimed_acronyms)) eqn:E.
  - apply bool_decide_eq_true_2, H.
    apply existsb_exists in E. destruct E as (x & Hin & Hx).
    apply String.eqb_eq in Hx. now subst x.
  - apply bool_decide_eq_false_2. intros Hin. apply H in Hin.
    assert (existsb (String.eqb k) ("apis" :: claimed_acronyms) = true); [|congruence].
    apply existsb_exists. exists k. split; [exact Hin|apply String.eqb_refl].
Qed.

Lemma clean_item_length (raw s : string) :
  clean_item raw = Some s -> 2 <= len s <= 40.
Proof.
  unfold clean_item.
  destruct (negb (nonempty _)); [discriminate|].
  match goal with |- context [len ?t <? 2] => set (u := t) end.
  destruct (Z.ltb_spec (len u) 2); [discriminate|].
  destruct (Z.ltb_spec 40 (len u)); [discriminate|].
  cbn [orb]. intros [= <-]. lia.
Qed.

(** The single token "python" is emitted as it is, not title-cased. *)
Lemma C9_single_token_is_not_title_cased :
  normalize_skills ["python"] <> claimed_normalize_skills ["python"].
Proof. vm_compute. intros H. discriminate H. Qed.

(** C9 (amended): every token that [normalize_skills] keeps (after the
    trimming of noise, its length within [2,40]) is emitted unchanged when
    it is all-caps or version-like; otherwise, when it is a single token of
    letters, digits, "+", "#" and ".", uppercased if it is one of api, apis,
    sql, aws, gcp, ml, ai, ci, cd and unchanged if not; otherwise with each
    of its alphabetic words capitalised and the other words unchanged.
    Tokens whose emitted forms agree up to case are emitted once, in the
    first form met, and the order of first occurrences is kept. *)
Theorem C9_normalize_skills :
  forall items : list string,
    let kept := omap clean_item items in
    normalize_skills items = dedup_ci [] (map case_form kept)
    /\ (forall s, In s kept -> 2 <= len s <= 40)
    /\ (forall s,
          case_form s
          = if isupper s || match_version s then s
            else if match_single_token s then
              if existsb (String.eqb (lower s)) ("apis" :: claimed_acronyms)
              then upper s else s
            else join " " (map (fun w => if isalpha w then capitalize w else w)
                               (split " " s)))
    /\ sublist (normalize_skills items) (map case_form kept)
    /\ NoDup (map lower (normalize_skills items))
    /\ (forall s, In s kept ->
                  In (lower (case_form s)) (map lower (normalize_skills items))).
Proof.
  intros items kept.
  assert (E : normalize_skills items = dedup_ci [] (map case_form kept)).
  { unfold normalize_skills.
    rewrite (normalize_loop_dedup items ∅ [] []); [reflexivity|].
    intros k. rewrite elem_of_empty. cbn. tauto. }
  split; [exact E|]. split; [|split; [|split; [|split]]].
  - intros s Hs. subst kept.
    apply list_elem_of_In, list_elem_of_omap in Hs.
    destruct Hs as (raw & _ & Hc). now apply clean_item_length with raw.
  - intros s. unfold case_form. rewrite acronyms_list.
    destruct (isupper s); [reflexivity|].
    destruct (match_version s); reflexivity.
  - rewrite E. apply dedup_ci_sublist.
  - rewrite E. apply dedup_ci_keys.
  - intros s Hs. rewrite E.
    destruct (dedup_ci_keys (map case_form kept) []) as (_ & _ & C).
    destruct (C (case_form s)) as [[]|H]; [|exact H].
    now apply in_map.
Qed.

End normalize_skills_claims.

(** ** Payloads that are not what the extractors expect *)

Section payload_shape.

Import py json scoring_engine.

Variable json_loads : string -> option value.
Variable repr_other : value -> string.

(** A payload that is not JSON gives empty results, and the score is
    computed from them. *)
Lemma invalid_json_is_empty
    (structured_json ai_structured_json : option string) :
  json_loads (select_raw structured_json ai_structured_json) = None ->
  extract_resume_skills json_loads repr_other structured_json ai_structured_json
  = Ok []
  /\ extract_resume_experience_text json_loads repr_other structured_json
       ai_structured_json = Ok ""
  /\ extract_resume_education_text json_loads repr_other structured_json
       ai_structured_json = Ok ""
  /\ forall jt jd jrs sem pct,
       exists skills_score final_score breakdown,
         score_application json_loads repr_other jt jd jrs structured_json
           ai_structured_json sem pct
         = Ok (skills_score, final_score, breakdown)
         /\ bd_experience_score breakdown = 0%Q
         /\ bd_education_score breakdown = 0%Q
         /\ bd_matched_skills breakdown = [].
Proof.
  intros Hl.
  assert (E1 : extract_resume_skills json_loads repr_other structured_json
                 ai_structured_json = Ok []).
  { unfold extract_resume_skills. rewrite Hl. now destruct (negb _). }
  assert (E2 : forall name,
             extract_resume_section_text json_loads repr_other name
               structured_json ai_structured_json = Ok "").
  { intros name. unfold extract_resume_section_text. rewrite Hl.
    now destruct (negb _). }
  split; [exact E1|]. split; [apply E2|]. split; [apply E2|].
  intros jt jd jrs sem pct. unfold score_application.
  unfold extract_resume_experience_text, extract_resume_education_text.
  rewrite E1, !E2. cbn [mbind result_bind bind].
  destruct (skills_overlap_score [] _) as [[sk ms] mi] eqn:S.
  eexists _, _, _. split; [reflexivity|]. cbn.
  split; [|split].
  - unfold experience_relevance_score. reflexivity.
  - reflexivity.
  - unfold skills_overlap_score in S.
    destruct (extract_job_skill_tokens jt jd jrs) as [|j js]; [now inversion S|].
    injection S as _ <- _.
    generalize (j :: js). intros l.
    induction l as [|a l IH]; [reflexivity|].
    rewrite filter_cons_False; [exact IH|]. apply not_elem_of_empty.
Qed.

(** A payload that is a JSON value other than an object, and not a falsy
    one, makes [.get] fail in each extractor: the exception is not caught
    and leaves [score_application]. *)
Lemma non_dict_payload_raises
    (structured_json ai_structured_json : option string) (payload : value) :
  nonempty (select_raw structured_json ai_structured_json) = true ->
  json_loads (select_raw structured_json ai_structured_json) = Some payload ->
  truthy payload = true ->
  (forall kv, payload <> JDict kv) ->
  extract_resume_skills json_loads repr_other structured_json ai_structured_json
  = Raise AttributeError
  /\ extract_resume_experience_text json_loads repr_other structured_json
       ai_structured_json = Raise AttributeError
  /\ extract_resume_education_text json_loads repr_other structured_json
       ai_structured_json = Raise AttributeError
  /\ forall jt jd jrs sem pct,
       score_application json_loads repr_other jt jd jrs structured_json
         ai_structured_json sem pct
       = Raise AttributeError.
Proof.
  intros Hr Hl Ht Hd.
  assert (G : get "sections" (or_dict payload) = Raise AttributeError).
  { unfold or_dict. rewrite Ht. destruct payload; try reflexivity.
    now destruct (Hd kv). }
  assert (E1 : extract_resume_skills json_loads repr_other structured_json
                 ai_structured_json = Raise AttributeError).
  { unfold extract_resume_skills. now rewrite Hr, Hl, G. }
  assert (E2 : forall name,
             extract_resume_section_text json_loads repr_other name
               structured_json ai_structured_json = Raise AttributeError).
  { intros name. unfold extract_resume_section_text. now rewrite Hr, Hl, G. }
  split; [exact E1|]. split; [apply E2|]. split; [apply E2|].
  intros. unfold score_application. now rewrite E1.
Qed.

End payload_shape.

Section payload_shape_claims.

Import py json scoring_engine samples.

(** C10 fails on the code: with [structured_json = "[1]"], valid JSON that
    is a list, each of the three extractors raises [AttributeError] instead
    of returning an empty result, and [score_application] raises with
    them. *)
Theorem C10_list_payload_raises :
  extract_resume_skills sample_loads (fun _ => "") (Some "[1]") None
  = py.Raise AttributeError
  /\ extract_resume_experience_text sample_loads (fun _ => "") (Some "[1]") None
     = py.Raise AttributeError
  /\ extract_resume_education_text sample_loads (fun _ => "") (Some "[1]") None
     = py.Raise AttributeError
  /\ score_application sample_loads (fun _ => "") (Some "Backend") (Some "Python")
       None (Some "[1]") None 0.5 (Some 80)
     = py.Raise AttributeError.
Proof.
  destruct (non_dict_payload_raises sample_loads (fun _ => "") (Some "[1]") None
              (JList [JInt 1]) eq_refl eq_refl eq_refl)
    as (H1 & H2 & H3 & H4); [discriminate|].
  split; [exact H1|]. split; [exact H2|]. split; [exact H3|]. apply H4.
Qed.

End payload_shape_claims.

(** ** Determinism of the scoring engine *)

Section determinism.

Import py json scoring_engine.

(** Two calls: each has its own run of the library functions. *)
Variables json_loads1 json_loads2 : string -> option value.
Variables repr_other1 repr_other2 : value -> string.

(** [str] gives the same text in both calls. *)
Hypothesis same_repr : forall v, repr_other1 v = repr_other2 v.





Section same_payload.

Variables structured_json ai_structured_json : option string.

(** [json.loads] gives the same value for the selected payload in both
    calls. *)
Hypothesis same_parse :
  json_loads1 (select_raw structured_json ai_structured_json)
  = json_loads2 (select_raw structured_json ai_structured_json).




End same_payload.

End determinism.

Section determinism_example.

Import py json scoring_engine samples.


End determinism_example.

(** ** The model on published vectors and on the repository's tests *)

Section model_checks.

Import py json scoring_engine resume_parsing semantic_similarity samples.

(** FIPS 180-4 vectors: the empty message, "abc", and a message of two
    blocks. *)
Example sha256_vectors :
  sha256.hexdigest ""
  = "e3b0c44298fc1c149afbf4c8996fb92427ae41e4649b934ca495991b7852b855"
  /\ sha256.hexdigest "abc"
     = "ba7816bf8f01cfea414140de5dae2223b00361a396177a9cb410ff61f20015ad"
  /\ sha256.hexdigest "abcdbcdecdefdefgefghfghighijhijkijkljklmklmnlmnomnopnopq"
     = "248d6a61d20638b8e5c026930c3e6039a33ce45964ff2167f6ecedd419db06c1".
Proof. repeat split; vm_compute; reflexivity. Qed.

(** [tests/test_embeddings_semantic.py], [test_cosine_similarity_basic] *)
Example cosine_similarity_basic :
  cosine_similarity sqrt_newton [1; 0]%Q [1; 0]%Q = Ok 1%Q
  /\ cosine_similarity sqrt_newton [1; 0]%Q [0; 1]%Q = Ok 0%Q
  /\ cosine_similarity sqrt_newton [] [] = Ok 0%Q
  /\ cosine_similarity sqrt_newton [1]%Q [1; 2]%Q = Ok 0%Q.
Proof. repeat split; vm_compute; reflexivity. Qed.

(** [tests/test_embeddings_semantic.py], [test_hash_normalization_stable] *)
Example hash_normalization_stable :
  embeddings.normalize_text ("Hello   world" ++ scoring_engine.NL ++ scoring_engine.NL)
  = embeddings.normalize_text "Hello world".
Proof. vm_compute. reflexivity. Qed.

(** [round] goes to the even neighbour on a tie, as Python's does. *)
Example round_ties :
  round 0.5 = 0 /\ round 1.5 = 2 /\ round 2.5 = 2 /\ round (-0.5) = 0
  /\ round (-1.5) = -2 /\ round 71.44 = 71 /\ round 99.5 = 100.
Proof. repeat split; vm_compute; reflexivity. Qed.

(** Tokens of a job text: aliases applied, stop words and repetitions
    dropped. *)
Example job_tokens_example :
  extract_job_skill_tokens (Some "Backend Developer")
    (Some "Need Python FastAPI SQL. Build REST APIs.") None
  = ["backend"; "developer"; "need"; "python"; "sql"; "build"; "api"; "apis"].
Proof. vm_compute. reflexivity. Qed.

(** The casings of [normalize_skills]. *)
Example normalize_skills_example :
  normalize_skills
    ["python"; " - Python "; "AWS"; "aws"; "Py3"; "apis"; "sql";
     "machine LEARNING"; "c++ dev"; "x"; "REST api"]
  = ["python"; "AWS"; "Py3"; "APIS"; "SQL"; "Machine Learning"; "c++ Dev";
     "Rest Api"].
Proof. vm_compute. reflexivity. Qed.

End model_checks.

(** ** Resumes without a structured payload *)

Section empty_resume.

Import py json scoring_engine samples.

Lemma filter_not_elem_of_empty (rs : gset string) (l : list string) :
  rs = ∅ -> filter (fun j => j ∉ rs) l = l.
Proof.
  intros ->. induction l as [|a l IH]; [reflexivity|].
  rewrite filter_cons_True by apply not_elem_of_empty. now rewrite IH.
Qed.

Lemma skills_overlap_no_resume_tokens (job_skills : list string) :
  skills_overlap_score [] job_skills
  = (0%Q, [], firstn 8 job_skills).
Proof.
  unfold skills_overlap_score.
  destruct job_skills as [|j js]; [reflexivity|].
  change (list_to_set [] : gset string) with (∅ : gset string).
  rewrite (filter_elem_of_empty ∅ (j :: js) eq_refl).
  rewrite bool_decide_eq_true_2 by reflexivity.
  rewrite (filter_not_elem_of_empty ∅ (j :: js) eq_refl).
  change (Qlen (@nil string)) with 0%Q.
  set (d := Qmax 1 (Qlen (j :: js))).
  assert (H : Qle_bool (0 + 0 / d) 0 = true).
  { apply Qle_bool_iff. unfold Qdiv. ring_simplify. apply Qle_refl. }
  rewrite H. reflexivity.
Qed.

(** With no structured payload at all, the skills, experience and education
    scores are 0, the final score comes from the semantic and the AI
    signals alone, and the breakdown notes that structured skills were not
    available. *)
Lemma empty_resume_scores
    (json_loads : string -> option value) (repr_other : value -> string)
    (job_title job_description : option string)
    (job_required_skills : option (list string))
    (semantic_score : Q) (ai_relevance_pct : option Z) :
  let ai_reasoning_score :=
    match ai_relevance_pct with
    | Some n => (inject_Z (Z.max 0 (Z.min 100 n)) / 100)%Q
    | None => 0%Q
    end in
  exists breakdown,
    score_application json_loads repr_other job_title job_description
      job_required_skills None None semantic_score ai_relevance_pct
    = Ok (0%Q, compute_final_score semantic_score 0 0 0 ai_reasoning_score,
          breakdown)
    /\ bd_skills_score breakdown = 0%Q
    /\ bd_experience_score breakdown = 0%Q
    /\ bd_education_score breakdown = 0%Q
    /\ bd_matched_skills breakdown = []
    /\ In "No structured resume skills available; skills_score may be low."
          (bd_notes breakdown).
Proof.
  assert (E1 : extract_resume_skills json_loads repr_other None None = Ok [])
    by reflexivity.
  assert (E2 : extract_resume_experience_text json_loads repr_other None None = Ok "")
    by reflexivity.
  assert (E3 : extract_resume_education_text json_loads repr_other None None = Ok "")
    by reflexivity.
  assert (X : forall js, experience_relevance_score js "" = 0%Q) by reflexivity.
  assert (D : education_relevance_score job_title job_description "" = 0%Q)
    by reflexivity.
  unfold score_application.
  rewrite E1. cbn [mbind result_bind bind].
  rewrite skills_overlap_no_resume_tokens.
  rewrite E2. cbn [mbind result_bind bind].
  rewrite E3. cbn [mbind result_bind bind].
  rewrite X, D.
  destruct ai_relevance_pct as [n|]; cbn [fmap option_fmap option_map];
    (eexists; split; [reflexivity|]);
    cbn [bd_skills_score bd_experience_score bd_education_score
         bd_matched_skills bd_notes truthy_str negb andb app];
    (split; [reflexivity|]); (split; [reflexivity|]); (split; [reflexivity|]);
    (split; [reflexivity|]); left; reflexivity.
Qed.

(** A payload that [json.loads] rejects: the case of [invalid_json_is_empty]
    on a text that is not JSON. *)
Lemma invalid_json_is_empty_witness :
  extract_resume_skills sample_loads (fun _ => "") (Some "{not json") None = Ok []
  /\ extract_resume_experience_text sample_loads (fun _ => "") (Some "{not json") None
     = Ok ""
  /\ extract_resume_education_text sample_loads (fun _ => "") (Some "{not json") None
     = Ok "".
Proof.
  destruct (invalid_json_is_empty sample_loads (fun _ => "") (Some "{not json") None)
    as (H1 & H2 & H3 & _); [reflexivity|].
  exact (conj H1 (conj H2 H3)).
Defined.

End empty_resume.

(** ** The final score grows with its components *)

Section final_score_monotone.

Import py scoring_engine spec steps.

Lemma round_mono (x y : Q) : (x <= y)%Q -> round x <= round y.
Proof.
  intros H. pose proof (Qfloor_resp_le _ _ H) as Hf.
  assert (Bx : Qfloor x <= round x <= Qfloor x + 1).
  { unfold round. cbv zeta.
    destruct (Qcompare _ _); [destruct (Z.even _)| |]; lia. }
  assert (By : Qfloor y <= round y <= Qfloor y + 1).
  { unfold round. cbv zeta.
    destruct (Qcompare _ _); [destruct (Z.even _)| |]; lia. }
  destruct (Z.eq_dec (Qfloor x) (Qfloor y)) as [E|NE]; [|lia].
  unfold round. cbv zeta. rewrite <- E.
  destruct (Qcompare (x - inject_Z (Qfloor x)) (1 # 2)) eqn:Cx;
    destruct (Qcompare (y - inject_Z (Qfloor x)) (1 # 2)) eqn:Cy;
    try (destruct (Z.even (Qfloor x))); try lia; exfalso;
    rewrite <- ?Qeq_alt, <- ?Qlt_alt, <- ?Qgt_alt in Cx;
    rewrite <- ?Qeq_alt, <- ?Qlt_alt, <- ?Qgt_alt in Cy;
    lra.
Qed.

Lemma clamp01_mono (x y : Q) : (x <= y)%Q -> (clamp01 x <= clamp01 y)%Q.
Proof.
  intros H. unfold clamp01.
  destruct (Qmin_spec 1 x) as [[H1 ->]|[H1 ->]];
    destruct (Qmin_spec 1 y) as [[H2 ->]|[H2 ->]];
    repeat match goal with
           | |- context [Qmax 0 ?z] =>
               let A := fresh in let B := fresh in
               destruct (Qmax_spec 0 z) as [[A ->]|[B ->]]
           end; lra.
Qed.

(** Raising any of the five components never lowers the final score. *)
Theorem compute_final_score_monotone (s k e d a s' k' e' d' a' : Q) :
  (s <= s')%Q -> (k <= k')%Q -> (e <= e')%Q -> (d <= d')%Q -> (a <= a')%Q ->
  compute_final_score s k e d a <= compute_final_score s' k' e' d' a'.
Proof.
  intros Hs Hk He Hd Ha. rewrite !compute_final_score_round.
  apply round_mono. unfold weighted.
  pose proof (clamp01_mono _ _ Hs). pose proof (clamp01_mono _ _ Hk).
  pose proof (clamp01_mono _ _ He). pose proof (clamp01_mono _ _ Hd).
  pose proof (clamp01_mono _ _ Ha). lra.
Qed.

Lemma compute_final_score_monotone_witness :
  compute_final_score 0.2 0.5 (-1) 0.3 0.4 <= compute_final_score 0.9 0.5 0 0.3 7.
Proof.
  apply compute_final_score_monotone; unfold Qle; simpl; lia.
Defined.

End final_score_monotone.

(** ** Token lists have no repetition *)

Section token_lists.

Import py json scoring_engine invariants.

Lemma seen_out_empty : seen_out (∅, []).
Proof.
  split; [constructor|]. intros c. cbn. rewrite elem_of_empty. tauto.
Qed.

Lemma add_unique_seen_out (st : gset string * list string) (w : string) :
  seen_out st -> seen_out (add_unique st w).
Proof.
  destruct st as [seen out]. intros [N S]. unfold add_unique. cbn in N, S.
  destruct (decide (w ∈ seen)) as [Hin|Hout].
  - rewrite (bool_decide_eq_true_2 _ Hin). now split.
  - rewrite (bool_decide_eq_false_2 _ Hout). split; cbn.
    + apply NoDup_app. split; [exact N|]. split; [|apply NoDup_singleton].
      intros x Hx Hw. apply list_elem_of_singleton in Hw. subst x.
      apply Hout, S. now apply list_elem_of_In.
    + intros c. rewrite elem_of_union, elem_of_singleton, in_app_iff, S.
      cbn. split.
      * intros [->|H]; [right; now left|now left].
      * intros [H|[->|[]]]; [now right|now left].
Qed.

Lemma add_candidate_seen_out (st : gset string * list string) (c : string) :
  seen_out st /\ ~ In "" (snd st) ->
  seen_out (add_candidate st c) /\ ~ In "" (snd (add_candidate st c)).
Proof.
  intros [I E]. unfold add_candidate. destruct st as [seen out].
  destruct (nonempty c) eqn:Nc; cbn [negb]; [|now split].
  pose proof (add_unique_seen_out (seen, out) c I) as A. unfold add_unique in A.
  destruct (bool_decide (c ∈ seen)); [now split|].
  split; [exact A|]. cbn. rewrite in_app_iff. intros [H|[H|[]]]; [now apply E|].
  subst c. discriminate.
Qed.

Lemma fold_left_preserves {A B} (P : A -> Prop) (f : A -> B -> A) (l : list B) :
  (forall a b, P a -> P (f a b)) -> forall a, P a -> P (fold_left f l a).
Proof.
  intros Hf. induction l as [|b l IH]; intros a Ha; cbn; [exact Ha|].
  apply IH, Hf, Ha.
Qed.

(** The resume tokens that [extract_resume_skills] returns are pairwise
    distinct, and none of them is the empty string. *)
Theorem extract_resume_skills_distinct
    (json_loads : string -> option value) (repr_other : value -> string)
    (structured_json ai_structured_json : option string) (skills : list string) :
  extract_resume_skills json_loads repr_other structured_json ai_structured_json
  = Ok skills ->
  NoDup skills /\ ~ In "" skills.
Proof.
  unfold extract_resume_skills.
  assert (Nil : NoDup (@nil string) /\ ~ In "" (@nil string))
    by (split; [constructor|intros []]).
  destruct (negb _); [intros [= <-]; exact Nil|].
  destruct (json_loads _) as [payload|]; [|intros [= <-]; exact Nil].
  destruct (get "sections" _) as [sections|]; [|discriminate].
  cbn [mbind result_bind bind].
  destruct (get "skills" _) as [sk|]; [|discriminate].
  cbn [mbind result_bind bind].
  destruct (get "items" _) as [items|]; [|discriminate].
  cbn [mbind result_bind bind].
  destruct (or_list items) as [| | | | |l|]; try (intros [= <-]; exact Nil).
  intros [= <-].
  pose proof (fold_left_preserves
                (fun st => seen_out st /\ ~ In "" (snd st))
                (add_item repr_other) l) as F.
  destruct (F) with (a := ((∅ : gset string), @nil string)) as [[N _] E].
  - intros st it Hst. unfold add_item.
    destruct (negb _); [exact Hst|].
    apply fold_left_preserves; [|exact Hst].
    intros a b. apply add_candidate_seen_out.
  - split; [apply seen_out_empty|intros []].
  - split; assumption.
Qed.

Lemma extract_resume_skills_distinct_witness :
  NoDup ["python"; "none"; "machine learning"; "machine"; "learning"]
  /\ ~ In "" ["python"; "none"; "machine learning"; "machine"; "learning"].
Proof.
  apply (extract_resume_skills_distinct
           (fun _ => Some (JDict [("sections", JDict [("skills", JDict
              [("items", JList [JStr "Python"; JStr "FastAPI"; JNull;
                                JStr "Machine  Learning!"; JStr "python"])])])]))
           (fun _ => "") (Some "payload") None).
  vm_compute. reflexivity.
Defined.

Lemma add_word_seen_out (st : gset string * list string) (m : string) :
  seen_out st -> seen_out (add_word st m).
Proof.
  intros I. unfold add_word.
  destruct (_ || _); [exact I|]. destruct (40 <? _); [exact I|].
  now apply add_unique_seen_out.
Qed.

(** The job tokens are pairwise distinct and at most 60, whether they come
    from the required skills or from the title and the description. *)
Theorem extract_job_skill_tokens_distinct
    (job_title job_description : option string)
    (required_skills : option (list string)) :
  NoDup (extract_job_skill_tokens job_title job_description required_skills)
  /\ (List.length (extract_job_skill_tokens job_title job_description required_skills)
      <= 60)%nat.
Proof.
  split; [|unfold extract_job_skill_tokens; destruct (filter _ _); apply firstn_le_length].
  unfold extract_job_skill_tokens.
  destruct (filter _ _) as [|c explicit].
  - eapply sublist_NoDup; [|apply sublist_take].
    apply (fold_left_preserves seen_out add_word);
      [intros a b; apply add_word_seen_out|apply seen_out_empty].
  - eapply sublist_NoDup; [|apply sublist_take].
    apply (fold_left_preserves seen_out add_unique);
      [intros a b; apply add_unique_seen_out|apply seen_out_empty].
Qed.

End token_lists.

(** ** What the skills overlap reports *)

Section skills_overlap_report.

Import py json scoring_engine spec steps.

Lemma clamp_ifs_range (x : Q) : (0 <= clamp_ifs x <= 1)%Q.
Proof.
  rewrite (clamp_ifs_clamp01 x x (Qeq_refl x)). apply clamp01_range.
Qed.

Lemma clamp_ifs_pos (x : Q) : (0 < x)%Q -> (0 < clamp_ifs x)%Q.
Proof.
  intros Hx. unfold clamp_ifs.
  destruct (Qltb x 0) eqn:A; [apply Qltb_true in A; lra|].
  destruct (Qltb 1 x); lra.
Qed.

Lemma f1_steps_pos (p r : Q) : (0 < p)%Q -> (0 < r)%Q -> (0 < f1_steps p r)%Q.
Proof.
  intros Hp Hr. unfold f1_steps.
  destruct (Qle_bool (p + r) 0) eqn:S.
  - apply Qle_bool_iff in S. lra.
  - apply Qlt_shift_div_l; [lra|]. nra.
Qed.

Lemma Qlen_pos {A} (l : list A) : l <> [] -> (0 < Qlen l)%Q.
Proof.
  intros Hl. unfold Qlen. rewrite <- (Zlt_Qlt 0).
  destruct l; [contradiction|cbn; lia].
Qed.

Lemma Qmax_1_ge (x : Q) : (0 < Qmax 1 x)%Q.
Proof. destruct (Qmax_spec 1 x) as [[H ->]|[H ->]]; lra. Qed.

(** The score is 0 exactly when no job token is a resume token; the
    matched tokens shown are job tokens found among the resume tokens, the
    missing ones are job tokens not found there; the score is in [0,1]. *)
Theorem skills_overlap_score_report (resume_skills job_skills : list string) :
  let '(score, shown_matched, shown_missing) :=
    skills_overlap_score resume_skills job_skills in
  ((score == 0)%Q <-> forall j, In j job_skills -> ~ In j resume_skills)
  /\ (0 <= score <= 1)%Q
  /\ (forall j, In j shown_matched -> In j job_skills /\ In j resume_skills)
  /\ (forall j, In j shown_missing -> In j job_skills /\ ~ In j resume_skills).
Proof.
  unfold skills_overlap_score.
  destruct job_skills as [|j0 js0].
  { split; [split; [intros _ j []|reflexivity]|].
    split; [lra|]. split; intros j []. }
  set (js := j0 :: js0).
  set (rs := list_to_set resume_skills : gset string).
  set (matched := filter (fun j => j ∈ rs) js).
  set (missing := filter (fun j => j ∉ rs) js).
  fold (f1_steps
          (if bool_decide (rs = ∅) then 0%Q
           else (Qlen matched / Qmax 1 (inject_Z (Z.of_nat (size rs))))%Q)
          (Qlen matched / Qmax 1 (Qlen js))%Q).
  match goal with
  | |- context [f1_steps ?p ?r] => set (pc := p); set (rc := r)
  end.
  fold (clamp_ifs (f1_steps pc rc)).
  assert (Hrs : forall j, j ∈ rs <-> In j resume_skills).
  { intros j. subst rs. now rewrite elem_of_list_to_set, list_elem_of_In. }
  assert (Hm : forall j, In j matched <-> In j js /\ In j resume_skills).
  { intros j. unfold matched. split.
    - intros H. apply list_elem_of_In, list_elem_of_filter in H.
      destruct H as [H1 H2]. split; [now apply list_elem_of_In|now apply Hrs].
    - intros [H1 H2]. apply list_elem_of_In, list_elem_of_filter.
      split; [now apply Hrs|now apply list_elem_of_In]. }
  assert (Hmi : forall j, In j missing <-> In j js /\ ~ In j resume_skills).
  { intros j. unfold missing. split.
    - intros H. apply list_elem_of_In, list_elem_of_filter in H.
      destruct H as [H1 H2]. split; [now apply list_elem_of_In|].
      intros H3. now apply H1, Hrs.
    - intros [H1 H2]. apply list_elem_of_In, list_elem_of_filter.
      split; [|now apply list_elem_of_In].
      intros H3. now apply H2, Hrs. }
  split; [|split; [apply clamp_ifs_range|split]].
  - destruct matched as [|m ms] eqn:Em.
    + assert (Z0 : (clamp_ifs (f1_steps pc rc) == 0)%Q).
      { assert (Hp : (pc == 0)%Q).
        { subst pc. destruct (bool_decide _); [reflexivity|].
          change (Qlen (@nil string)) with 0%Q. unfold Qdiv. ring. }
        assert (Hr : (rc == 0)%Q).
        { subst rc. change (Qlen (@nil string)) with 0%Q. unfold Qdiv. ring. }
        unfold f1_steps.
        assert (S : Qle_bool (pc + rc) 0 = true) by (apply Qle_bool_iff; lra).
        rewrite S. reflexivity. }
      split; [|intros _; exact Z0].
      intros _ j Hj Hr. destruct (proj2 (Hm j) (conj Hj Hr)).
    + assert (Pos : (0 < clamp_ifs (f1_steps pc rc))%Q).
      { assert (Hin : In m resume_skills) by (apply (Hm m); now left).
        assert (Hne : rs <> ∅).
        { intros E. apply Hrs in Hin. rewrite E in Hin.
          now apply not_elem_of_empty in Hin. }
        assert (Hl : (0 < Qlen (m :: ms))%Q) by (apply Qlen_pos; discriminate).
        apply clamp_ifs_pos, f1_steps_pos.
        - subst pc. rewrite (bool_decide_eq_false_2 _ Hne).
          apply Qlt_shift_div_l; [apply Qmax_1_ge|lra].
        - subst rc. apply Qlt_shift_div_l; [apply Qmax_1_ge|lra]. }
      split; [intros Z0; lra|].
      intros Hno. exfalso.
      destruct (proj1 (Hm m) (or_introl eq_refl)) as [H1 H2].
      exact (Hno m H1 H2).
  - intros j Hj. apply Hm.
    apply list_elem_of_In. apply list_elem_of_In in Hj.
    eapply elem_of_sublist; [exact Hj|apply sublist_take].
  - intros j Hj. apply Hmi.
    apply list_elem_of_In. apply list_elem_of_In in Hj.
    eapply elem_of_sublist; [exact Hj|apply sublist_take].
Qed.

End skills_overlap_report.

(** ** The breakdown that goes with a score *)

Section breakdown_properties.

Import py json scoring_engine spec steps.

Lemma skills_overlap_score_range (resume_skills job_skills : list string) :
  (0 <= fst (fst (skills_overlap_score resume_skills job_skills)) <= 1)%Q
  /\ (List.length (snd (fst (skills_overlap_score resume_skills job_skills))) <= 12)%nat
  /\ (List.length (snd (skills_overlap_score resume_skills job_skills)) <= 8)%nat.
Proof.
  unfold skills_overlap_score.
  destruct job_skills as [|j js]; [cbn; split; [lra|split; lia]|].
  cbn [fst snd]. split; [|split; apply firstn_le_length].
  match goal with
  | |- (0 <= (if Qltb 1 ?y then _ else _) <= 1)%Q =>
      match y with
      | (if Qltb ?x 0 then _ else _) => change (0 <= clamp_ifs x <= 1)%Q
      end
  end.
  apply clamp_ifs_range.
Qed.

Lemma experience_relevance_score_range (job_tokens : list string) (text : string) :
  (0 <= experience_relevance_score job_tokens text <= 1)%Q.
Proof.
  unfold experience_relevance_score.
  destruct (_ || _); [lra|]. destruct (bool_decide _); [lra|].
  match goal with
  | |- context [Qltb ?x 0] =>
      destruct (Qltb x 0) eqn:A; [lra|];
      destruct (Qltb 1 x) eqn:B; [lra|];
      apply Qltb_false in A; apply Qltb_false in B; lra
  end.
Qed.

Lemma education_relevance_score_range (job_title job_description : option string)
    (text : string) :
  (0 <= education_relevance_score job_title job_description text <= 1)%Q.
Proof.
  unfold education_relevance_score.
  destruct (negb _); [lra|].
  match goal with
  | |- context [Qltb ?x 0] =>
      destruct (Qltb x 0) eqn:A; [lra|];
      destruct (Qltb 1 x) eqn:B; [lra|];
      apply Qltb_false in A; apply Qltb_false in B; lra
  end.
Qed.

Lemma ai_reasoning_range (n : Z) :
  (0 <= inject_Z (Z.max 0 (Z.min 100 n)) / 100 <= 1)%Q.
Proof.
  assert (H : 0 <= Z.max 0 (Z.min 100 n) <= 100) by lia.
  destruct H as [H1 H2].
  rewrite (Zle_Qle 0) in H1. rewrite (Zle_Qle _ 100) in H2.
  change (inject_Z 0) with 0%Q in H1. change (inject_Z 100) with 100%Q in H2.
  generalize dependent (inject_Z (Z.max 0 (Z.min 100 n))). intros q H1 H2.
  split; [apply Qle_shift_div_l|apply Qle_shift_div_r]; lra.
Qed.

(** A returned triple is consistent: the skills score is the breakdown's,
    the final score is [compute_final_score] of the breakdown's five
    components, the skills, experience, education and AI components are in
    [0,1], the semantic entry is the argument as given (not clamped), at
    most 12 matched and 8 missing skills are listed, and the note about a
    missing AI score is there exactly when no AI percentage was given. *)
Theorem score_application_breakdown
    (json_loads : string -> option value) (repr_other : value -> string)
    (job_title job_description : option string)
    (job_required_skills : option (list string))
    (resume_structured_json resume_ai_structured_json : option string)
    (semantic_score : Q) (ai_relevance_pct : option Z)
    (skills_score : Q) (final_score : Z) (b : breakdown) :
  score_application json_loads repr_other job_title job_description
    job_required_skills resume_structured_json resume_ai_structured_json
    semantic_score ai_relevance_pct
  = Ok (skills_score, final_score, b) ->
  skills_score = bd_skills_score b
  /\ final_score
     = compute_final_score (bd_semantic_score b) (bd_skills_score b)
         (bd_experience_score b) (bd_education_score b) (bd_ai_reasoning_score b)
  /\ bd_semantic_score b = semantic_score
  /\ bd_ai_relevance_score b = bd_ai_reasoning_score b
  /\ (0 <= bd_skills_score b <= 1)%Q
  /\ (0 <= bd_experience_score b <= 1)%Q
  /\ (0 <= bd_education_score b <= 1)%Q
  /\ (0 <= bd_ai_reasoning_score b <= 1)%Q
  /\ (List.length (bd_matched_skills b) <= 12)%nat
  /\ (List.length (bd_missing_skills b) <= 8)%nat
  /\ (In "No AI reasoning score available; ai_reasoning_score set to 0."
         (bd_notes b)
      <-> ai_relevance_pct = None).
Proof.
  unfold score_application.
  destruct (extract_resume_skills _ _ _ _) as [resume_skills|]; [|discriminate].
  cbn [mbind result_bind bind].
  generalize (extract_job_skill_tokens job_title job_description job_required_skills).
  intros job_skills.
  pose proof (skills_overlap_score_range resume_skills job_skills) as (R1 & R2 & R3).
  destruct (skills_overlap_score resume_skills job_skills) as [[sk matched] missing].
  cbn [fst snd] in R1, R2, R3.
  destruct (extract_resume_experience_text _ _ _ _) as [exp_text|]; [|discriminate].
  cbn [mbind result_bind bind].
  destruct (extract_resume_education_text _ _ _ _) as [edu_text|]; [|discriminate].
  cbn [mbind result_bind bind].
  intros [= <- <- <-].
  cbn [bd_semantic_score bd_skills_score bd_experience_score bd_education_score
       bd_ai_reasoning_score bd_ai_relevance_score bd_matched_skills
       bd_missing_skills bd_notes].
  split; [reflexivity|]. split; [reflexivity|]. split; [reflexivity|].
  split; [reflexivity|]. split; [exact R1|].
  split; [apply experience_relevance_score_range|].
  split; [apply education_relevance_score_range|].
  split; [|split; [exact R2|split; [exact R3|]]].
  - destruct ai_relevance_pct as [n|]; cbn [fmap option_fmap option_map];
      [apply ai_reasoning_range|lra].
  - rewrite !in_app_iff.
    destruct (negb (truthy_str resume_structured_json)
              && negb (truthy_str resume_ai_structured_json));
      destruct job_skills;
      destruct ai_relevance_pct as [n|]; cbn [fmap option_fmap option_map In];
      split; try reflexivity; try discriminate;
      intros H; try (right; right; left; reflexivity);
      exfalso; repeat (destruct H as [H|H]); try discriminate H; try exact H.
Qed.

Lemma score_application_breakdown_witness :
  let b :=
    {| bd_weights :=
         {| w_ai_reasoning := 0.45; w_skills := 0.20; w_experience := 0.15;
            w_education := 0.10; w_semantic := 0.10 |};
       bd_semantic_score := -2;
       bd_skills_score := 0;
       bd_experience_score := 0;
       bd_education_score := 0;
       bd_ai_reasoning_score := 1.00;
       bd_ai_relevance_score := 1.00;
       bd_matched_skills := [];
       bd_missing_skills := ["backend"; "python"; "sql"];
       bd_notes := [] |} in
  score_application samples.sample_loads (fun _ => "")
    (Some "Backend") (Some "Python SQL") None (Some "{}") None (-2) (Some 150)
  = Ok (0%Q, 45, b)
  /\ 45 = compute_final_score (-2) 0 0 0 1.00
  /\ (In "No AI reasoning score available; ai_reasoning_score set to 0." []
      <-> Some 150 = None).
Proof.
  intros b.
  assert (E : score_application samples.sample_loads (fun _ => "")
                (Some "Backend") (Some "Python SQL") None (Some "{}") None
                (-2) (Some 150)
              = Ok (0%Q, 45, b)) by (vm_compute; reflexivity).
  split; [exact E|].
  destruct (score_application_breakdown _ _ _ _ _ _ _ _ _ _ _ _ E)
    as (_ & H2 & _ & _ & _ & _ & _ & _ & _ & _ & H11).
  exact (conj H2 H11).
Defined.

End breakdown_properties.

(** ** The match cache as a table *)

Section cache_table_lookups.

Import py json ai_match_cache invariants.

Lemma first_with_key_none (db : table) (key : string) :
  first_with_key db key = None <->
  ~ In key (map AIMatchCache.cache_key db).
Proof.
  unfold first_with_key. induction db as [|row db IH]; cbn.
  - split; [intros _ []|reflexivity].
  - destruct (String.eqb_spec (AIMatchCache.cache_key row) key) as [E|E].
    + split; [discriminate|]. intros H. exfalso. apply H. now left.
    + rewrite IH. split.
      * intros H [H'|H']; [exact (E H')|exact (H H')].
      * intros H H'. apply H. now right.
Qed.

Lemma first_with_key_snoc (db : table) (row : AIMatchCache.t) :
  first_with_key db (AIMatchCache.cache_key row) = None ->
  first_with_key (db ++ [row])%list (AIMatchCache.cache_key row) = Some row.
Proof.
  unfold first_with_key. induction db as [|r db IH]; cbn.
  - now rewrite String.eqb_refl.
  - destruct (String.eqb _ _); [discriminate|exact IH].
Qed.

Lemma find_filter_keeps (P : AIMatchCache.t -> Prop) `{forall row, Decision (P row)}
    (db : list AIMatchCache.t) (key : string) (row : AIMatchCache.t) :
  first_with_key db key = Some row -> P row ->
  first_with_key (filter P db) key = Some row.
Proof.
  unfold first_with_key. induction db as [|r db IH]; cbn [find]; [discriminate|].
  intros F HP. rewrite filter_cons.
  destruct (String.eqb (AIMatchCache.cache_key r) key) eqn:E.
  - injection F as ->. rewrite decide_True by exact HP. cbn [find]. now rewrite E.
  - destruct (decide (P r)); [cbn [find]; rewrite E|]; now apply IH.
Qed.

Lemma find_filter_drops (P : AIMatchCache.t -> Prop) `{forall row, Decision (P row)}
    (db : list AIMatchCache.t) (key : string) (row : AIMatchCache.t) :
  NoDup (map AIMatchCache.cache_key db) ->
  first_with_key db key = Some row -> ~ P row ->
  first_with_key (filter P db) key = None.
Proof.
  intros Hu F HP. apply first_with_key_none. intros Hin.
  apply in_map_iff in Hin. destruct Hin as (r & Hk & Hr).
  apply list_elem_of_In, list_elem_of_filter in Hr. destruct Hr as [HPr Hr].
  apply list_elem_of_In in Hr.
  apply first_with_key_key in F. destruct F as [Hrow Hkey].
  assert (r = row); [|congruence].
  clear HP HPr. induction db as [|x db IH]; [destruct Hr|].
  cbn in Hu. apply NoDup_cons in Hu. destruct Hu as [Hx Hu].
  destruct Hr as [->|Hr], Hrow as [->|Hrow]; try reflexivity.
  - exfalso. apply Hx. apply list_elem_of_In, in_map_iff. exists row.
    split; [congruence|exact Hrow].
  - exfalso. apply Hx. apply list_elem_of_In, in_map_iff. exists r.
    split; [congruence|exact Hr].
  - now apply IH.
Qed.

Lemma filter_complement_length (P : AIMatchCache.t -> Prop)
    `{forall row, Decision (P row)} (db : list AIMatchCache.t) :
  (List.length (filter P db) + List.length (filter (fun row => ~ P row) db)
   = List.length db)%nat.
Proof.
  induction db as [|r db IH]; [reflexivity|].
  rewrite !filter_cons. destruct (decide (P r)) as [HP|HP].
  - rewrite decide_False by tauto. cbn. lia.
  - rewrite decide_True by exact HP. cbn. lia.
Qed.

Lemma filter_cache_constraints (P : AIMatchCache.t -> Prop)
    `{forall row, Decision (P row)} (db : list AIMatchCache.t) :
  cache_constraints db -> cache_constraints (filter P db).
Proof.
  intros [Hu Hn]. split.
  - clear Hn. induction db as [|r db IH]; [exact Hu|].
    cbn [map] in Hu. apply NoDup_cons in Hu. destruct Hu as [Hr Hu].
    rewrite filter_cons. destruct (decide (P r)); [|now apply IH].
    cbn [map]. apply NoDup_cons. split; [|now apply IH].
    intros Hin. apply Hr. apply list_elem_of_In, in_map_iff in Hin.
    destruct Hin as (x & Hk & Hx). apply list_elem_of_In, in_map_iff.
    exists x. split; [exact Hk|].
    apply list_elem_of_In, list_elem_of_filter in Hx. apply list_elem_of_In. tauto.
  - rewrite Forall_forall in *. intros row Hr. apply Hn.
    apply list_elem_of_filter in Hr. tauto.
Qed.

Lemma first_with_key_filter (P : AIMatchCache.t -> Prop)
    `{forall row, Decision (P row)} (db : list AIMatchCache.t) (key : string)
    (row : AIMatchCache.t) :
  cache_constraints db ->
  first_with_key db key = Some row ->
  first_with_key (filter (fun row => ~ P row) db) key
  = if decide (P row) then None else Some row.
Proof.
  intros Hc F. destruct (decide _) as [E|E].
  - eapply find_filter_drops; [exact (proj1 Hc)|exact F|]. tauto.
  - now apply find_filter_keeps.
Qed.

(** Deleting the cached matches of a job (or of a resume): the count
    returned is the number of rows removed, the rows kept are the other
    jobs' (resumes') rows in their order, the constraints of the table are
    kept, a lookup that found a row of another job (resume) still finds that
    row, and a lookup that found a row of this job (resume) finds nothing. *)
Theorem invalidate_cache_lookups (db : table) (id : Z) :
  cache_constraints db ->
  let by_job := invalidate_job_cache db id in
  let by_resume := invalidate_resume_cache db id in
  (snd by_job + Z.of_nat (List.length (fst by_job)) = Z.of_nat (List.length db)
   /\ sublist (fst by_job) db
   /\ cache_constraints (fst by_job)
   /\ (forall row, In row (fst by_job)
                   <-> In row db /\ AIMatchCache.job_id row <> Some id)
   /\ forall key row,
        first_with_key db key = Some row ->
        first_with_key (fst by_job) key
        = if decide (AIMatchCache.job_id row = Some id) then None else Some row)
  /\ (snd by_resume + Z.of_nat (List.length (fst by_resume))
      = Z.of_nat (List.length db)
      /\ sublist (fst by_resume) db
      /\ cache_constraints (fst by_resume)
      /\ (forall row, In row (fst by_resume)
                      <-> In row db /\ AIMatchCache.resume_id row <> Some id)
      /\ forall key row,
           first_with_key db key = Some row ->
           first_with_key (fst by_resume) key
           = if decide (AIMatchCache.resume_id row = Some id) then None
             else Some row).
Proof.
  intros Hc by_job by_resume. subst by_job by_resume.
  unfold invalidate_job_cache, invalidate_resume_cache. cbn [fst snd].
  split; (split; [|split; [|split; [|split]]]).
  - pose proof (filter_complement_length
                  (fun row => AIMatchCache.job_id row = Some id) db) as L.
    unfold table in *. lia.
  - apply sublist_filter.
  - now apply filter_cache_constraints.
  - intros row. rewrite <- !list_elem_of_In, list_elem_of_filter. tauto.
  - intros key row F.
    exact (first_with_key_filter
             (fun row => AIMatchCache.job_id row = Some id) db key row Hc F).
  - pose proof (filter_complement_length
                  (fun row => AIMatchCache.resume_id row = Some id) db) as L.
    unfold table in *. lia.
  - apply sublist_filter.
  - now apply filter_cache_constraints.
  - intros row. rewrite <- !list_elem_of_In, list_elem_of_filter. tauto.
  - intros key row F.
    exact (first_with_key_filter
             (fun row => AIMatchCache.resume_id row = Some id) db key row Hc F).
Qed.

End cache_table_lookups.

Section cache_table_properties.

Import py json ai_match_cache invariants.

Variable GEMINI_MODEL : string.
Variable json_loads : string -> option value.
Variable json_dumps : value -> option string.

Lemma new_entry_fields (now : Z) (key : string) (match_result : value)
    (job_id resume_id api_latency_ms : option Z) (model_version : string)
    (row : AIMatchCache.t) :
  new_entry json_dumps now key match_result job_id resume_id api_latency_ms
            model_version = Ok row ->
  AIMatchCache.cache_key row = key
  /\ AIMatchCache.job_id row = job_id
  /\ AIMatchCache.resume_id row = resume_id
  /\ AIMatchCache.expires_at row = None
  /\ json_dumps match_result = Some (AIMatchCache.match_result_json row)
  /\ exists score, get "score" match_result = Ok score.
Proof.
  unfold new_entry. destruct (json_dumps match_result) as [text|]; [|discriminate].
  destruct (get "score" match_result) as [score|]; [|discriminate].
  cbn. intros [= <-]. cbn. repeat split; eauto.
Qed.

(** What a call of [cache_match_result] can do to the table: nothing, or
    append one row. *)
Lemma cache_match_result_cases (now : Z) (db db' : table) (match_result : value)
    (job_id resume_id : option Z) (job_text resume_text : option string)
    (api_latency_ms : option Z) (model_version : option string) (flag : bool) :
  cache_match_result GEMINI_MODEL json_dumps now db match_result job_id resume_id
                     job_text resume_text api_latency_ms model_version
  = (db', flag) ->
  (db' = db
   /\ (flag = true ->
       exists key,
         _generate_cache_key GEMINI_MODEL job_id resume_id job_text resume_text
                             model_version = Ok key
         /\ In key (map AIMatchCache.cache_key db)))
  \/ (exists row,
        db' = (db ++ [row])%list /\ flag = true
        /\ _generate_cache_key GEMINI_MODEL job_id resume_id job_text resume_text
                               model_version = Ok (AIMatchCache.cache_key row)
        /\ first_with_key db (AIMatchCache.cache_key row) = None
        /\ is_Some job_id /\ is_Some resume_id
        /\ new_entry json_dumps now (AIMatchCache.cache_key row) match_result
                     job_id resume_id api_latency_ms
                     (model_or_default GEMINI_MODEL model_version)
           = Ok row).
Proof.
  unfold cache_match_result.
  destruct (_generate_cache_key _ _ _ _ _ _) as [key|] eqn:K;
    [|intros [= <- <-]; left; split; [reflexivity|discriminate]].
  destruct (first_with_key db key) as [existing|] eqn:F.
  { intros [= <- <-]. left. split; [reflexivity|]. intros _. exists key.
    split; [reflexivity|].
    destruct (In_dec string_dec key (map AIMatchCache.cache_key db)) as [H|H];
      [exact H|].
    apply first_with_key_none in H. congruence. }
  destruct (new_entry _ _ _ _ _ _ _ _) as [row|] eqn:N;
    [|intros [= <- <-]; left; split; [reflexivity|discriminate]].
  pose proof (new_entry_fields _ _ _ _ _ _ _ _ N) as (Hk & Hj & Hr & _).
  unfold commit_insert. rewrite Hj, Hr, Hk, F.
  destruct job_id as [j|], resume_id as [r|];
    try (intros [= <- <-]; left; split; [reflexivity|discriminate]).
  intros [= <- <-]. right. exists row. subst key.
  repeat split; eauto.
Qed.

(** A call of [cache_match_result] keeps the rows that are there, in their
    order, adds at most one row, and keeps the constraints of the table. *)
Theorem cache_match_result_appends (now : Z) (db : table) (match_result : value)
    (job_id resume_id : option Z) (job_text resume_text : option string)
    (api_latency_ms : option Z) (model_version : option string) :
  cache_constraints db ->
  let db' :=
    fst (cache_match_result GEMINI_MODEL json_dumps now db match_result job_id
           resume_id job_text resume_text api_latency_ms model_version) in
  cache_constraints db'
  /\ exists added, db' = (db ++ added)%list /\ (List.length added <= 1)%nat.
Proof.
  intros [Hu Hn] db'. subst db'.
  destruct (cache_match_result _ _ _ _ _ _ _ _ _ _ _) as [db' flag] eqn:E.
  cbn [fst].
  destruct (cache_match_result_cases _ _ _ _ _ _ _ _ _ _ _ E)
    as [[-> _]|(row & -> & _ & _ & F & Hj & Hr & N)].
  - split; [split; assumption|]. exists []. rewrite app_nil_r. split; [reflexivity|].
    cbn. lia.
  - pose proof (new_entry_fields _ _ _ _ _ _ _ _ N) as (_ & Ej & Er & _).
    split; [split|].
    + rewrite map_app. cbn [map]. apply NoDup_app. split; [exact Hu|]. split.
      * intros k Hk Hk'. apply list_elem_of_In in Hk, Hk'.
        destruct Hk' as [<-|[]]. apply first_with_key_none in F. exact (F Hk).
      * apply NoDup_singleton.
    + apply Forall_app. split; [exact Hn|]. apply Forall_singleton.
      rewrite Ej, Er. split; assumption.
    + exists [row]. split; [reflexivity|]. cbn. lia.
Qed.

(** A write that added a row can be read back, at any time, provided
    [json.loads] inverts [json.dumps] on the result: [get_cached_match] with
    the same arguments returns the result that was written. *)
Theorem cache_match_result_then_get (now now' : Z) (db db' : table)
    (match_result : value)
    (job_id resume_id : option Z) (job_text resume_text : option string)
    (api_latency_ms : option Z) (model_version : option string) :
  (forall text, json_dumps match_result = Some text ->
                json_loads text = Some match_result) ->
  cache_match_result GEMINI_MODEL json_dumps now db match_result job_id resume_id
                     job_text resume_text api_latency_ms model_version
  = (db', true) ->
  db' <> db ->
  get_cached_match GEMINI_MODEL json_loads now' db' job_id resume_id job_text
                   resume_text model_version
  = Some match_result.
Proof.
  intros Hrt E Hne.
  destruct (cache_match_result_cases _ _ _ _ _ _ _ _ _ _ _ E)
    as [[-> _]|(row & -> & _ & K & F & _ & _ & N)]; [now destruct Hne|].
  pose proof (new_entry_fields _ _ _ _ _ _ _ _ N) as (_ & _ & _ & He & Hd & score & Hs).
  unfold get_cached_match. rewrite K, (first_with_key_snoc _ _ F), He.
  rewrite (Hrt _ Hd), Hs. reflexivity.
Qed.

(** Without a job id or without a resume id nothing is stored: the table
    stays as it is, and the call reports success only when a row with the
    computed key is already there. *)
Theorem cache_match_result_needs_ids (now : Z) (db : table) (match_result : value)
    (job_id resume_id : option Z) (job_text resume_text : option string)
    (api_latency_ms : option Z) (model_version : option string) :
  job_id = None \/ resume_id = None ->
  let r :=
    cache_match_result GEMINI_MODEL json_dumps now db match_result job_id
      resume_id job_text resume_text api_latency_ms model_version in
  fst r = db
  /\ (snd r = true ->
      exists key,
        _generate_cache_key GEMINI_MODEL job_id resume_id job_text resume_text
                            model_version = Ok key
        /\ In key (map AIMatchCache.cache_key db)).
Proof.
  intros Hid r. subst r.
  destruct (cache_match_result _ _ _ _ _ _ _ _ _ _ _) as [db' flag] eqn:E.
  cbn [fst snd].
  destruct (cache_match_result_cases _ _ _ _ _ _ _ _ _ _ _ E)
    as [[-> H]|(row & _ & _ & _ & _ & [j Hj] & [r Hr] & _)].
  - split; [reflexivity|exact H].
  - destruct Hid as [->| ->]; discriminate.
Qed.

(** After the cached matches of a job were deleted, [get_cached_match]
    returns nothing new: it returns [None] where the row it found was the
    job's, and what it returned before where the row was another job's or
    there was none. *)
Theorem invalidate_job_cache_reads (now : Z) (db : table) (id : Z)
    (job_id resume_id : option Z) (job_text resume_text : option string)
    (model_version : option string) :
  cache_constraints db ->
  let get db :=
    get_cached_match GEMINI_MODEL json_loads now db job_id resume_id job_text
                     resume_text model_version in
  get (fst (invalidate_job_cache db id)) = get db
  \/ (get (fst (invalidate_job_cache db id)) = None
      /\ exists key row,
           _generate_cache_key GEMINI_MODEL job_id resume_id job_text resume_text
                               model_version = Ok key
           /\ first_with_key db key = Some row
           /\ AIMatchCache.job_id row = Some id).
Proof.
  intros Hc get. subst get. cbv beta.
  unfold get_cached_match, invalidate_job_cache. cbn [fst].
  destruct (_generate_cache_key _ _ _ _ _ _) as [key|] eqn:K; [|now left].
  destruct (first_with_key db key) as [row|] eqn:F.
  - rewrite (first_with_key_filter
               (fun row => AIMatchCache.job_id row = Some id) db key row Hc F).
    destruct (decide _) as [E|E]; [|now left].
    right. split; [reflexivity|]. exists key, row. auto.
  - left. apply first_with_key_none in F.
    assert (F' : first_with_key
                   (filter (fun row => AIMatchCache.job_id row <> Some id) db) key
                 = None).
    { apply first_with_key_none. intros H. apply F.
      apply in_map_iff in H. destruct H as (r & Hk & Hr). apply in_map_iff.
      exists r. split; [exact Hk|].
      apply list_elem_of_In, list_elem_of_filter in Hr.
      apply list_elem_of_In. tauto. }
    now rewrite F'.
Qed.

(** What [get_cached_match] returns is a dict: the decoded payload of the
    first row under the computed key, which has not expired.  And a result
    that is no dict is never stored. *)
Theorem cache_holds_dicts (now : Z) (db : table)
    (job_id resume_id : option Z) (job_text resume_text : option string)
    (model_version : option string) :
  (forall found,
      get_cached_match GEMINI_MODEL json_loads now db job_id resume_id job_text
                       resume_text model_version = Some found ->
      exists key row items,
        _generate_cache_key GEMINI_MODEL job_id resume_id job_text resume_text
                            model_version = Ok key
        /\ first_with_key db key = Some row
        /\ In row db
        /\ (forall e, AIMatchCache.expires_at row = Some e -> now <= e)
        /\ json_loads (AIMatchCache.match_result_json row) = Some found
        /\ found = JDict items)
  /\ forall match_result api_latency_ms,
       (forall items, match_result <> JDict items) ->
       fst (cache_match_result GEMINI_MODEL json_dumps now db match_result job_id
              resume_id job_text resume_text api_latency_ms model_version)
       = db.
Proof.
  split.
  - intros found. unfold get_cached_match.
    destruct (_generate_cache_key _ _ _ _ _ _) as [key|] eqn:K; [|discriminate].
    destruct (first_with_key db key) as [row|] eqn:F; [|discriminate].
    destruct (match AIMatchCache.expires_at row with
              | Some e => e <? now
              | None => false
              end) eqn:X; [discriminate|].
    destruct (json_loads (AIMatchCache.match_result_json row)) as [v|] eqn:L;
      [|discriminate].
    destruct (get "score" v) as [score|] eqn:G; [|discriminate].
    intros [= <-].
    destruct v as [| | | | | |items]; try discriminate G.
    exists key, row, items. split; [reflexivity|]. split; [exact F|].
    split; [exact (proj1 (first_with_key_key _ _ _ F))|].
    split; [|now split].
    intros e He. rewrite He in X. now apply Z.ltb_ge in X.
  - intros match_result api_latency_ms Hd.
    destruct (cache_match_result _ _ _ _ _ _ _ _ _ _ _) as [db' flag] eqn:E.
    cbn [fst].
    destruct (cache_match_result_cases _ _ _ _ _ _ _ _ _ _ _ E)
      as [[-> _]|(row & _ & _ & _ & _ & _ & _ & N)]; [reflexivity|].
    apply new_entry_fields in N. destruct N as (_ & _ & _ & _ & _ & score & G).
    destruct match_result as [| | | | | |items]; try discriminate G.
    now destruct (Hd items).
Qed.




End cache_table_properties.

Section cache_table_examples.

Import py json ai_match_cache invariants.

Lemma sample_cache_constraints : cache_constraints samples.sample_cache.
Proof.
  split.
  - apply NoDup_singleton.
  - apply Forall_singleton. split; eexists; reflexivity.
Defined.

Lemma cache_match_result_appends_witness :
  cache_constraints samples.sample_cache
  /\ exists added,
       fst (cache_match_result "gemini-2.0-flash" (fun _ => Some "{}") 7
              samples.sample_cache (JDict [("score", JInt 10)]) (Some 5) (Some 2)
              None None None None)
       = (samples.sample_cache ++ added)%list
       /\ (List.length added <= 1)%nat.
Proof.
  split; [exact sample_cache_constraints|].
  exact (proj2 (cache_match_result_appends "gemini-2.0-flash" (fun _ => Some "{}")
                  7 samples.sample_cache (JDict [("score", JInt 10)]) (Some 5)
                  (Some 2) None None None None sample_cache_constraints)).
Defined.

Lemma cache_match_result_then_get_witness :
  let loads := fun _ : string => Some (JDict [("score", JInt 10)]) in
  let dumps := fun _ : value => Some "{}" in
  let db' :=
    fst (cache_match_result "gemini-2.0-flash" dumps 7 samples.sample_cache
           (JDict [("score", JInt 10)]) (Some 5) (Some 2) None None None None) in
  db' <> samples.sample_cache
  /\ get_cached_match "gemini-2.0-flash" loads 99 db' (Some 5) (Some 2) None None
                      None
     = Some (JDict [("score", JInt 10)]).
Proof.
  intros loads dumps db'.
  assert (Hne : db' <> samples.sample_cache).
  { vm_compute. intros H. discriminate H. }
  split; [exact Hne|].
  apply (cache_match_result_then_get "gemini-2.0-flash" loads dumps 7 99
           samples.sample_cache db' (JDict [("score", JInt 10)]) (Some 5) (Some 2)
           None None None None).
  - intros text _. reflexivity.
  - vm_compute. reflexivity.
  - exact Hne.
Defined.

Lemma cache_match_result_needs_ids_witness :
  let r :=
    cache_match_result "gemini-2.0-flash" (fun _ => Some "{}") 7
      samples.sample_cache (JDict [("score", JInt 10)]) None None
      (Some "Backend developer") (Some "Python, SQL") None None in
  fst r = samples.sample_cache
  /\ (snd r = true ->
      exists key,
        _generate_cache_key "gemini-2.0-flash" None None
          (Some "Backend developer") (Some "Python, SQL") None = Ok key
        /\ In key (map AIMatchCache.cache_key samples.sample_cache)).
Proof.
  apply (cache_match_result_needs_ids "gemini-2.0-flash" (fun _ => Some "{}") 7
           samples.sample_cache (JDict [("score", JInt 10)]) None None
           (Some "Backend developer") (Some "Python, SQL") None None).
  left. reflexivity.
Defined.

Lemma invalidate_cache_lookups_witness :
  snd (invalidate_job_cache samples.sample_cache 1)
  + Z.of_nat (List.length (fst (invalidate_job_cache samples.sample_cache 1)))
  = Z.of_nat (List.length samples.sample_cache).
Proof.
  exact (proj1 (proj1 (invalidate_cache_lookups samples.sample_cache 1
                         sample_cache_constraints))).
Defined.

Lemma invalidate_job_cache_reads_witness :
  let get db :=
    get_cached_match "gemini-2.0-flash" (fun _ => Some (JDict [])) 7 db (Some 1)
      (Some 2) None None None in
  get (fst (invalidate_job_cache samples.sample_cache 1)) = get samples.sample_cache
  \/ (get (fst (invalidate_job_cache samples.sample_cache 1)) = None
      /\ exists key row,
           _generate_cache_key "gemini-2.0-flash" (Some 1) (Some 2) None None None
           = Ok key
           /\ first_with_key samples.sample_cache key = Some row
           /\ AIMatchCache.job_id row = Some 1).
Proof.
  exact (invalidate_job_cache_reads "gemini-2.0-flash" (fun _ => Some (JDict []))
           7 samples.sample_cache 1 (Some 1) (Some 2) None None None
           sample_cache_constraints).
Defined.

Lemma cache_holds_dicts_witness :
  (forall found,
      get_cached_match "gemini-2.0-flash" (fun _ => Some (JDict [])) 7
        samples.sample_cache (Some 1) (Some 2) None None None = Some found ->
      exists key row items,
        _generate_cache_key "gemini-2.0-flash" (Some 1) (Some 2) None None None
        = Ok key
        /\ first_with_key samples.sample_cache key = Some row
        /\ In row samples.sample_cache
        /\ (forall e, AIMatchCache.expires_at row = Some e -> 7 <= e)
        /\ (fun _ : string => Some (JDict [])) (AIMatchCache.match_result_json row)
           = Some found
        /\ found = JDict items)
  /\ get_cached_match "gemini-2.0-flash" (fun _ => Some (JDict [])) 7
       samples.sample_cache (Some 1) (Some 2) None None None = Some (JDict []).
Proof.
  split; [|vm_compute; reflexivity].
  exact (proj1 (cache_holds_dicts "gemini-2.0-flash" (fun _ => Some (JDict []))
                  (fun _ => Some "{}") 7 samples.sample_cache (Some 1) (Some 2)
                  None None None)).
Defined.


End cache_table_examples.

(** ** The row that the embedding cache returns *)

Section embedding_rows.

Import py embeddings.

Lemma latest_lookup (db : table) (et : string) (eid : Z) (mn : string)
    (i : nat) (r : Embedding.t) :
  latest db et eid mn = Some (i, r) ->
  db !! i = Some r /\ of_key et eid mn r = true.
Proof.
  intros L. pose proof (latest_from_spec (of_key et eid mn) db 0 None) as S.
  fold (latest db et eid mn) in S. rewrite L in S.
  destruct S as [S|(k & -> & Hk & Hp)]; [discriminate|]. now split.
Qed.

Lemma lookup_In (db : table) (i : nat) (r : Embedding.t) :
  db !! i = Some r -> In r db.
Proof.
  intros H. apply list_elem_of_In. now apply list_elem_of_lookup_2 in H.
Qed.

(** A call that returns: the table keeps its rows of other keys where they
    are and grows by at most one row; when no row is returned the table is
    as before; a returned row is in the table, belongs to the entity and
    model asked for, and carries the hash of the normalized text, which is
    not empty. *)
Theorem get_or_create_embedding_returns
    (EMBEDDINGS_ENABLED : bool) (EMBEDDINGS_MODEL : string)
    (embedder : string -> result (list Q)) (json_dumps : list Q -> string)
    (now : Z) (db db' : table) (entity_type : string) (entity_id : Z)
    (text : string) (model : option string) (res : option Embedding.t) :
  get_or_create_embedding EMBEDDINGS_ENABLED EMBEDDINGS_MODEL embedder json_dumps
    now db entity_type entity_id text model = Ok (db', res) ->
  let model_name := model_or_default EMBEDDINGS_MODEL model in
  (List.length db <= List.length db' <= List.length db + 1)%nat
  /\ (forall k x, db !! k = Some x ->
                  of_key entity_type entity_id model_name x = false ->
                  db' !! k = Some x)
  /\ match res with
     | None => db' = db
     | Some row =>
         In row db'
         /\ of_key entity_type entity_id model_name row = true
         /\ Embedding.text_hash row = text_hash (normalize_text text) model_name
         /\ EMBEDDINGS_ENABLED = true
         /\ normalize_text text <> ""
     end.
Proof.
  intros H model_name. subst model_name.
  apply get_or_create_embedding_outcome in H.
  assert (Hne : forall s, nonempty s = true -> s <> "").
  { intros s Hs ->. discriminate Hs. }
  destruct H as [|i r En Hn Hl Hh Hv|i r v En Hn Hl Hi Hp Hv Hv'|v En Hn F Hv Hv'];
    unfold table in *.
  - split; [lia|]. split; [auto|reflexivity].
  - apply latest_lookup in Hl. destruct Hl as [Hi Hp].
    split; [lia|]. split; [auto|].
    split; [exact (lookup_In _ _ _ Hi)|]. auto.
  - split; [rewrite length_insert; lia|]. split; [|split; [|split; [|split]]].
    + intros k x Hk Hx. rewrite list_lookup_insert_ne; [exact Hk|].
      intros <-. congruence.
    + eapply lookup_In. apply list_lookup_insert_eq.
      now apply lookup_lt_Some in Hi.
    + exact Hp.
    + reflexivity.
    + auto.
  - split; [rewrite length_app; cbn; lia|]. split; [|split; [|split; [|split]]].
    + intros k x Hk _. now apply lookup_app_l_Some.
    + apply in_or_app. right. now left.
    + unfold of_key, created. cbn.
      now rewrite !String.eqb_refl, Z.eqb_refl.
    + reflexivity.
    + auto.
Qed.

Lemma get_or_create_embedding_returns_witness :
  let run :=
    get_or_create_embedding true "BAAI/bge-small-en-v1.5" samples.sample_embedder
      samples.sample_dumps 1 [] "resume" 7 "hello  world" None in
  exists db' row,
    run = Ok (db', Some row)
    /\ In row db'
    /\ Embedding.text_hash row
       = text_hash (normalize_text "hello  world") "BAAI/bge-small-en-v1.5".
Proof.
  intros run.
  destruct run as [[db' [row|]]|] eqn:E; try (vm_compute in E; discriminate E).
  exists db', row. split; [reflexivity|].
  destruct (get_or_create_embedding_returns _ _ _ _ _ _ _ _ _ _ _ _ E)
    as (_ & _ & Hin & _ & Hh & _).
  exact (conj Hin Hh).
Defined.

End embedding_rows.

(** ** Normalized text *)

Section normalize_text_properties.

Import py embeddings invariants.

Abbreviation squeeze := (sub_runs_aux is_space 1 [" "%char]).

Lemma chars_str (l : list ascii) : chars (str l) = l.
Proof. apply list_ascii_of_string_of_list_ascii. Qed.

Lemma str_chars (s : string) : str (chars s) = s.
Proof. apply string_of_list_ascii_of_string. Qed.

(** With [min = 1] only the emptiness of the pending run matters. *)
Lemma squeeze_run (l : list ascii) :
  forall (c : ascii) (run : list ascii),
    squeeze (c :: run) l = squeeze [" "%char] l.
Proof.
  induction l as [|x l IH]; intros c run; cbn [sub_runs_aux]; [reflexivity|].
  destruct (is_space x); [|reflexivity].
  rewrite (IH x (c :: run)), (IH x [" "%char]). reflexivity.
Qed.

Lemma squeeze_space (c : ascii) (l : list ascii) :
  is_space c = true -> forall run, squeeze run (c :: l) = squeeze [" "%char] l.
Proof. intros Hc run. cbn [sub_runs_aux]. rewrite Hc. apply squeeze_run. Qed.

Lemma squeeze_other (c : ascii) (l : list ascii) :
  is_space c = false ->
  squeeze [] (c :: l) = c :: squeeze [] l
  /\ squeeze [" "%char] (c :: l) = " "%char :: c :: squeeze [] l.
Proof. intros Hc. cbn [sub_runs_aux]. rewrite Hc. split; reflexivity. Qed.

Lemma ends_well_tail (c : ascii) (l : list ascii) :
  ends_well (c :: l) -> ends_well l.
Proof.
  intros H h t E. apply (H h (t ++ [c])%list). cbn [rev]. now rewrite E.
Qed.

Lemma ends_well_single (c : ascii) : ends_well [c] -> is_space c = false.
Proof. intros H. now apply (H c []). Qed.

Lemma squeeze_clean (l : list ascii) :
  ends_well l ->
  clean_from false (squeeze [] l) = true
  /\ (l <> [] -> clean_from false (squeeze [" "%char] l) = true).
Proof.
  induction l as [|c l IH]; intros E.
  - split; [reflexivity|]. intros H. now destruct H.
  - specialize (IH (ends_well_tail _ _ E)). destruct IH as [IH1 IH2].
    destruct (is_space c) eqn:Hc.
    + assert (Hl : l <> []).
      { intros ->. apply ends_well_single in E. congruence. }
      rewrite !(squeeze_space c l Hc). split; [|intros _]; exact (IH2 Hl).
    + destruct (squeeze_other c l Hc) as [-> ->]. split; [|intros _].
      * cbn [clean_from]. now rewrite Hc.
      * cbn [clean_from]. rewrite Hc. exact IH1.
Qed.

Lemma drop_while_head (l : list ascii) :
  match drop_while is_space l with
  | [] => True
  | c :: _ => is_space c = false
  end.
Proof.
  induction l as [|c l IH]; cbn [drop_while]; [exact I|].
  destruct (is_space c) eqn:Hc; [exact IH|exact Hc].
Qed.

Lemma drop_while_suffix (l : list ascii) :
  exists k, l = (k ++ drop_while is_space l)%list.
Proof.
  induction l as [|c l [k IH]]; cbn [drop_while]; [now exists []|].
  destruct (is_space c); [|now exists []].
  exists (c :: k). cbn. now rewrite <- IH.
Qed.

Lemma drop_while_fixed (l : list ascii) :
  match l with [] => True | c :: _ => is_space c = false end ->
  drop_while is_space l = l.
Proof. destruct l as [|c l]; [reflexivity|]. cbn. now intros ->. Qed.

(** A stripped text is empty, or starts and ends with other characters
    than white space. *)
Lemma strip_by_shape (l : list ascii) :
  match strip_by is_space l with
  | [] => True
  | c :: _ => is_space c = false
  end
  /\ ends_well (strip_by is_space l).
Proof.
  unfold strip_by.
  pose proof (drop_while_head l) as Hd.
  set (d := drop_while is_space l) in *.
  pose proof (drop_while_head (rev d)) as He.
  destruct (drop_while_suffix (rev d)) as [k Hk].
  set (e := drop_while is_space (rev d)) in *.
  split.
  - assert (Ed : d = (rev e ++ rev k)%list).
    { rewrite <- rev_app_distr, <- Hk. now rewrite rev_involutive. }
    destruct (rev e) as [|c r]; [exact I|].
    rewrite Ed in Hd. exact Hd.
  - intros h t E. rewrite rev_involutive in E. rewrite E in He. exact He.
Qed.

Lemma clean_from_ends (l : list ascii) :
  forall prev, clean_from prev l = true -> ends_well l.
Proof.
  induction l as [|c l IH]; intros prev H h t E; [discriminate|].
  cbn [clean_from] in H.
  destruct l as [|c' l'].
  - cbn in E. injection E as <- <-.
    destruct (is_space c); [|reflexivity].
    cbn in H. now rewrite andb_false_r in H.
  - assert (H' : exists b, clean_from b (c' :: l') = true).
    { destruct (is_space c); [|now exists false].
      apply andb_prop in H. destruct H as [_ H]. now exists true. }
    destruct H' as [b H'].
    cbn [rev] in E.
    destruct (rev l' ++ [c'])%list as [|h' t'] eqn:R.
    { now destruct (rev l'). }
    cbn in E. injection E as <- <-.
    apply (IH b H' h' t'). cbn [rev]. exact R.
Qed.

Lemma squeeze_fixed (l : list ascii) :
  (forall prev, clean_from prev l = true -> squeeze [] l = l)
  /\ (clean_from true l = true -> squeeze [" "%char] l = " "%char :: l).
Proof.
  induction l as [|c l [IH1 IH2]]; (split; [intros prev H|intros H]).
  - reflexivity.
  - discriminate.
  - cbn [clean_from] in H. destruct (is_space c) eqn:Hc.
    + apply andb_prop in H. destruct H as [H Hl].
      apply andb_prop in H. destruct H as [Hsp _].
      apply Ascii.eqb_eq in Hsp. subst c.
      rewrite (squeeze_space _ l Hc). now apply IH2.
    + destruct (squeeze_other c l Hc) as [-> _]. f_equal. now apply (IH1 false).
  - cbn [clean_from] in H. destruct (is_space c) eqn:Hc.
    + cbn in H. now rewrite andb_false_r in H.
    + destruct (squeeze_other c l Hc) as [_ ->]. do 2 f_equal.
      now apply (IH1 false).
Qed.

Lemma strip_by_fixed (l : list ascii) :
  clean_from true l = true -> strip_by is_space l = l.
Proof.
  intros H. unfold strip_by.
  assert (Hh : drop_while is_space l = l).
  { apply drop_while_fixed. destruct l as [|c l]; [exact I|].
    cbn [clean_from] in H. destruct (is_space c); [|reflexivity].
    cbn in H. now rewrite andb_false_r in H. }
  rewrite Hh.
  pose proof (clean_from_ends l true H) as E.
  rewrite drop_while_fixed; [apply rev_involutive|].
  destruct (rev l) as [|h t] eqn:R; [exact I|]. now apply (E h t).
Qed.

Lemma normalize_text_chars (text : string) :
  chars (normalize_text text) = squeeze [] (strip_by is_space (chars text)).
Proof.
  unfold normalize_text, re_sub, strip. now rewrite !chars_str.
Qed.

Lemma normalize_text_fixed (s : string) :
  single_spaced s -> normalize_text s = s.
Proof.
  intros [->|H]; [reflexivity|].
  rewrite <- (str_chars (normalize_text s)), normalize_text_chars.
  rewrite (strip_by_fixed _ H), (proj1 (squeeze_fixed _) true H).
  apply str_chars.
Qed.

Lemma normalize_text_single_spaced (text : string) :
  single_spaced (normalize_text text).
Proof.
  unfold single_spaced. rewrite normalize_text_chars.
  destruct (strip_by_shape (chars text)) as [Hh He].
  destruct (strip_by is_space (chars text)) as [|c l] eqn:S.
  - left. unfold normalize_text, re_sub, strip. rewrite S. reflexivity.
  - right. destruct (squeeze_other c l Hh) as [-> _].
    cbn [clean_from]. rewrite Hh.
    apply (squeeze_clean l (ends_well_tail _ _ He)).
Qed.

Lemma normalize_text_twice (text : string) :
  normalize_text (normalize_text text) = normalize_text text.
Proof. apply normalize_text_fixed, normalize_text_single_spaced. Qed.

(** [normalize_text] yields a text whose only white space is single spaces
    between other characters, and leaves such a text as it is: normalizing
    twice is normalizing once, so the hash of a normalized text is that of
    the text normalized again. *)
Theorem normalize_text_idempotent (text model : string) :
  single_spaced (normalize_text text)
  /\ normalize_text (normalize_text text) = normalize_text text
  /\ text_hash (normalize_text (normalize_text text)) model
     = text_hash (normalize_text text) model
  /\ forall s, single_spaced s -> normalize_text s = s.
Proof.
  split; [apply normalize_text_single_spaced|].
  split; [apply normalize_text_twice|].
  split; [|exact normalize_text_fixed].
  now rewrite normalize_text_twice.
Qed.

End normalize_text_properties.

(** ** Which resume payload is read *)

Section payload_choice.

Import py json scoring_engine.

Variable json_loads : string -> option value.
Variable repr_other : value -> string.

Lemma select_raw_structured (structured_json ai ai' : option string) :
  truthy_str structured_json = true ->
  select_raw structured_json ai = select_raw structured_json ai'.
Proof. intros H. unfold select_raw. now rewrite H. Qed.

Lemma select_raw_fallback (structured_json ai : option string) :
  truthy_str structured_json = false ->
  select_raw structured_json ai = select_raw ai None.
Proof.
  intros H. unfold select_raw. rewrite H. cbn [truthy_str].
  now destruct (truthy_str ai).
Qed.

(** The three readers of the payload and the first note depend on the two
    payloads through [select_raw] and the test that both are missing. *)
Lemma score_application_by_raw
    (job_title job_description : option string)
    (job_required_skills : option (list string))
    (sj aj sj' aj' : option string) (semantic_score : Q)
    (ai_relevance_pct : option Z) :
  select_raw sj aj = select_raw sj' aj' ->
  negb (truthy_str sj) && negb (truthy_str aj)
  = negb (truthy_str sj') && negb (truthy_str aj') ->
  score_application json_loads repr_other job_title job_description
    job_required_skills sj aj semantic_score ai_relevance_pct
  = score_application json_loads repr_other job_title job_description
      job_required_skills sj' aj' semantic_score ai_relevance_pct.
Proof.
  intros Hraw Hnote.
  unfold score_application, extract_resume_skills,
    extract_resume_experience_text, extract_resume_education_text,
    extract_resume_section_text.
  rewrite Hraw, Hnote. reflexivity.
Qed.

(** A non-empty [structured_json] is the only payload read: the result of
    [score_application] does not depend on [ai_structured_json] then, also
    when [structured_json] is not valid JSON; and an absent or empty
    [structured_json] gives the result of passing the AI payload in its
    place. *)
Theorem score_application_prefers_structured
    (job_title job_description : option string)
    (job_required_skills : option (list string))
    (structured_json : option string) (semantic_score : Q)
    (ai_relevance_pct : option Z) :
  let score sj aj :=
    score_application json_loads repr_other job_title job_description
      job_required_skills sj aj semantic_score ai_relevance_pct in
  (truthy_str structured_json = true ->
   forall ai ai', score structured_json ai = score structured_json ai')
  /\ (truthy_str structured_json = false ->
      forall ai, score structured_json ai = score ai None).
Proof.
  intros score. subst score. cbv beta. split; intros H.
  - intros ai ai'. apply score_application_by_raw.
    + now apply select_raw_structured.
    + now rewrite H.
  - intros ai. apply score_application_by_raw.
    + now apply select_raw_fallback.
    + rewrite H. cbn [truthy_str negb andb]. now rewrite andb_true_r.
Qed.

End payload_choice.

(** ** Cosine similarity and the token fallback *)

Section cosine_symmetry.

Import py semantic_similarity semantic_similarity_db spec.

Lemma Qmult_swap (x y : Q) : (x * y)%Q = (y * x)%Q.
Proof.
  unfold Qmult. f_equal; [apply Z.mul_comm|apply Pos.mul_comm].
Qed.

Lemma accumulate_swap (a : list Q) :
  forall (b : list Q) (dot na nb : Q),
    fold_left accumulate (combine b a) (dot, nb, na)
    = let '(dot', na', nb') := fold_left accumulate (combine a b) (dot, na, nb) in
      (dot', nb', na').
Proof.
  induction a as [|x a IH]; intros [|y b] dot na nb; try reflexivity.
  cbn [combine fold_left accumulate].
  rewrite (Qmult_swap y x). apply IH.
Qed.

Lemma accumulate_dot_nonneg (a : list Q) :
  forall (b : list Q) (dot na nb : Q),
    Forall (fun x => 0 <= x)%Q a -> Forall (fun x => 0 <= x)%Q b ->
    (0 <= dot)%Q ->
    (0 <= fst (fst (fold_left accumulate (combine a b) (dot, na, nb))))%Q.
Proof.
  induction a as [|x a IH]; intros [|y b] dot na nb Ha Hb Hd; try exact Hd.
  cbn [combine fold_left accumulate].
  apply Forall_cons in Ha. destruct Ha as [Hx Ha].
  apply Forall_cons in Hb. destruct Hb as [Hy Hb].
  apply IH; [exact Ha|exact Hb|]. nra.
Qed.

Section with_sqrt.

Variable sqrt : Q -> Q.

Lemma cosine_similarity_swap (a b : list Q) :
  cosine_similarity sqrt a b = cosine_similarity sqrt b a.
Proof.
  destruct a as [|x a], b as [|y b]; try reflexivity.
  unfold cosine_similarity.
  rewrite (Nat.eqb_sym (List.length (y :: b))).
  destruct (negb _); [reflexivity|].
  rewrite (accumulate_swap (x :: a) (y :: b) 0 0 0).
  destruct (fold_left accumulate (combine (x :: a) (y :: b)) (0, 0, 0)%Q)
    as [[dot na] nb].
  rewrite (orb_comm (Qle_bool nb 0)), (Qmult_swap (sqrt nb)). reflexivity.
Qed.

Hypothesis sqrt_pos : forall x, (0 < x)%Q -> (0 < sqrt x)%Q.

Lemma float_div_pos (x y : Q) :
  (0 < y)%Q -> float_div x y = Ok (x / y)%Q.
Proof.
  intros Hy. unfold float_div.
  destruct (Qeq_bool y 0) eqn:E; [|reflexivity].
  apply Qeq_bool_iff in E. lra.
Qed.

Lemma cosine_similarity_returns (a b : list Q) :
  exists q, cosine_similarity sqrt a b = Ok q
            /\ (Forall (fun x => 0 <= x)%Q a -> Forall (fun x => 0 <= x)%Q b ->
                (0 <= q)%Q).
Proof.
  destruct a as [|x a]; [exists 0%Q; split; [reflexivity|intros; lra]|].
  destruct b as [|y b]; [exists 0%Q; split; [reflexivity|intros; lra]|].
  unfold cosine_similarity.
  destruct (negb _); [exists 0%Q; split; [reflexivity|intros; lra]|].
  pose proof (accumulate_dot_nonneg (x :: a) (y :: b) 0 0 0) as Hd.
  destruct (fold_left accumulate (combine (x :: a) (y :: b)) (0, 0, 0)%Q)
    as [[dot na] nb].
  cbn [fst] in Hd.
  destruct (Qle_bool na 0) eqn:Ea;
    [exists 0%Q; split; [reflexivity|intros; lra]|].
  destruct (Qle_bool nb 0) eqn:Eb;
    [exists 0%Q; split; [reflexivity|intros; lra]|].
  cbn [orb].
  assert (Ha : (0 < na)%Q).
  { apply Qnot_le_lt. intros H. apply Qle_bool_iff in H. congruence. }
  assert (Hb : (0 < nb)%Q).
  { apply Qnot_le_lt. intros H. apply Qle_bool_iff in H. congruence. }
  pose proof (sqrt_pos na Ha) as Sa. pose proof (sqrt_pos nb Hb) as Sb.
  assert (Hp : (0 < sqrt na * sqrt nb)%Q) by nra.
  rewrite (float_div_pos _ _ Hp). eexists. split; [reflexivity|].
  intros Fa Fb. specialize (Hd Fa Fb ltac:(lra)).
  generalize dependent (sqrt na * sqrt nb)%Q. intros p Hp.
  apply Qle_shift_div_l; [exact Hp|lra].
Qed.


End with_sqrt.


End cosine_symmetry.

(** ** Similarity of a resume and a job *)

Section similarity_properties.

Import py json embeddings semantic_similarity semantic_similarity_db.

Variable sqrt : Q -> Q.
Variable py_hash : string -> Z.
Variable EMBEDDINGS_ENABLED : bool.
Variable EMBEDDINGS_MODEL : string.
Variable embedder : string -> result (list Q).
Variable json_dumps : list Q -> string.
Variable json_loads : string -> option value.
Variable float_of_str : string -> option Q.

Abbreviation goc' :=
  (get_or_create_embedding EMBEDDINGS_ENABLED EMBEDDINGS_MODEL embedder json_dumps).
Abbreviation similarity :=
  (resume_job_similarity sqrt py_hash EMBEDDINGS_ENABLED EMBEDDINGS_MODEL embedder
     json_dumps json_loads float_of_str).

Lemma count_word_pos (w : string) (counts : list (string * Z)) :
  Forall (fun wc => 0 < snd wc) counts ->
  Forall (fun wc => 0 < snd wc) (count_word w counts).
Proof.
  induction counts as [|[x n] counts IH]; intros H; cbn [count_word].
  - apply Forall_singleton. cbn. lia.
  - apply Forall_cons in H. destruct H as [Hn H]. cbn in Hn.
    destruct (String.eqb x w); apply Forall_cons; split; cbn; auto; lia.
Qed.

Lemma Counter_pos (l : list string) :
  Forall (fun wc => 0 < snd wc) (Counter l).
Proof.
  unfold Counter.
  assert (G : forall counts,
             Forall (fun wc => 0 < snd wc) counts ->
             Forall (fun wc => 0 < snd wc)
                    (fold_left (fun counts w => count_word w counts) l counts)).
  { induction l as [|w l IH]; intros counts H; [exact H|].
    cbn [fold_left]. apply IH. now apply count_word_pos. }
  apply G. constructor.
Qed.

Lemma bump_nonneg (v : list Q) (wc : string * Z) :
  Forall (fun x => 0 <= x)%Q v -> 0 < snd wc ->
  Forall (fun x => 0 <= x)%Q (bump py_hash v wc)
  /\ List.length (bump py_hash v wc) = List.length v.
Proof.
  intros Hv Hc. unfold bump.
  destruct (v !! _) as [x|] eqn:E; [|now split].
  split; [|apply length_insert].
  apply Forall_insert; [exact Hv|].
  pose proof (Forall_lookup_1 _ _ _ _ Hv E) as Hx. cbn in Hx.
  assert (0 <= inject_Z (snd wc))%Q.
  { rewrite <- (Zle_Qle 0). lia. }
  lra.
Qed.

Lemma hashed_nonneg (words : list string) :
  Forall (fun x => 0 <= x)%Q (hashed py_hash words)
  /\ List.length (hashed py_hash words) = Z.to_nat dim.
Proof.
  unfold hashed.
  assert (G : forall counts v,
             Forall (fun wc => 0 < snd wc) counts ->
             Forall (fun x => 0 <= x)%Q v ->
             Forall (fun x => 0 <= x)%Q (fold_left (bump py_hash) counts v)
             /\ List.length (fold_left (bump py_hash) counts v) = List.length v).
  { induction counts as [|wc counts IH]; intros v Hc Hv; [now split|].
    cbn [fold_left]. apply Forall_cons in Hc. destruct Hc as [Hc Hcs].
    destruct (bump_nonneg v wc Hv Hc) as [Hb Hl].
    destruct (IH _ Hcs Hb) as [H1 H2]. split; [exact H1|congruence]. }
  destruct (G (Counter words) (replicate (Z.to_nat dim) 0%Q) (Counter_pos words))
    as [H1 H2].
  - apply Forall_replicate. lra.
  - split; [exact H1|]. now rewrite H2, length_replicate.
Qed.





Lemma model_or_default_twice (model : option string) :
  model_or_default EMBEDDINGS_MODEL (Some (model_or_default EMBEDDINGS_MODEL model))
  = model_or_default EMBEDDINGS_MODEL model.
Proof.
  unfold model_or_default.
  destruct model as [m|]; [destruct (nonempty m) eqn:E; [now rewrite E|]|];
    now destruct (nonempty EMBEDDINGS_MODEL).
Qed.

Lemma latest_none (db : table) (et : string) (eid : Z) (mn : string) :
  List.filter (of_key et eid mn) db = [] -> latest db et eid mn = None.
Proof.
  intros F. pose proof (latest_from_spec (of_key et eid mn) db 0 None) as S.
  fold (latest db et eid mn) in S.
  destruct (latest db et eid mn) as [[j r]|]; [|reflexivity].
  destruct S as [S|(k & _ & Hk & Hp)]; [discriminate|].
  pose proof (filter_nonempty_lookup _ _ _ _ Hk Hp) as L.
  rewrite F in L. cbn in L. lia.
Qed.

(** With no row of the key, a text that is not blank is embedded and its
    row appended. *)
Lemma get_or_create_embedding_insert (now : Z) (db : table) (et : string)
    (eid : Z) (text : string) (model : option string) (v : list Q) :
  EMBEDDINGS_ENABLED = true ->
  normalize_text text <> "" ->
  List.filter (of_key et eid (model_or_default EMBEDDINGS_MODEL model)) db = [] ->
  embedder (normalize_text text) = Ok v -> v <> [] ->
  let row :=
    created json_dumps et eid (model_or_default EMBEDDINGS_MODEL model)
      (text_hash (normalize_text text) (model_or_default EMBEDDINGS_MODEL model))
      v now in
  goc' now db et eid text model = Ok ((db ++ [row])%list, Some row).
Proof.
  intros En Hn F Hv Hne row. subst row. unfold get_or_create_embedding.
  assert (Hn' : nonempty (normalize_text text) = true).
  { unfold nonempty. destruct (String.eqb_spec (normalize_text text) "");
      [contradiction|reflexivity]. }
  rewrite En, Hn', (latest_none _ _ _ _ F). cbn [negb].
  unfold embed_text. cbn [negb]. rewrite normalize_text_twice, Hn', Hv.
  cbn [negb mbind result_bind bind].
  destruct v; [contradiction|reflexivity].
Qed.

Lemma mapM_py_float (v : list Q) :
  mapM (py_float float_of_str) (map JFloat v) = Some v.
Proof.
  induction v as [|x v IH]; [reflexivity|].
  cbn [map mapM]. cbn. rewrite IH. reflexivity.
Qed.

Lemma vector_from_row_created (et : string) (eid : Z) (mn h : string)
    (v : list Q) (now : Z) :
  nonempty (json_dumps v) = true ->
  json_loads (json_dumps v) = Some (JList (map JFloat v)) ->
  vector_from_row json_loads float_of_str (created json_dumps et eid mn h v now)
  = v.
Proof.
  intros Hn Hl. unfold vector_from_row. cbn [created Embedding.vector_json].
  now rewrite Hn, Hl, mapM_py_float.
Qed.

(** The first call for a resume and a job: with embeddings enabled, texts
    that are not blank, no stored row for either, and [json.loads] reading
    back the two stored vectors, the two embeddings of the normalized texts
    are stored, resume first, and the score is their cosine similarity
    brought into [0,1]. *)
Theorem resume_job_similarity_first_call (now now' : Z) (db : table)
    (resume_id job_id : Z) (resume_text job_text : string)
    (model : option string) (rv jv : list Q) :
  let model_name := model_or_default EMBEDDINGS_MODEL model in
  EMBEDDINGS_ENABLED = true ->
  normalize_text resume_text <> "" ->
  normalize_text job_text <> "" ->
  List.filter (of_key "resume" resume_id model_name) db = [] ->
  List.filter (of_key "job" job_id model_name) db = [] ->
  embedder (normalize_text resume_text) = Ok rv -> rv <> [] ->
  embedder (normalize_text job_text) = Ok jv -> jv <> [] ->
  nonempty (json_dumps rv) = true ->
  nonempty (json_dumps jv) = true ->
  json_loads (json_dumps rv) = Some (JList (map JFloat rv)) ->
  json_loads (json_dumps jv) = Some (JList (map JFloat jv)) ->
  similarity now now' db resume_id job_id resume_text job_text model
  = (score ← cosine_similarity sqrt rv jv;
     Ok ((db ++ [ created json_dumps "resume" resume_id model_name
                    (text_hash (normalize_text resume_text) model_name) rv now;
                  created json_dumps "job" job_id model_name
                    (text_hash (normalize_text job_text) model_name) jv now' ])%list,
         clamp_score score)).
Proof.
  intros model_name En Hr Hj Fr Fj Er Nr Ej Nj Dr Dj Lr Lj.
  subst model_name. unfold resume_job_similarity. cbv zeta.
  pose proof (get_or_create_embedding_insert now db "resume" resume_id resume_text
                (Some (model_or_default EMBEDDINGS_MODEL model)) rv En Hr) as G1.
  cbv zeta in G1. rewrite !model_or_default_twice in G1.
  rewrite (G1 Fr Er Nr). cbn [mbind result_bind bind].
  match goal with
  | |- context [goc' now' ?d "job" job_id job_text _] =>
      pose proof (get_or_create_embedding_insert now' d "job" job_id job_text
                    (Some (model_or_default EMBEDDINGS_MODEL model)) jv En Hj) as G2
  end.
  cbv zeta in G2. rewrite !model_or_default_twice in G2.
  rewrite G2; [|now rewrite List.filter_app, Fj|exact Ej|exact Nj].
  cbn [mbind result_bind bind].
  rewrite !vector_from_row_created by assumption.
  rewrite <- app_assoc. reflexivity.
Qed.

Hypothesis sqrt_pos : forall x, (0 < x)%Q -> (0 < sqrt x)%Q.

Lemma fallback_semantic_similarity_returns (resume_text job_text : string) :
  exists q,
    fallback_semantic_similarity sqrt py_hash resume_text job_text = Ok q
    /\ fallback_semantic_similarity sqrt py_hash job_text resume_text = Ok q
    /\ (0 <= q)%Q.
Proof.
  unfold fallback_semantic_similarity.
  rewrite (orb_comm (negb (nonempty (strip (lower job_text))))).
  destruct (_ || _); [exists 0%Q; repeat split; lra|].
  destruct (toks (lower resume_text)) as [|r ra] eqn:R;
    destruct (toks (lower job_text)) as [|j ja] eqn:J;
    try (exists 0%Q; repeat split; lra).
  destruct (cosine_similarity_returns sqrt sqrt_pos (hashed py_hash (r :: ra))
              (hashed py_hash (j :: ja))) as (q & Hq & Hn).
  exists q. split; [exact Hq|]. split.
  - now rewrite cosine_similarity_swap.
  - apply Hn; apply hashed_nonneg.
Qed.

(** The token fallback returns a score that is not negative, the same for
    the two orders of its arguments, and 0.0 when a text is blank; the two
    vectors it compares have [dim] entries, none of them negative. *)
Theorem fallback_semantic_similarity_nonneg (resume_text job_text : string) :
  (exists q,
     fallback_semantic_similarity sqrt py_hash resume_text job_text = Ok q
     /\ fallback_semantic_similarity sqrt py_hash job_text resume_text = Ok q
     /\ (0 <= q)%Q)
  /\ (strip (lower resume_text) = "" \/ strip (lower job_text) = "" ->
      fallback_semantic_similarity sqrt py_hash resume_text job_text = Ok 0%Q)
  /\ forall words,
       List.length (hashed py_hash words) = Z.to_nat dim
       /\ Forall (fun x => 0 <= x)%Q (hashed py_hash words).
Proof.
  split; [apply fallback_semantic_similarity_returns|]. split.
  - unfold fallback_semantic_similarity. intros [-> | ->]; [reflexivity|].
    now rewrite orb_true_r.
  - intros words. destruct (hashed_nonneg words). now split.
Qed.


End similarity_properties.

Section similarity_examples.

Import py json embeddings semantic_similarity semantic_similarity_db samples.

Abbreviation sample_similarity :=
  (resume_job_similarity sqrt_newton sample_hash true "BAAI/bge-small-en-v1.5"
     sample_embedder sample_dumps sample_vector_loads (fun _ => None)).


Lemma resume_job_similarity_first_call_witness :
  let model_name := "BAAI/bge-small-en-v1.5" in
  let rv := [inject_Z 16 / 100; 1 # 4]%Q in
  let jv := [inject_Z 14 / 100; 1 # 4]%Q in
  sample_similarity 1 2 [] 7 3 "python  developer" " backend python" None
  = (score ← cosine_similarity sqrt_newton rv jv;
     Ok ([ created sample_dumps "resume" 7 model_name
             (text_hash "python developer" model_name) rv 1;
           created sample_dumps "job" 3 model_name
             (text_hash "backend python" model_name) jv 2 ],
         clamp_score score)).
Proof.
  intros model_name rv jv.
  apply (resume_job_similarity_first_call sqrt_newton sample_hash true
           "BAAI/bge-small-en-v1.5" sample_embedder sample_dumps
           sample_vector_loads (fun _ => None) 1 2 [] 7 3 "python  developer"
           " backend python" None rv jv);
    try reflexivity; intros H; vm_compute in H; discriminate H.
Defined.

Lemma fallback_semantic_similarity_nonneg_witness :
  exists q,
    fallback_semantic_similarity sqrt_newton sample_hash
      "Python developer with SQL" "Backend developer, Python" = Ok q
    /\ fallback_semantic_similarity sqrt_newton sample_hash
         "Backend developer, Python" "Python developer with SQL" = Ok q
    /\ (0 <= q)%Q.
Proof.
  exact (proj1 (fallback_semantic_similarity_nonneg sqrt_newton sample_hash
                  sqrt_newton_pos "Python developer with SQL"
                  "Backend developer, Python")).
Defined.


End similarity_examples.

(** ** Sections of a resume *)

Section sections_properties.

Import py resume_parsing invariants.

Lemma _canonical_heading_names (line canon : string) :
  _canonical_heading line = Some canon ->
  In canon [ "skills"; "experience"; "education" ].
Proof.
  unfold _canonical_heading.
  destruct (negb (nonempty (_normalize_line line))); [discriminate|].
  destruct (negb (nonempty _)); [discriminate|].
  destruct (find _ _HEADING_ALIASES) as [ca|] eqn:F; [|discriminate].
  cbn. intros [= <-]. apply find_some in F. destruct F as [F _].
  cbn in F. intuition (subst; cbn; auto).
Qed.

Lemma ascending_weaken (n : nat) (l : list (nat * string * string)) :
  forall lo lo', (lo' <= lo)%nat -> ascending lo n l -> ascending lo' n l.
Proof.
  destruct l as [|[[i c] h] rest]; cbn; intros lo lo' Hle H; [lia|].
  destruct H as [H1 H2]. split; [lia|exact H2].
Qed.

Lemma ascending_bound (n : nat) (l : list (nat * string * string)) :
  forall lo, ascending lo n l -> (lo <= n)%nat.
Proof.
  induction l as [|[[i c] h] rest IH]; cbn; intros lo H; [exact H|].
  destruct H as [H1 H2]. apply IH in H2. lia.
Qed.

Lemma ascending_sublist (n : nat) (l' l : list (nat * string * string)) :
  sublist l' l -> forall lo, ascending lo n l -> ascending lo n l'.
Proof.
  induction 1 as [|[[i c] h] l1 l2 _ IH|[[i c] h] l1 l2 _ IH]; intros lo H.
  - exact H.
  - cbn in *. destruct H as [H1 H2]. split; [exact H1|now apply IH].
  - cbn in H. destruct H as [H1 H2].
    apply (ascending_weaken n l1 (S i)); [lia|now apply IH].
Qed.

Lemma hits_from_spec (lines : list string) :
  forall i,
    ascending i (i + List.length lines) (hits_from i lines)
    /\ Forall (fun hit =>
                 exists k, fst (fst hit) = (i + k)%nat
                           /\ heading_at lines k (snd (fst hit)) (snd hit))
              (hits_from i lines).
Proof.
  induction lines as [|line lines IH]; intros i; cbn [hits_from List.length].
  - split; [cbn; lia|constructor].
  - destruct (IH (S i)) as [A F].
    assert (F' : Forall (fun hit =>
                           exists k, fst (fst hit) = (i + k)%nat
                                     /\ heading_at (line :: lines) k
                                          (snd (fst hit)) (snd hit))
                        (hits_from (S i) lines)).
    { eapply Forall_impl; [exact F|]. intros [[j c] h] (k & Hk & Hh).
      exists (S k). split; [cbn in *; lia|exact Hh]. }
    replace (i + S (List.length lines))%nat with (S i + List.length lines)%nat
      by lia.
    destruct (_canonical_heading line) as [canon|] eqn:C.
    + split; [cbn; split; [lia|exact A]|].
      apply Forall_cons. split; [|exact F'].
      exists 0%nat. split; [cbn; lia|]. exists line. now repeat split.
    + split; [|exact F']. apply (ascending_weaken _ _ (S i)); [lia|exact A].
Qed.

Lemma dedup_step_cases (dedup : list (nat * string * string))
    (hit : nat * string * string) :
  dedup_step dedup hit = dedup \/ dedup_step dedup hit = (dedup ++ [hit])%list.
Proof.
  unfold dedup_step. destruct hit as [[i c] h].
  destruct (last dedup) as [[[i0 c0] h0]|]; [|now right].
  destruct (_ && _); [now left|now right].
Qed.

Lemma dedup_sublist (hits : list (nat * string * string)) :
  forall acc, sublist (fold_left dedup_step hits acc) (acc ++ hits)%list.
Proof.
  induction hits as [|hit hits IH]; intros acc; cbn [fold_left].
  - now rewrite app_nil_r.
  - destruct (dedup_step_cases acc hit) as [-> | ->].
    + etransitivity; [apply IH|].
      apply sublist_app; [reflexivity|]. now apply sublist_cons.
    + specialize (IH (acc ++ [hit])%list). now rewrite <- app_assoc in IH.
Qed.

Lemma dict_set_keys {A : Type} (k : string) (v : A) (d : list (string * A)) :
  NoDup (map fst d) -> NoDup (map fst (dict_set k v d))
  /\ forall x, In x (map fst (dict_set k v d)) -> x = k \/ In x (map fst d).
Proof.
  induction d as [|[k' v'] d IH]; cbn [dict_set map fst]; intros H.
  - split; [apply NoDup_singleton|]. intros x [<-|[]]. now left.
  - apply NoDup_cons in H. destruct H as [Hk H].
    destruct (String.eqb_spec k' k) as [E|E]; cbn [map fst].
    + split; [apply NoDup_cons; now split|]. intros x Hx. now right.
    + destruct (IH H) as [IH1 IH2]. split.
      * apply NoDup_cons. split; [|exact IH1].
        intros Hin. apply list_elem_of_In in Hin. apply IH2 in Hin.
        destruct Hin as [Hin|Hin]; [congruence|].
        apply Hk. now apply list_elem_of_In.
      * intros x [<-|Hx]; [right; now left|].
        apply IH2 in Hx. destruct Hx; [now left|right; now right].
Qed.

Lemma dict_set_Forall {A : Type} (P : string -> A -> Prop) (k : string) (v : A)
    (d : list (string * A)) :
  P k v -> Forall (fun kv => P (fst kv) (snd kv)) d ->
  Forall (fun kv => P (fst kv) (snd kv)) (dict_set k v d).
Proof.
  intros Hv. induction d as [|[k' v'] d IH]; cbn [dict_set]; intros H.
  - now apply Forall_singleton.
  - apply Forall_cons in H. destruct H as [H1 H2].
    destruct (String.eqb_spec k' k) as [->|E];
      apply Forall_cons; split; auto.
Qed.

Lemma spans_from_spec (lines : list string)
    (dedup : list (nat * string * string)) :
  forall lo spans,
    ascending lo (List.length lines) dedup ->
    Forall (fun hit => heading_at lines (fst (fst hit)) (snd (fst hit)) (snd hit))
           dedup ->
    NoDup (map fst spans) ->
    Forall (fun kv => span_ok lines (fst kv) (snd kv)) spans ->
    NoDup (map fst (spans_from (List.length lines) dedup spans))
    /\ Forall (fun kv => span_ok lines (fst kv) (snd kv))
              (spans_from (List.length lines) dedup spans).
Proof.
  induction dedup as [|[[i canon] hline] rest IH]; intros lo spans A F N Hs;
    cbn [spans_from]; [now split|].
  cbn [ascending] in A. destruct A as [Hlo A].
  apply Forall_cons in F. destruct F as [Hh F]. cbn [fst snd] in Hh.
  apply (IH (S i)); [exact A|exact F|now apply dict_set_keys|].
  apply (dict_set_Forall (span_ok lines)); [|exact Hs].
  assert (E : (S i <= match rest with
                      | (next_idx, _, _) :: _ => next_idx
                      | [] => List.length lines
                      end <= List.length lines)%nat).
  { destruct rest as [|[[j c'] h'] rest'].
    - cbn in A. lia.
    - cbn [ascending] in A. destruct A as [Hj A].
      apply ascending_bound in A. lia. }
  unfold span_ok. cbn [span_start span_end heading_line].
  destruct Hh as (line & Hl & Hc & Hn).
  split; [exact (_canonical_heading_names _ _ Hc)|].
  split; [lia|]. split; [lia|].
  replace (i + 1 - 1)%nat with i by lia. now exists line.
Qed.

Lemma strip_strip (s : string) : strip (strip s) = strip s.
Proof.
  unfold strip. rewrite chars_str. f_equal.
  destruct (strip_by_shape (chars s)) as [Hh He].
  set (l := strip_by is_space (chars s)) in *.
  unfold strip_by at 1.
  rewrite (drop_while_fixed l Hh).
  rewrite drop_while_fixed; [apply rev_involutive|].
  destruct (rev l) as [|h t] eqn:R; [exact I|]. now apply (He h t).
Qed.

(** The sections that [detect_sections] finds are among skills, experience
    and education, one entry each; every span starts on the line after a
    heading of its section, does not end before it starts, and ends within
    the lines of the text.  [extract_section_texts] has the three keys, and
    its texts have no white space around them. *)
Theorem detect_sections_spans (text : string) :
  NoDup (map fst (detect_sections text))
  /\ Forall (fun kv => span_ok (lines_of text) (fst kv) (snd kv))
            (detect_sections text)
  /\ map fst (extract_section_texts text) = [ "skills"; "experience"; "education" ]
  /\ Forall (fun kv => strip (snd kv) = snd kv) (extract_section_texts text).
Proof.
  unfold detect_sections.
  destruct (hits_from_spec (lines_of text) 0) as [A F].
  pose proof (dedup_sublist (hits_from 0 (lines_of text)) []) as Sub.
  cbn [app] in Sub.
  destruct (spans_from_spec (lines_of text)
              (fold_left dedup_step (hits_from 0 (lines_of text)) []) 0 [])
    as [N Hs].
  - apply (ascending_sublist _ _ _ Sub). exact A.
  - rewrite Forall_forall in *. intros hit Hin.
    destruct (F hit (elem_of_sublist _ _ _ Hin Sub)) as (k & Hk & Hh).
    cbn in Hk. now rewrite Hk.
  - constructor.
  - constructor.
  - split; [exact N|]. split; [exact Hs|]. split; [reflexivity|].
    unfold extract_section_texts.
    repeat (apply Forall_cons; split;
            [cbn [snd]; destruct (dict_get _ _);
             [apply strip_strip|reflexivity]|]).
    constructor.
Qed.

Lemma split_primary_secondary_cut (skills : list string) (skills_text : string) :
  (fst (split_primary_secondary skills skills_text)
   ++ snd (split_primary_secondary skills skills_text))%list = skills
  /\ (List.length (fst (split_primary_secondary skills skills_text)) <= 8)%nat.
Proof.
  unfold split_primary_secondary.
  destruct skills as [|x skills]; [cbn; split; [reflexivity|lia]|].
  destruct (nonempty (strip skills_text)); cbn [fst snd].
  - split; [apply firstn_skipn|]. rewrite length_take. lia.
  - split; [reflexivity|cbn; lia].
Qed.

(** The primary and the secondary skills are the skills, in their order,
    cut in two; at most eight are primary, none without a skills section,
    and with one at least one, and three when there are three. *)
Theorem split_primary_secondary_partition (skills : list string)
    (skills_text : string) :
  let '(primary, secondary) := split_primary_secondary skills skills_text in
  (primary ++ secondary)%list = skills
  /\ (List.length primary <= 8)%nat
  /\ (strip skills_text = "" -> primary = [])
  /\ (strip skills_text <> "" ->
      (Nat.min 3 (List.length skills) <= List.length primary)%nat).
Proof.
  unfold split_primary_secondary.
  destruct skills as [|x skills]; [cbn; repeat split; lia|].
  set (l := x :: skills).
  destruct (nonempty (strip skills_text)) eqn:E.
  - set (n := Z.to_nat (Z.min 8 (Z.max 3 (Z.of_nat (List.length l) / 3)))).
    assert (Hn : (3 <= n <= 8)%nat) by (unfold n; lia).
    split; [apply firstn_skipn|]. rewrite length_take.
    split; [lia|]. split; [|lia].
    intros H. rewrite H in E. discriminate E.
  - split; [reflexivity|]. split; [cbn; lia|]. split; [reflexivity|].
    intros H. exfalso. apply H. unfold nonempty in E.
    apply negb_false_iff in E. now apply String.eqb_eq.
Qed.

End sections_properties.

(** ** Skill items *)

Section skill_items_properties.

Import py resume_parsing invariants.

Lemma length_chars (s : string) : List.length (chars s) = String.length s.
Proof.
  unfold chars. induction s as [|c s IH]; cbn; [reflexivity|now rewrite IH].
Qed.

Lemma chars_app (a b : string) : chars (a ++ b) = (chars a ++ chars b)%list.
Proof.
  unfold chars. induction a as [|c a IH]; [reflexivity|].
  change (String c a ++ b) with (String c (a ++ b)).
  cbn [list_ascii_of_string app]. f_equal. exact IH.
Qed.

(** A word found by [re.findall(r"[class]{min,}", s)] has at least [min]
    characters, all of the class. *)
Lemma find_runs_aux_words (p : ascii -> bool) (min : nat) (l : list ascii) :
  forall run,
    Forall (fun c => p c = true) run ->
    Forall (fun w => (min <= String.length w)%nat
                     /\ Forall (fun c => p c = true) (chars w))
           (find_runs_aux p min run l).
Proof.
  assert (Hf : forall run,
             Forall (fun c => p c = true) run ->
             Forall (fun w => (min <= String.length w)%nat
                              /\ Forall (fun c => p c = true) (chars w))
                    (flush_find min run)).
  { intros run Hr. unfold flush_find.
    destruct (min <=? List.length run)%nat eqn:E; [|constructor].
    destruct run as [|c run]; [constructor|].
    apply Forall_singleton. apply Nat.leb_le in E.
    rewrite <- length_chars, chars_str, length_rev. split; [exact E|].
    now apply Forall_rev. }
  induction l as [|c l IH]; intros run Hr; cbn [find_runs_aux].
  - now apply Hf.
  - destruct (p c) eqn:Pc.
    + apply IH. now apply Forall_cons.
    + apply Forall_app. split; [now apply Hf|]. apply IH. constructor.
Qed.

Lemma join_space_chars (words : list string) :
  Forall (fun w => Forall (fun c => token_char c = true) (chars w)) words ->
  Forall (fun c => token_char c || Ascii.eqb c " " = true)
         (chars (join " " words)).
Proof.
  induction words as [|w words IH]; intros H; [constructor|].
  apply Forall_cons in H. destruct H as [Hw H].
  assert (Hw' : Forall (fun c => token_char c || Ascii.eqb c " " = true) (chars w)).
  { eapply Forall_impl; [exact Hw|]. cbn. intros c ->. reflexivity. }
  destruct words as [|w' words]; [exact Hw'|].
  change (join " " (w :: w' :: words)) with (w ++ " " ++ join " " (w' :: words)).
  rewrite !chars_app. apply Forall_app. split; [exact Hw'|].
  apply Forall_app. split; [|now apply IH].
  apply Forall_singleton. now rewrite orb_true_r.
Qed.

Lemma join_space_length (w : string) (words : list string) :
  (String.length w <= String.length (join " " (w :: words)))%nat.
Proof.
  destruct words as [|w' words]; [cbn; lia|].
  change (join " " (w :: w' :: words)) with (w ++ " " ++ join " " (w' :: words)).
  rewrite <- !length_chars, chars_app, length_app. lia.
Qed.

Lemma add_part_tokens (tokens : list string) (p : string) :
  Forall (fun t => (2 <= String.length t)%nat
                   /\ Forall (fun c => token_char c || Ascii.eqb c " " = true)
                             (chars t)) tokens ->
  Forall (fun t => (2 <= String.length t)%nat
                   /\ Forall (fun c => token_char c || Ascii.eqb c " " = true)
                             (chars t)) (add_part tokens p).
Proof.
  intros H. unfold add_part.
  pose proof (find_runs_aux_words word_skill_char 2 (chars p) [] ltac:(constructor))
    as W.
  fold (re_findall word_skill_char 2 p) in W.
  destruct (re_findall word_skill_char 2 p) as [|w words]; [exact H|].
  destruct (_ && _); apply Forall_app; (split; [exact H|]).
  - apply Forall_singleton. split.
    + apply Forall_cons in W. destruct W as [[Hw _] _].
      pose proof (join_space_length w words). lia.
    + apply join_space_chars. eapply Forall_impl; [exact W|].
      cbn. intros x [_ Hx]. exact Hx.
  - eapply Forall_impl; [exact W|]. cbn. intros x [Hl Hx].
    split; [exact Hl|]. eapply Forall_impl; [exact Hx|].
    cbn. intros c Hc. unfold word_skill_char in Hc. now rewrite Hc.
Qed.

(** Every skill item has at least two characters, all of them letters,
    digits, [+], [#], [.] or spaces; the items come from the skills section
    alone when it is not blank, and there is none when both texts are
    blank. *)
Theorem extract_skill_items_tokens (skills_text full_text : string) :
  Forall (fun t => (2 <= String.length t)%nat
                   /\ Forall (fun c => token_char c || Ascii.eqb c " " = true)
                             (chars t))
         (extract_skill_items skills_text full_text)
  /\ (strip skills_text <> "" ->
      forall other,
        extract_skill_items skills_text full_text
        = extract_skill_items skills_text other)
  /\ (strip skills_text = "" -> strip full_text = "" ->
      extract_skill_items skills_text full_text = []).
Proof.
  split; [|split].
  - unfold extract_skill_items. destruct (negb (nonempty _)); [constructor|].
    match goal with
    | |- Forall _ (fold_left add_part ?parts []) => generalize parts
    end.
    assert (G : forall parts tokens,
               Forall (fun t => (2 <= String.length t)%nat
                                /\ Forall (fun c => token_char c
                                                    || Ascii.eqb c " " = true)
                                          (chars t)) tokens ->
               Forall (fun t => (2 <= String.length t)%nat
                                /\ Forall (fun c => token_char c
                                                    || Ascii.eqb c " " = true)
                                          (chars t))
                      (fold_left add_part parts tokens)).
    { induction parts as [|p parts IH]; intros tokens H; [exact H|].
      cbn [fold_left]. apply IH. now apply add_part_tokens. }
    intros parts. apply G. constructor.
  - intros H other. unfold extract_skill_items.
    assert (E : nonempty (strip skills_text) = true).
    { unfold nonempty. destruct (String.eqb_spec (strip skills_text) "");
        [contradiction|reflexivity]. }
    now rewrite E.
  - intros H1 H2. unfold extract_skill_items. rewrite H1, H2. reflexivity.
Qed.

End skill_items_properties.

(** ** The parsed resume *)

Section parsed_resume.

Import py json resume_parsing invariants spec.

Variable AI_API_KEY : option string.
Variable LLM_ENDPOINT : option string.
Variable LLM_MODEL : option string.
Variable llm_request : list string -> llm_outcome.

Abbreviation refine :=
  (_maybe_refine_with_llm AI_API_KEY LLM_ENDPOINT LLM_MODEL llm_request).
Abbreviation parse :=
  (parse_resume_text AI_API_KEY LLM_ENDPOINT LLM_MODEL llm_request).

Lemma _maybe_refine_with_llm_spec (p p' : payload) (w : list string) :
  refine p = (p', w) ->
  version p' = version p
  /\ skills_text p' = skills_text p
  /\ skills_items p' = skills_items p
  /\ experience_text p' = experience_text p
  /\ education_text p' = education_text p
  /\ headings_found p' = headings_found p
  /\ warnings p' = warnings p
  /\ (llm_refined p' = true
      \/ (llm_refined p' = llm_refined p
          /\ skills_primary p' = skills_primary p
          /\ skills_secondary p' = skills_secondary p))
  /\ ~ In "No extracted_text available to parse." w
  /\ (env_set AI_API_KEY = false -> p' = p /\ w = []).
Proof.
  unfold _maybe_refine_with_llm.
  destruct (env_set AI_API_KEY); cbn [negb].
  2:{ intros [= <- <-]. repeat split; auto. }
  assert (D : forall P : Prop, false = false -> P -> true = false -> P)
    by (intros P _ _ H; discriminate H).
  destruct (_ || _).
  { intros [= <- <-]. repeat split; auto; try discriminate.
    intros [H|[]]. discriminate H. }
  destruct (llm_request (skills_items p)) as [status|primary secondary|];
    intros [= <- <-]; cbn; repeat split; auto; try discriminate.
  - intros [H|[]]. vm_compute in H. discriminate H.
  - intros [H|[]]. discriminate H.
Qed.

Lemma normalize_skills_nodup (items : list string) :
  NoDup (map lower (normalize_skills items)).
Proof.
  unfold normalize_skills.
  rewrite (normalize_loop_dedup items ∅ [] []).
  - cbn [app]. apply dedup_ci_keys.
  - intros k. split; [intros H; now apply not_elem_of_empty in H|intros []].
Qed.

Lemma blank_text_sections :
  (forall sec, In sec [ "skills"; "experience"; "education" ] ->
               default "" (dict_get sec (extract_section_texts "")) = "")
  /\ detect_sections "" = []
  /\ normalize_skills (extract_skill_items "" "") = [].
Proof.
  split; [|split; vm_compute; reflexivity].
  intros sec [<-|[<-|[<-|[]]]]; vm_compute; reflexivity.
Qed.

(** The payload of a parsed resume: its version is 1; no two skill items
    are equal up to case; without a refinement the primary and the
    secondary skills are the items cut in two, at most eight primary; the
    warning of a missing text is there exactly when the text is blank, and
    then the payload has no item, no section text and no heading; without
    an API key nothing is refined and nothing else is warned of. *)
Theorem parse_resume_text_payload (text : string) :
  let p := parse text in
  let missing := "No extracted_text available to parse." in
  version p = 1
  /\ NoDup (map lower (skills_items p))
  /\ (llm_refined p = false ->
      exists primary secondary,
        skills_primary p = str_list primary
        /\ skills_secondary p = str_list secondary
        /\ (primary ++ secondary)%list = skills_items p
        /\ (List.length primary <= 8)%nat)
  /\ (In missing (warnings p) <-> strip text = "")
  /\ (strip text = "" ->
      skills_items p = [] /\ skills_text p = "" /\ experience_text p = ""
      /\ education_text p = "" /\ headings_found p = [])
  /\ (env_set AI_API_KEY = false ->
      llm_refined p = false
      /\ warnings p = if nonempty (strip text) then [] else [missing]).
Proof.
  intros p missing. subst p missing. unfold parse_resume_text. cbv zeta.
  set (raw := strip text).
  set (st := default "" (dict_get "skills" (extract_section_texts raw))).
  set (items := normalize_skills (extract_skill_items st raw)).
  pose proof (split_primary_secondary_cut items st) as Cut.
  destruct (split_primary_secondary items st) as [primary secondary].
  cbn [fst snd] in Cut. destruct Cut as [Cut1 Cut2].
  match goal with
  | |- context [refine ?q] => set (p0 := q)
  end.
  destruct (refine p0) as [p1 w] eqn:R.
  destruct (_maybe_refine_with_llm_spec _ _ _ R)
    as (Hv & Ht & Hi & Hx & He & Hh & Hw & Hr & Hm & Hk).
  cbn [version skills_items skills_primary skills_secondary llm_refined
       warnings skills_text experience_text education_text headings_found].
  rewrite Hv, Hi, Ht, Hx, He, Hh, Hw. cbn [p0 version skills_items warnings app
    skills_text experience_text education_text headings_found].
  split; [reflexivity|]. split; [apply normalize_skills_nodup|].
  split; [|split; [|split]].
  - intros Hf. destruct Hr as [Hr|(_ & Hp & Hs)]; [congruence|].
    exists primary, secondary. rewrite Hp, Hs. now repeat split.
  - rewrite in_app_iff. unfold nonempty.
    destruct (String.eqb_spec raw "") as [E|E]; cbn [negb].
    + split; [intros _; exact E|intros _; right; now left].
    + split; [intros [H|[]]; contradiction|intros H; contradiction].
  - intros E. subst items st. fold raw in E. rewrite E.
    destruct blank_text_sections as (B1 & B2 & B3).
    rewrite !B1, B2, B3 by (cbn; tauto). repeat split; reflexivity.
  - intros K. destruct (Hk K) as [-> ->]. split; [reflexivity|].
    cbn [app]. now destruct (nonempty raw).
Qed.

End parsed_resume.

(** ** The parser on the text of the repository's test *)

Section parsing_checks.

Import py json resume_parsing.

(** [test_parse_resume_text_detects_sections_and_skills], with a hyphen for
    the dash of its last line, and no API key. *)
Example parse_resume_text_example :
  let text :=
    "Skills" ++ NL ++ "- Python, FastAPI, AWS" ++ NL ++ "- SQL" ++ NL ++ NL
    ++ "Experience" ++ NL
    ++ "Built REST APIs using FastAPI and deployed on AWS." ++ NL ++ NL
    ++ "Education" ++ NL ++ "University of Galway - MS Business Analytics" in
  let p := parse_resume_text None None None (fun _ => llm_exception) text in
  skills_items p = [ "Python"; "FastAPI"; "AWS"; "SQL" ]
  /\ skills_primary p = str_list [ "Python"; "FastAPI"; "AWS" ]
  /\ skills_secondary p = str_list [ "SQL" ]
  /\ experience_text p = "Built REST APIs using FastAPI and deployed on AWS."
  /\ headings_found p = [ "skills"; "experience"; "education" ]
  /\ warnings p = [].
Proof. vm_compute. repeat split. Qed.

(** Repeated headings: the later section of a name replaces the earlier
    one, in the place of the earlier one. *)
Example detect_sections_example :
  detect_sections
    ("Skills" ++ NL ++ "SKILLS:" ++ NL ++ "x" ++ NL ++ "Projects" ++ NL
     ++ "Tools" ++ NL)
  = [ ("skills", {| span_start := 5; span_end := 6; heading_line := "Tools" |});
      ("experience",
       {| span_start := 4; span_end := 4; heading_line := "Projects" |}) ].
Proof. vm_compute. reflexivity. Qed.

End parsing_checks.

(** ** Canonical skills *)

Section canonical_skills.

Import py json scoring_engine invariants.

Abbreviation squeeze := (sub_runs_aux is_space 1 [" "%char]).

Ltac by_cases_on c :=
  destruct c as [[] [] [] [] [] [] [] []]; vm_compute; intros;
  first [reflexivity|discriminate|congruence].

Lemma allowed_not_upper (c : ascii) :
  noise_char c = false -> is_upper c = false.
Proof. by_cases_on c. Qed.

Lemma allowed_space (c : ascii) :
  noise_char c = false -> is_space c = true -> c = " "%char.
Proof. by_cases_on c. Qed.

Lemma to_lower_not_upper (c : ascii) : is_upper (to_lower c) = false.
Proof. by_cases_on c. Qed.

Lemma word_char_allowed (c : ascii) :
  word_char c = true -> is_upper c = false ->
  noise_char c = false /\ is_space c = false.
Proof.
  destruct c as [[] [] [] [] [] [] [] []]; vm_compute; intros;
    first [discriminate|split; reflexivity].
Qed.

Lemma sub_runs_aux_none (p : ascii -> bool) (min : nat) (repl l : list ascii) :
  Forall (fun c => p c = false) l -> sub_runs_aux p min repl [] l = l.
Proof.
  induction l as [|c l IH]; intros H; [reflexivity|].
  apply Forall_cons in H. destruct H as [Hc H].
  cbn [sub_runs_aux]. rewrite Hc. cbn. now rewrite IH.
Qed.

Lemma sub_runs_aux_all (p : ascii -> bool) (Q : ascii -> Prop) (min : nat)
    (repl l : list ascii) :
  Forall Q repl -> forall run, Forall Q run -> Forall Q l ->
  Forall Q (sub_runs_aux p min repl run l).
Proof.
  intros Hr.
  assert (Hf : forall run, Forall Q run -> Forall Q (flush_sub min repl run)).
  { intros run H. unfold flush_sub. destruct run; [constructor|].
    destruct (_ <=? _)%nat; [exact Hr|now apply Forall_rev]. }
  induction l as [|c l IH]; intros run Hrun H; cbn [sub_runs_aux].
  - now apply Hf.
  - apply Forall_cons in H. destruct H as [Hc H].
    destruct (p c).
    + apply IH; [now apply Forall_cons|exact H].
    + apply Forall_app. split; [now apply Hf|].
      apply Forall_cons. split; [exact Hc|]. apply IH; [constructor|exact H].
Qed.

(** Replacing every run of the class keeps the other characters. *)
Lemma sub_runs_aux_one (p : ascii -> bool) (Q : ascii -> Prop)
    (repl l : list ascii) :
  Forall Q repl -> (forall c, p c = false -> Q c) ->
  forall run, Forall Q (sub_runs_aux p 1 repl run l).
Proof.
  intros Hr Hq.
  assert (Hf : forall run, Forall Q (flush_sub 1 repl run)).
  { intros [|c run]; [constructor|exact Hr]. }
  induction l as [|c l IH]; intros run; cbn [sub_runs_aux]; [apply Hf|].
  destruct (p c) eqn:Pc; [apply IH|].
  apply Forall_app. split; [apply Hf|].
  apply Forall_cons. split; [now apply Hq|apply IH].
Qed.

(** When the space is the only white space, replacing the runs of two or
    more by a space is replacing every run by a space. *)
Lemma collapse_squeeze (l : list ascii) :
  forall run,
    Forall (fun c => is_space c = true -> c = " "%char) run ->
    Forall (fun c => is_space c = true) run ->
    Forall (fun c => is_space c = true -> c = " "%char) l ->
    sub_runs_aux is_space 2 [" "%char] run l = squeeze run l.
Proof.
  assert (Hf : forall run,
             Forall (fun c => is_space c = true -> c = " "%char) run ->
             Forall (fun c => is_space c = true) run ->
             flush_sub 2 [" "%char] run = flush_sub 1 [" "%char] run).
  { intros [|c [|c' run]] H1 H2; try reflexivity.
    apply Forall_cons in H1, H2. destruct H1 as [H1 _], H2 as [H2 _].
    cbn. now rewrite (H1 H2). }
  induction l as [|c l IH]; intros run H1 H2 H; cbn [sub_runs_aux].
  - now apply Hf.
  - apply Forall_cons in H. destruct H as [Hc H].
    destruct (is_space c) eqn:Sc.
    + apply IH; [|now apply Forall_cons|exact H].
      apply Forall_cons. split; [intros _; now apply Hc|exact H1].
    + rewrite (Hf run H1 H2). f_equal. f_equal.
      apply IH; [constructor|constructor|exact H].
Qed.

Lemma strip_by_all (Q : ascii -> Prop) (l : list ascii) :
  Forall Q l -> Forall Q (strip_by is_space l).
Proof.
  assert (D : forall k, Forall Q k -> Forall Q (drop_while is_space k)).
  { induction k as [|c k IH]; intros H; [constructor|].
    cbn [drop_while]. destruct (is_space c); [|exact H].
    apply Forall_cons in H. now apply IH. }
  intros H. unfold strip_by. apply Forall_rev, D, Forall_rev, D, H.
Qed.

Lemma lower_fixed (s : string) :
  Forall (fun c => is_upper c = false) (chars s) -> lower s = s.
Proof.
  intros H. unfold lower. rewrite <- (str_chars s) at 2. f_equal.
  induction (chars s) as [|c l IH]; [reflexivity|].
  apply Forall_cons in H. destruct H as [Hc H].
  cbn [map]. unfold to_lower at 1. rewrite Hc. f_equal. now apply IH.
Qed.

Lemma strip_fixed (s : string) : single_spaced s -> strip s = s.
Proof.
  intros [->|H]; [reflexivity|].
  unfold strip. rewrite (strip_by_fixed _ H). apply str_chars.
Qed.

(** A normalized skill is a normalized text of lower-case letters, digits,
    [+], [#], [.] and single spaces. *)
Lemma _normalize_skill_shape (s : string) :
  single_spaced (_normalize_skill s)
  /\ Forall (fun c => noise_char c = false) (chars (_normalize_skill s)).
Proof.
  unfold _normalize_skill.
  set (t := re_sub noise_char 1 " " (lower (strip s))).
  assert (Ht : Forall (fun c => noise_char c = false) (chars t)).
  { unfold t, re_sub. rewrite chars_str.
    apply sub_runs_aux_one; [now apply Forall_singleton|auto]. }
  assert (Hs : Forall (fun c => noise_char c = false) (chars (strip t))).
  { unfold strip. rewrite chars_str. now apply strip_by_all. }
  assert (E : re_sub is_space 2 " " (strip t) = embeddings.normalize_text t).
  { unfold embeddings.normalize_text, re_sub. f_equal.
    apply collapse_squeeze; [constructor|constructor|].
    eapply Forall_impl; [exact Hs|]. intros c. apply allowed_space. }
  rewrite E. split; [apply normalize_text_single_spaced|].
  rewrite <- E. unfold re_sub. rewrite chars_str.
  apply sub_runs_aux_all; [now apply Forall_singleton|constructor|exact Hs].
Qed.

Lemma _normalize_skill_fixed (n : string) :
  single_spaced n -> Forall (fun c => noise_char c = false) (chars n) ->
  _normalize_skill n = n.
Proof.
  intros Hs Ha. unfold _normalize_skill.
  rewrite (strip_fixed n Hs).
  rewrite lower_fixed
    by (eapply Forall_impl; [exact Ha|]; intros c; apply allowed_not_upper).
  assert (E : re_sub noise_char 1 " " n = n).
  { unfold re_sub. rewrite (sub_runs_aux_none _ _ _ _ Ha). apply str_chars. }
  rewrite E, (strip_fixed n Hs).
  unfold re_sub. rewrite collapse_squeeze; [|constructor|constructor|].
  - destruct Hs as [->|Hs]; [reflexivity|].
    rewrite (proj1 (squeeze_fixed _) true Hs). apply str_chars.
  - eapply Forall_impl; [exact Ha|]. intros c. apply allowed_space.
Qed.

Lemma _normalize_skill_twice (s : string) :
  _normalize_skill (_normalize_skill s) = _normalize_skill s.
Proof.
  destruct (_normalize_skill_shape s) as [H1 H2].
  now apply _normalize_skill_fixed.
Qed.

Lemma alias_values (k v : string) :
  _SKILL_ALIASES !! k = Some v -> _canonical_skill v = v /\ v <> "".
Proof.
  intros H. unfold _SKILL_ALIASES in H.
  apply elem_of_list_to_map_2 in H. apply list_elem_of_In in H.
  repeat (destruct H as [H|H];
          [injection H as <- <-; split; [vm_compute; reflexivity|discriminate]|]).
  destruct H.
Qed.

Lemma _canonical_skill_twice (s : string) :
  _canonical_skill (_canonical_skill s) = _canonical_skill s.
Proof.
  unfold _canonical_skill at 2 3.
  destruct (_SKILL_ALIASES !! replace " " "" (_normalize_skill s)) as [v|] eqn:K.
  { cbn [default]. exact (proj1 (alias_values _ _ K)). }
  destruct (_SKILL_ALIASES !! _normalize_skill s) as [v|] eqn:N.
  { cbn [default]. exact (proj1 (alias_values _ _ N)). }
  cbn [default]. unfold _canonical_skill.
  now rewrite _normalize_skill_twice, K, N.
Qed.

(** A canonical skill stays as it is when it is made canonical again, and
    so does a normalized one when normalized again; it consists of
    lower-case letters, digits, [+], [#], [.] and single spaces between
    them. *)
Theorem canonical_skill_idempotent (s : string) :
  _canonical_skill (_canonical_skill s) = _canonical_skill s
  /\ _normalize_skill (_normalize_skill s) = _normalize_skill s
  /\ single_spaced (_normalize_skill s)
  /\ Forall (fun c => is_lower c || is_digit c || one_of "+#. " c = true)
            (chars (_normalize_skill s)).
Proof.
  split; [apply _canonical_skill_twice|].
  split; [apply _normalize_skill_twice|].
  destruct (_normalize_skill_shape s) as [H1 H2]. split; [exact H1|].
  eapply Forall_impl; [exact H2|]. intros c Hc. unfold noise_char in Hc.
  now apply negb_false_iff in Hc.
Qed.

End canonical_skills.

(** ** Job tokens are canonical *)

Section job_tokens_canonical.

Import py json scoring_engine invariants.

Lemma find_runs_aux_all (p : ascii -> bool) (Q : ascii -> Prop) (min : nat)
    (l : list ascii) :
  forall run, Forall Q run -> Forall Q l ->
  Forall (fun w => Forall Q (chars w)) (find_runs_aux p min run l).
Proof.
  assert (Hf : forall run, Forall Q run ->
                           Forall (fun w => Forall Q (chars w)) (flush_find min run)).
  { intros run Hr. unfold flush_find. destruct (_ <=? _)%nat; [|constructor].
    destruct run as [|c run]; [constructor|].
    apply Forall_singleton. rewrite chars_str. now apply Forall_rev. }
  induction l as [|c l IH]; intros run Hr H; cbn [find_runs_aux].
  - now apply Hf.
  - apply Forall_cons in H. destruct H as [Hc H]. destruct (p c).
    + apply IH; [now apply Forall_cons|exact H].
    + apply Forall_app. split; [now apply Hf|]. apply IH; [constructor|exact H].
Qed.

Lemma strip_by_any (p : ascii -> bool) (Q : ascii -> Prop) (l : list ascii) :
  Forall Q l -> Forall Q (strip_by p l).
Proof.
  assert (D : forall k, Forall Q k -> Forall Q (drop_while p k)).
  { induction k as [|c k IH]; intros H; [constructor|].
    cbn [drop_while]. destruct (p c); [|exact H].
    apply Forall_cons in H. now apply IH. }
  intros H. unfold strip_by. apply Forall_rev, D, Forall_rev, D, H.
Qed.

Lemma lower_chars (s : string) :
  Forall (fun c => is_upper c = false) (chars (lower s)).
Proof.
  unfold lower. rewrite chars_str.
  induction (chars s) as [|c l IH]; [constructor|].
  cbn [map]. apply Forall_cons. split; [apply to_lower_not_upper|exact IH].
Qed.

Lemma clean_from_no_space (l : list ascii) :
  Forall (fun c => is_space c = false) l ->
  clean_from false l = true /\ (l <> [] -> clean_from true l = true).
Proof.
  induction l as [|c l IH]; intros H.
  - split; [reflexivity|]. intros E. now destruct E.
  - apply Forall_cons in H. destruct H as [Hc H]. cbn [clean_from].
    rewrite Hc. split; [|intros _]; exact (proj1 (IH H)).
Qed.

(** A word of a lowered text, without its dots at the ends, is made
    canonical into a token that is not empty. *)
Lemma _canonical_skill_word (w : string) :
  w <> "" ->
  Forall (fun c => word_char c = true /\ is_upper c = false) (chars w) ->
  _canonical_skill w <> "".
Proof.
  intros Hw Hc.
  assert (Ha : Forall (fun c => noise_char c = false) (chars w)).
  { eapply Forall_impl; [exact Hc|]. intros c [H1 H2].
    exact (proj1 (word_char_allowed c H1 H2)). }
  assert (Hs : Forall (fun c => is_space c = false) (chars w)).
  { eapply Forall_impl; [exact Hc|]. intros c [H1 H2].
    exact (proj2 (word_char_allowed c H1 H2)). }
  assert (Hn : _normalize_skill w = w).
  { apply _normalize_skill_fixed; [|exact Ha]. right.
    apply clean_from_no_space; [exact Hs|].
    intros E. apply Hw. rewrite <- (str_chars w), E. reflexivity. }
  unfold _canonical_skill. rewrite Hn.
  destruct (_SKILL_ALIASES !! replace " " "" w) as [v|] eqn:K.
  { exact (proj2 (alias_values _ _ K)). }
  destruct (_SKILL_ALIASES !! w) as [v|] eqn:N.
  { exact (proj2 (alias_values _ _ N)). }
  exact Hw.
Qed.

Lemma add_unique_in (l : list string) :
  forall (st : gset string * list string) (t : string),
    In t (snd (fold_left add_unique l st)) -> In t (snd st) \/ In t l.
Proof.
  induction l as [|x l IH]; intros st t H; [now left|].
  cbn [fold_left] in H. apply IH in H. destruct H as [H|H]; [|right; now right].
  unfold add_unique in H. destruct st as [seen out].
  destruct (bool_decide _); [now left|].
  cbn [snd] in H. apply in_app_or in H.
  destruct H as [H|[<-|[]]]; [now left|right; now left].
Qed.

Lemma add_word_in (P : string -> Prop) (ms : list string) :
  (forall m, In m ms -> strip_chars "." m <> "" ->
             P (_canonical_skill (strip_chars "." m))) ->
  forall st : gset string * list string,
    Forall P (snd st) -> Forall P (snd (fold_left add_word ms st)).
Proof.
  induction ms as [|m ms IH]; intros Hm st H; [exact H|].
  cbn [fold_left]. apply IH; [intros m' Hin; apply Hm; now right|].
  unfold add_word.
  destruct (nonempty (strip_chars "." m)) eqn:E; cbn [negb orb]; [|exact H].
  destruct (bool_decide _); [exact H|]. destruct (_ <? _); [exact H|].
  unfold add_unique. destruct st as [seen out].
  destruct (bool_decide _); [exact H|]. cbn [snd] in *.
  apply Forall_app. split; [exact H|]. apply Forall_singleton.
  apply Hm; [now left|]. intros E'. rewrite E' in E. discriminate E.
Qed.

(** Every job token is a canonical skill and is not empty, so that resume
    skills are compared with canonical forms; and when a required skill is
    given that is not empty once canonical, the tokens come from the
    required skills alone, whatever the title and the description. *)
Theorem extract_job_skill_tokens_canonical
    (job_title job_description : option string)
    (required_skills : option (list string)) :
  Forall (fun t => t <> "" /\ _canonical_skill t = t)
         (extract_job_skill_tokens job_title job_description required_skills)
  /\ ((exists s, In s (default [] required_skills) /\ _canonical_skill s <> "") ->
      forall title description,
        extract_job_skill_tokens job_title job_description required_skills
        = extract_job_skill_tokens title description required_skills).
Proof.
  unfold extract_job_skill_tokens.
  set (explicit := filter (fun c => nonempty c = true)
                          (map _canonical_skill (default [] required_skills))).
  split.
  - destruct explicit as [|e explicit'] eqn:E.
    + apply Forall_take.
      apply (add_word_in (fun t => t <> "" /\ _canonical_skill t = t));
        [|constructor].
      intros m Hin Hne. split; [|apply _canonical_skill_twice].
      apply _canonical_skill_word; [exact Hne|].
      unfold strip_chars. rewrite chars_str. apply strip_by_any.
      match type of Hin with
      | In m (re_findall word_char 2 ?text) =>
          pose proof (find_runs_aux_words word_char 2 (chars text) []
                        ltac:(constructor)) as W1;
          pose proof (find_runs_aux_all word_char
                        (fun c => is_upper c = false) 2 (chars text) []
                        ltac:(constructor)) as W2
      end.
      specialize (W2 (lower_chars _)).
      rewrite Forall_forall in W1, W2.
      apply list_elem_of_In in Hin.
      destruct (W1 _ Hin) as [_ A]. specialize (W2 _ Hin).
      rewrite Forall_forall in *. intros c Hc. split; [now apply A|now apply W2].
    + apply Forall_take. rewrite Forall_forall. intros t Ht.
      apply list_elem_of_In, add_unique_in in Ht. destruct Ht as [[]|Ht].
      rewrite <- E in Ht. unfold explicit in Ht.
      apply list_elem_of_In, list_elem_of_filter in Ht. destruct Ht as [Hn Ht].
      apply list_elem_of_In, in_map_iff in Ht. destruct Ht as (x & <- & _).
      split; [|apply _canonical_skill_twice].
      intros E'. rewrite E' in Hn. discriminate Hn.
  - intros (s & Hin & Hs) title description.
    destruct explicit as [|e explicit'] eqn:E; [|reflexivity].
    exfalso.
    assert (Hx : In (_canonical_skill s) explicit).
    { unfold explicit. apply list_elem_of_In, list_elem_of_filter. split.
      - unfold nonempty. destruct (String.eqb_spec (_canonical_skill s) "");
          [contradiction|reflexivity].
      - apply list_elem_of_In, in_map_iff. now exists s. }
    rewrite E in Hx. destruct Hx.
Qed.

End job_tokens_canonical.

(** ** Caps of the final score *)

Section final_score_caps.

Import py json scoring_engine spec.

Lemma compute_final_score_cap (hi : Z) (s k e d a : Q) :
  0 <= hi ->
  (weighted (clamp01 s) (clamp01 k) (clamp01 e) (clamp01 d) (clamp01 a)
   <= inject_Z hi)%Q ->
  compute_final_score s k e d a <= hi.
Proof.
  intros H0 H. rewrite compute_final_score_round.
  pose proof (weighted_range s k e d a) as [Hlo _].
  pose proof (round_bounds 0 hi _ Hlo H). lia.
Qed.

Lemma clamp01_zero : (clamp01 0 == 0)%Q.
Proof. reflexivity. Qed.

Lemma no_payload_is_empty
    (json_loads : string -> option value) (repr_other : value -> string)
    (sj aj : option string) :
  truthy_str sj = false -> truthy_str aj = false ->
  extract_resume_skills json_loads repr_other sj aj = Ok []
  /\ extract_resume_experience_text json_loads repr_other sj aj = Ok ""
  /\ extract_resume_education_text json_loads repr_other sj aj = Ok "".
Proof.
  intros H1 H2.
  assert (E : select_raw sj aj = "") by (unfold select_raw; now rewrite H1, H2).
  unfold extract_resume_skills, extract_resume_experience_text,
    extract_resume_education_text, extract_resume_section_text.
  rewrite E. repeat split.
Qed.

(** What an application can score at most: 55 without an AI relevance
    percentage, 55 without a structured resume payload, and 10 without
    both, whatever the other inputs are. *)
Theorem score_application_caps
    (json_loads : string -> option value) (repr_other : value -> string)
    (job_title job_description : option string)
    (job_required_skills : option (list string))
    (resume_structured_json resume_ai_structured_json : option string)
    (semantic_score : Q) (ai_relevance_pct : option Z)
    (skills_score : Q) (final_score : Z) (b : breakdown) :
  score_application json_loads repr_other job_title job_description
    job_required_skills resume_structured_json resume_ai_structured_json
    semantic_score ai_relevance_pct
  = Ok (skills_score, final_score, b) ->
  (ai_relevance_pct = None -> final_score <= 55)
  /\ (truthy_str resume_structured_json = false ->
      truthy_str resume_ai_structured_json = false ->
      final_score <= 55 /\ (ai_relevance_pct = None -> final_score <= 10)).
Proof.
  intros H. split.
  - intros ->. revert H. unfold score_application.
    destruct (extract_resume_skills _ _ _ _) as [rs|]; [|discriminate].
    cbn [mbind result_bind bind].
    destruct (skills_overlap_score rs _) as [[sk matched] missing].
    destruct (extract_resume_experience_text _ _ _ _) as [xt|]; [|discriminate].
    cbn [mbind result_bind bind].
    destruct (extract_resume_education_text _ _ _ _) as [et|]; [|discriminate].
    cbn [mbind result_bind bind fmap option_fmap option_map].
    intros [= _ <- _].
    apply compute_final_score_cap; [lia|]. unfold weighted.
    rewrite clamp01_zero.
    match goal with
    | |- context [clamp01 semantic_score] =>
        pose proof (clamp01_range semantic_score)
    end.
    pose proof (clamp01_range sk).
    repeat match goal with
           | |- context [clamp01 ?x] =>
               lazymatch goal with
               | _ : (0 <= clamp01 x <= 1)%Q |- _ => fail
               | _ => pose proof (clamp01_range x)
               end;
               generalize dependent (clamp01 x); intros
           end.
    change (inject_Z 55) with 55%Q. lra.
  - intros H1 H2.
    destruct (no_payload_is_empty json_loads repr_other _ _ H1 H2)
      as (E1 & E2 & E3).
    revert H. unfold score_application.
    rewrite E1. cbn [mbind result_bind bind].
    rewrite skills_overlap_no_resume_tokens.
    rewrite E2. cbn [mbind result_bind bind].
    rewrite E3. cbn [mbind result_bind bind].
    change (experience_relevance_score
              (extract_job_skill_tokens job_title job_description
                 job_required_skills) "") with 0%Q.
    change (education_relevance_score job_title job_description "") with 0%Q.
    intros [= _ <- _]. split.
    + apply compute_final_score_cap; [lia|]. unfold weighted.
      rewrite !clamp01_zero.
      pose proof (clamp01_range semantic_score).
      match goal with
      | |- context [clamp01 (match ?x with Some _ => _ | None => _ end)] =>
          pose proof (clamp01_range (match x with
                                     | Some n => (inject_Z n / 100)%Q
                                     | None => 0%Q
                                     end)) as Ha;
          generalize dependent (clamp01 (match x with
                                         | Some n => (inject_Z n / 100)%Q
                                         | None => 0%Q
                                         end))
      end.
      intros a Ha. generalize dependent (clamp01 semantic_score). intros s Hs.
      change (inject_Z 55) with 55%Q. lra.
    + intros ->. cbn [fmap option_fmap option_map].
      apply compute_final_score_cap; [lia|]. unfold weighted.
      rewrite !clamp01_zero.
      pose proof (clamp01_range semantic_score).
      generalize dependent (clamp01 semantic_score). intros s Hs.
      change (inject_Z 10) with 10%Q. lra.
Qed.

Lemma score_application_caps_witness :
  score_application samples.sample_loads (fun _ => "") (Some "Backend")
    (Some "Python SQL") None (Some "") None 5 None
  = Ok (0%Q, 10,
        {| bd_weights :=
             {| w_ai_reasoning := 0.45; w_skills := 0.20; w_experience := 0.15;
                w_education := 0.10; w_semantic := 0.10 |};
           bd_semantic_score := 5;
           bd_skills_score := 0;
           bd_experience_score := 0;
           bd_education_score := 0;
           bd_ai_reasoning_score := 0;
           bd_ai_relevance_score := 0;
           bd_matched_skills := [];
           bd_missing_skills := ["backend"; "python"; "sql"];
           bd_notes :=
             [ "No structured resume skills available; skills_score may be low.";
               "No AI reasoning score available; ai_reasoning_score set to 0." ]
        |})
  /\ 10 <= 55 /\ 10 <= 10.
Proof.
  assert (E : score_application samples.sample_loads (fun _ => "") (Some "Backend")
                (Some "Python SQL") None (Some "") None 5 None
              = Ok (0%Q, 10,
                    {| bd_weights :=
                         {| w_ai_reasoning := 0.45; w_skills := 0.20;
                            w_experience := 0.15; w_education := 0.10;
                            w_semantic := 0.10 |};
                       bd_semantic_score := 5;
                       bd_skills_score := 0;
                       bd_experience_score := 0;
                       bd_education_score := 0;
                       bd_ai_reasoning_score := 0;
                       bd_ai_relevance_score := 0;
                       bd_matched_skills := [];
                       bd_missing_skills := ["backend"; "python"; "sql"];
                       bd_notes :=
                         [ "No structured resume skills available; skills_score may be low.";
                           "No AI reasoning score available; ai_reasoning_score set to 0." ]
                    |})) by (vm_compute; reflexivity).
  split; [exact E|].
  destruct (score_application_caps _ _ _ _ _ _ _ _ _ _ _ _ E) as [H1 H2].
  split; [exact (H1 eq_refl)|exact (proj2 (H2 eq_refl eq_refl) eq_refl)].
Defined.

End final_score_caps.

(** ** Normalizing skills twice *)

Section normalize_skills_idempotence.

Import py resume_parsing invariants spec.

Abbreviation squeeze := (sub_runs_aux is_space 1 [" "%char]).

Ltac by_cases_on c :=
  destruct c as [[] [] [] [] [] [] [] []]; vm_compute; intros;
  first [reflexivity|discriminate|congruence
        |split; first [reflexivity|discriminate|congruence]].

Lemma kept_tab_or_space (c : ascii) :
  noise_char c = false -> tab_or_space c = is_space c.
Proof. by_cases_on c. Qed.

Lemma kept_space (c : ascii) :
  noise_char c = false -> is_space c = true -> c = " "%char.
Proof. by_cases_on c. Qed.

Lemma kept_not_cr (c : ascii) :
  noise_char c = false -> Ascii.eqb (ascii_of_N 13) c = false.
Proof. by_cases_on c. Qed.

Lemma kept_not_nl (c : ascii) :
  noise_char c = false -> Ascii.eqb c "010"%char = false.
Proof. by_cases_on c. Qed.

Lemma kept_not_hyphen (c : ascii) :
  noise_char c = false -> is_space c = false -> one_of " -" c = false.
Proof. by_cases_on c. Qed.

Lemma kept_not_token (c : ascii) :
  noise_char c = false -> token_char c = false -> c = " "%char.
Proof. by_cases_on c. Qed.

Lemma sub_runs_aux_ext (p q : ascii -> bool) (min : nat) (repl l : list ascii) :
  Forall (fun c => p c = q c) l ->
  forall run, sub_runs_aux p min repl run l = sub_runs_aux q min repl run l.
Proof.
  induction l as [|c l IH]; intros H run; [reflexivity|].
  apply Forall_cons in H. destruct H as [Hc H].
  cbn [sub_runs_aux]. rewrite Hc. destruct (q c); now rewrite !IH.
Qed.

(** On kept characters, collapsing the runs of tabs and spaces leaves a
    text with single spaces as it is. *)
Lemma collapse_fixed (s : string) :
  tidy s -> re_sub tab_or_space 2 " " s = s.
Proof.
  intros [Hs Ha]. unfold re_sub.
  rewrite (sub_runs_aux_ext tab_or_space is_space)
    by (eapply Forall_impl; [exact Ha|]; intros c; apply kept_tab_or_space).
  rewrite collapse_squeeze; [|constructor|constructor|].
  - destruct Hs as [->|Hs]; [reflexivity|].
    rewrite (proj1 (squeeze_fixed _) true Hs). apply str_chars.
  - eapply Forall_impl; [exact Ha|]. intros c. apply kept_space.
Qed.

Lemma replace_aux_absent (c0 : ascii) (old new l : list ascii) :
  Forall (fun c => Ascii.eqb c0 c = false) l ->
  replace_aux (c0 :: old) new 0 l = l.
Proof.
  induction l as [|c l IH]; intros H; [reflexivity|].
  apply Forall_cons in H. destruct H as [Hc H].
  cbn [replace_aux is_prefix]. rewrite Hc. cbn [andb]. now rewrite IH.
Qed.

Lemma _normalize_line_fixed (s : string) : tidy s -> _normalize_line s = s.
Proof.
  intros T. pose proof T as [Hs Ha]. unfold _normalize_line.
  assert (Hcr : Forall (fun c => Ascii.eqb (ascii_of_N 13) c = false) (chars s)).
  { eapply Forall_impl; [exact Ha|]. intros c. apply kept_not_cr. }
  assert (E1 : replace (CR ++ NL) NL s = s).
  { unfold replace. change (chars (CR ++ NL))
      with (ascii_of_N 13 :: chars NL).
    rewrite replace_aux_absent by exact Hcr. apply str_chars. }
  assert (E2 : replace CR NL s = s).
  { unfold replace. change (chars CR) with [ascii_of_N 13].
    rewrite replace_aux_absent by exact Hcr. apply str_chars. }
  rewrite E1, E2, (collapse_fixed s T). now apply strip_fixed.
Qed.

Lemma strip_by_fixed_any (p : ascii -> bool) (l : list ascii) :
  match l with [] => True | c :: _ => p c = false end ->
  match rev l with [] => True | c :: _ => p c = false end ->
  strip_by p l = l.
Proof.
  intros Hh Hl. unfold strip_by.
  assert (D : forall k, match k with [] => True | c :: _ => p c = false end ->
                        drop_while p k = k).
  { intros [|c k]; [reflexivity|]. cbn. now intros ->. }
  rewrite (D l Hh), (D (rev l) Hl). apply rev_involutive.
Qed.

Lemma tidy_ends (s : string) :
  tidy s ->
  match chars s with
  | [] => True
  | c :: _ => is_space c = false /\ noise_char c = false
  end
  /\ match rev (chars s) with
     | [] => True
     | c :: _ => is_space c = false /\ noise_char c = false
     end.
Proof.
  intros [Hs Ha]. destruct Hs as [->|Hs]; [split; exact I|].
  split.
  - destruct (chars s) as [|c l]; [exact I|].
    apply Forall_cons in Ha. destruct Ha as [Hc _]. split; [|exact Hc].
    cbn [clean_from] in Hs. destruct (is_space c); [|reflexivity].
    cbn in Hs. now rewrite andb_false_r in Hs.
  - pose proof (clean_from_ends _ _ Hs) as E.
    apply Forall_rev in Ha.
    destruct (rev (chars s)) as [|c l] eqn:R; [exact I|].
    apply Forall_cons in Ha. destruct Ha as [Hc _]. split; [|exact Hc].
    now apply (E c l).
Qed.

(** A kept skill of 2 to 40 characters is kept as it is. *)
Lemma clean_item_fixed (s : string) :
  tidy s -> 2 <= len s <= 40 -> clean_item s = Some s.
Proof.
  intros T Hl. pose proof T as [Hs Ha]. unfold clean_item.
  rewrite (_normalize_line_fixed s T).
  assert (E : strip_chars " -" s = s).
  { unfold strip_chars. destruct (tidy_ends s T) as [Hh Ht].
    rewrite strip_by_fixed_any; [apply str_chars| |].
    - destruct (chars s) as [|c l]; [exact I|].
      destruct Hh. now apply kept_not_hyphen.
    - destruct (rev (chars s)) as [|c l]; [exact I|].
      destruct Ht. now apply kept_not_hyphen. }
  rewrite E, (strip_fixed s Hs).
  assert (Hn : nonempty s = true).
  { destruct s; [unfold len in Hl; cbn in Hl; lia|reflexivity]. }
  rewrite Hn. cbn [negb].
  assert (E2 : re_sub noise_char 1 " " s = s).
  { unfold re_sub. rewrite (sub_runs_aux_none _ _ _ _ Ha). apply str_chars. }
  rewrite E2, (strip_fixed s Hs), (collapse_fixed s T).
  destruct (Z.ltb_spec (len s) 2); [lia|].
  destruct (Z.ltb_spec 40 (len s)); [lia|]. reflexivity.
Qed.

(** What [clean_item] keeps is a kept skill. *)
Lemma clean_item_tidy (raw s : string) : clean_item raw = Some s -> tidy s.
Proof.
  unfold clean_item.
  destruct (negb (nonempty _)); [discriminate|].
  match goal with
  | |- context [re_sub noise_char 1 " " ?x] => set (t := re_sub noise_char 1 " " x)
  end.
  destruct (_ || _); [discriminate|]. intros [= <-].
  assert (Ht : Forall (fun c => noise_char c = false) (chars t)).
  { unfold t, re_sub. rewrite chars_str.
    apply sub_runs_aux_one; [now apply Forall_singleton|auto]. }
  assert (Hs : Forall (fun c => noise_char c = false) (chars (strip t))).
  { unfold strip. rewrite chars_str. now apply strip_by_all. }
  assert (E : re_sub tab_or_space 2 " " (strip t) = embeddings.normalize_text t).
  { unfold embeddings.normalize_text, re_sub. f_equal.
    rewrite (sub_runs_aux_ext tab_or_space is_space)
      by (eapply Forall_impl; [exact Hs|]; intros c; apply kept_tab_or_space).
    apply collapse_squeeze; [constructor|constructor|].
    eapply Forall_impl; [exact Hs|]. intros c. apply kept_space. }
  split.
  - rewrite E. apply normalize_text_single_spaced.
  - unfold re_sub. rewrite chars_str.
    apply sub_runs_aux_all; [now apply Forall_singleton|constructor|exact Hs].
Qed.

Lemma alike_refl (c : ascii) : alike c c.
Proof. unfold alike. auto. Qed.

Lemma alike_to_upper (c : ascii) : alike c (to_upper c).
Proof.
  unfold alike. destruct c as [[] [] [] [] [] [] [] []]; vm_compute;
    repeat split; intros; first [reflexivity|discriminate].
Qed.

Lemma alike_to_lower (c : ascii) : alike c (to_lower c).
Proof.
  unfold alike. destruct c as [[] [] [] [] [] [] [] []]; vm_compute;
    repeat split; intros; first [reflexivity|discriminate].
Qed.

Lemma same_spaces_refl (l : list ascii) : same_spaces l l.
Proof. induction l; constructor; [apply alike_refl|assumption]. Qed.

Lemma same_spaces_map (f : ascii -> ascii) (l : list ascii) :
  (forall c, alike c (f c)) -> same_spaces l (map f l).
Proof. intros H. induction l; constructor; [apply H|assumption]. Qed.

Lemma same_spaces_clean (l l' : list ascii) :
  same_spaces l l' -> forall prev, clean_from prev l' = clean_from prev l.
Proof.
  induction 1 as [|c c' l l' (H1 & H2 & _) _ IH]; intros prev; [reflexivity|].
  cbn [clean_from]. rewrite H1. destruct (is_space c) eqn:E; [|apply IH].
  rewrite (H2 eq_refl), IH. reflexivity.
Qed.

Lemma same_spaces_kept (l l' : list ascii) :
  same_spaces l l' ->
  Forall (fun c => noise_char c = false) l ->
  Forall (fun c => noise_char c = false) l'.
Proof.
  induction 1 as [|c c' l l' (_ & _ & H3 & _) _ IH]; intros H; [constructor|].
  apply Forall_cons in H. destruct H as [Hc H].
  apply Forall_cons. split; [congruence|now apply IH].
Qed.

Lemma same_spaces_tidy (s n : string) :
  same_spaces (chars s) (chars n) -> tidy s -> tidy n /\ len n = len s.
Proof.
  intros R [Hs Ha]. split; [split|].
  - destruct Hs as [->|Hs].
    + left. cbn in R. apply Forall2_nil_inv_l in R.
      rewrite <- (str_chars n), R. reflexivity.
    + right. now rewrite (same_spaces_clean _ _ R).
  - exact (same_spaces_kept _ _ R Ha).
  - unfold len. rewrite <- !length_chars. f_equal. symmetry.
    exact (Forall2_length _ _ _ R).
Qed.

(** *** Words *)

Lemma str_app (a b : list ascii) : str (a ++ b) = (str a ++ str b)%string.
Proof.
  unfold str. induction a as [|c a IH]; [reflexivity|].
  cbn [app string_of_list_ascii].
  change (String c (string_of_list_ascii a) ++ string_of_list_ascii b)%string
    with (String c (string_of_list_ascii a ++ string_of_list_ascii b)%string).
  now rewrite IH.
Qed.

Lemma split_aux_cons (sep : ascii) (l cur : list ascii) :
  exists w ws, split_aux sep cur l = w :: ws.
Proof.
  revert cur. induction l as [|c l IH]; intros cur; cbn [split_aux]; [eauto|].
  destruct (Ascii.eqb c sep); [eauto|apply IH].
Qed.

Lemma join_cons (sep x : string) (l : list string) :
  l <> [] -> join sep (x :: l) = (x ++ sep ++ join sep l)%string.
Proof. destruct l; [intros H; now destruct H|reflexivity]. Qed.

Lemma split_aux_join (l : list ascii) :
  forall cur, join " " (split_aux " " cur l) = str (rev cur ++ l).
Proof.
  induction l as [|c l IH]; intros cur; cbn [split_aux].
  - cbn [join]. now rewrite app_nil_r.
  - destruct (Ascii.eqb_spec c " "%char) as [->|Hc].
    + destruct (split_aux_cons " " l []) as (w & ws & E).
      rewrite join_cons by (rewrite E; discriminate).
      rewrite (IH []). cbn [rev app]. rewrite (str_app (rev cur)). reflexivity.
    + rewrite IH. cbn [rev]. now rewrite <- app_assoc.
Qed.

Lemma join_split (s : string) : join " " (split " " s) = s.
Proof. unfold split. rewrite split_aux_join. apply str_chars. Qed.

Lemma split_aux_words (l : list ascii) :
  forall cur,
    Forall (fun c => Ascii.eqb c " " = false) cur ->
    Forall (fun w => Forall (fun c => Ascii.eqb c " " = false) (chars w))
           (split_aux " " cur l).
Proof.
  induction l as [|c l IH]; intros cur H; cbn [split_aux].
  - apply Forall_singleton. rewrite chars_str. now apply Forall_rev.
  - destruct (Ascii.eqb c " ") eqn:E.
    + apply Forall_cons. split; [|apply IH; constructor].
      rewrite chars_str. now apply Forall_rev.
    + apply IH. now apply Forall_cons.
Qed.

Lemma split_aux_word (a rest cur : list ascii) :
  Forall (fun c => Ascii.eqb c " " = false) a ->
  split_aux " " cur (a ++ rest) = split_aux " " (rev a ++ cur) rest.
Proof.
  revert cur. induction a as [|c a IH]; intros cur H; [reflexivity|].
  apply Forall_cons in H. destruct H as [Hc H].
  cbn [app split_aux]. rewrite Hc, (IH _ H). cbn [rev].
  now rewrite <- app_assoc.
Qed.

Lemma split_join (ws : list string) :
  forall (w : string) (cur : list ascii),
    Forall (fun w => Forall (fun c => Ascii.eqb c " " = false) (chars w))
           (w :: ws) ->
    split_aux " " cur (chars (join " " (w :: ws)))
    = str (rev cur ++ chars w) :: ws.
Proof.
  induction ws as [|w' ws IH]; intros w cur H;
    apply Forall_cons in H; destruct H as [Hw H].
  - cbn [join]. rewrite <- (app_nil_r (chars w)) at 1.
    rewrite (split_aux_word _ _ _ Hw). cbn [split_aux].
    now rewrite rev_app_distr, rev_involutive.
  - rewrite join_cons by discriminate. rewrite !chars_app.
    rewrite (split_aux_word _ _ _ Hw).
    change (chars " ") with [" "%char]. cbn [app split_aux Ascii.eqb Bool.eqb].
    rewrite (IH w' [] H). cbn [rev app].
    now rewrite rev_app_distr, rev_involutive, str_chars.
Qed.

(** The title-casing of one word, as the last branch writes it. *)
Abbreviation title := (fun w : string => if isalpha w then capitalize w else w).

Lemma capitalize_chars (w : string) :
  chars (capitalize w)
  = match chars w with
    | [] => []
    | c :: l => to_upper c :: map to_lower l
    end.
Proof.
  unfold capitalize. destruct (chars w) as [|c l]; [reflexivity|].
  apply chars_str.
Qed.

Lemma title_same_spaces (w : string) : same_spaces (chars w) (chars (title w)).
Proof.
  cbv beta. destruct (isalpha w); [|apply same_spaces_refl].
  rewrite capitalize_chars. destruct (chars w) as [|c l]; [constructor|].
  constructor; [apply alike_to_upper|].
  apply same_spaces_map, alike_to_lower.
Qed.

Lemma same_spaces_no_space (l l' : list ascii) :
  same_spaces l l' ->
  Forall (fun c => Ascii.eqb c " " = false) l ->
  Forall (fun c => Ascii.eqb c " " = false) l'.
Proof.
  induction 1 as [|c c' l l' (H1 & H2 & _) _ IH]; intros H; [constructor|].
  apply Forall_cons in H. destruct H as [Hc H].
  apply Forall_cons. split; [|now apply IH].
  destruct (Ascii.eqb_spec c' " "%char) as [->|]; [|reflexivity].
  change (true = is_space c) in H1. symmetry in H1.
  specialize (H2 H1). subst c. discriminate Hc.
Qed.

Lemma join_same_spaces (ws : list string) (f : string -> string) :
  (forall w, same_spaces (chars w) (chars (f w))) ->
  same_spaces (chars (join " " ws)) (chars (join " " (map f ws))).
Proof.
  intros Hf. induction ws as [|w ws IH]; [constructor|].
  destruct ws as [|w' ws]; [apply Hf|].
  cbn [map] in *.
  rewrite (join_cons " " w (w' :: ws)),
    (join_cons " " (f w) (f w' :: map f ws)) by discriminate.
  rewrite !chars_app.
  apply Forall2_app; [apply Hf|].
  apply Forall2_app; [apply same_spaces_refl|exact IH].
Qed.

Lemma title_twice (w : string) : title (title w) = title w.
Proof.
  cbv beta. destruct (isalpha w) eqn:A; [|now rewrite A].
  assert (A' : isalpha (capitalize w) = true).
  { unfold isalpha in *. rewrite capitalize_chars.
    destruct (chars w) as [|c l]; [discriminate|].
    cbn [forallb] in *. apply andb_prop in A. destruct A as [A1 A2].
    apply andb_true_intro. split.
    - revert A1. clear. destruct c as [[] [] [] [] [] [] [] []]; vm_compute;
        intros; first [reflexivity|discriminate].
    - clear A1. induction l as [|x l IH]; [reflexivity|].
      cbn [forallb map] in *. apply andb_prop in A2. destruct A2 as [Ax A2].
      apply andb_true_intro. split; [|now apply IH].
      revert Ax. clear. destruct x as [[] [] [] [] [] [] [] []]; vm_compute;
        intros; first [reflexivity|discriminate]. }
  rewrite A'. rewrite <- (str_chars (capitalize (capitalize w))),
    <- (str_chars (capitalize w)).
  f_equal. rewrite capitalize_chars, capitalize_chars.
  destruct (chars w) as [|c l]; [reflexivity|].
  rewrite ?chars_str.
  change (to_upper (to_upper c) :: map to_lower (map to_lower l)
          = to_upper c :: map to_lower l).
  f_equal.
  - clear. destruct c as [[] [] [] [] [] [] [] []]; vm_compute; reflexivity.
  - rewrite map_map. apply map_ext. intros x.
    destruct x as [[] [] [] [] [] [] [] []]; vm_compute; reflexivity.
Qed.

(** *** The casing of a kept token *)

Lemma case_form_same_spaces (s : string) :
  same_spaces (chars s) (chars (case_form s)).
Proof.
  unfold case_form.
  destruct (isupper s); [apply same_spaces_refl|].
  destruct (match_version s); [apply same_spaces_refl|].
  destruct (match_single_token s).
  - destruct (bool_decide _); [|apply same_spaces_refl].
    unfold upper. rewrite chars_str. apply same_spaces_map, alike_to_upper.
  - rewrite <- (join_split s) at 1. apply join_same_spaces, title_same_spaces.
Qed.

Lemma not_space_not_nl (c : ascii) :
  is_space c = false -> Ascii.eqb c "010"%char = false.
Proof. by_cases_on c. Qed.

Lemma alike_nl (c c' : ascii) :
  alike c c' -> Ascii.eqb c' "010"%char = Ascii.eqb c "010"%char.
Proof.
  intros (H1 & H2 & _). destruct (is_space c) eqn:E.
  - now rewrite (H2 eq_refl).
  - now rewrite !not_space_not_nl.
Qed.

Lemma span_same_spaces (l l' : list ascii) :
  same_spaces l l' ->
  List.length (fst (py.span token_char l'))
  = List.length (fst (py.span token_char l))
  /\ same_spaces (snd (py.span token_char l)) (snd (py.span token_char l')).
Proof.
  induction 1 as [|c c' l l' Hc Hl IH]; [split; [reflexivity|constructor]|].
  cbn [py.span]. pose proof Hc as (H1 & H2 & H3 & H4). rewrite H4.
  destruct (token_char c).
  - destruct IH as [IH1 IH2].
    destruct (py.span token_char l) as [a b], (py.span token_char l') as [a' b'].
    cbn [fst snd] in *. split; [simpl; congruence|exact IH2].
  - cbn [fst snd]. split; [reflexivity|]. constructor; [exact Hc|exact Hl].
Qed.

Lemma match_single_token_same (s n : string) :
  same_spaces (chars s) (chars n) ->
  match_single_token n = match_single_token s.
Proof.
  intros R. unfold match_single_token.
  destruct (span_same_spaces _ _ R) as [H1 H2].
  destruct (py.span token_char (chars s)) as [a b],
           (py.span token_char (chars n)) as [a' b'].
  cbn [fst snd] in *. cbv beta iota. rewrite H1. f_equal.
  destruct H2 as [|c c' b b' Hc Hb]; [reflexivity|].
  destruct Hb; [cbn; now apply alike_nl|reflexivity].
Qed.

Lemma isupper_upper (s : string) :
  existsb is_alpha (chars s) = true -> isupper (upper s) = true.
Proof.
  intros H. unfold isupper, upper. rewrite chars_str.
  apply andb_true_intro. split.
  - induction (chars s) as [|c l IH]; [discriminate|].
    cbn [existsb map] in *. apply orb_prop in H. apply orb_true_intro.
    destruct H as [H|H]; [left|right; now apply IH].
    revert H. clear. by_cases_on c.
  - apply negb_true_iff. clear H.
    induction (chars s) as [|c l IH]; [reflexivity|].
    cbn [existsb map]. rewrite IH, orb_false_r.
    clear. by_cases_on c.
Qed.

Lemma acronym_has_letter (s : string) :
  lower s ∈ acronyms -> existsb is_alpha (chars s) = true.
Proof.
  intros H.
  assert (L : exists c l, chars (lower s) = c :: l /\ is_lower c = true).
  { unfold acronyms in H. apply elem_of_list_to_set, list_elem_of_In in H.
    repeat (destruct H as [H|H];
            [rewrite <- H; vm_compute; eexists; eexists; split; reflexivity|]).
    destruct H. }
  destruct L as (c & l & E & Hc). unfold lower in E. rewrite chars_str in E.
  destruct (chars s) as [|c0 l0]; [discriminate|].
  cbn [map] in E. injection E as <- _. cbn [existsb].
  apply orb_true_intro. left. revert Hc. clear. by_cases_on c0.
Qed.

Lemma title_words (ws : list string) :
  Forall (fun w => Forall (fun c => Ascii.eqb c " " = false) (chars w)) ws ->
  Forall (fun w => Forall (fun c => Ascii.eqb c " " = false) (chars w))
         (map title ws).
Proof.
  induction ws as [|w ws IH]; intros H; [constructor|].
  apply Forall_cons in H. destruct H as [Hw H].
  cbn [map]. apply Forall_cons. split; [|now apply IH].
  exact (same_spaces_no_space _ _ (title_same_spaces w) Hw).
Qed.

Lemma split_title (s : string) :
  split " " (join " " (map title (split " " s))) = map title (split " " s).
Proof.
  unfold split at 1 3.
  pose proof (split_aux_words (chars s) [] ltac:(constructor)) as W.
  fold (split " " s) in W |- *.
  destruct (split_aux_cons " " (chars s) []) as (w & ws & E).
  fold (split " " s) in E. rewrite E in *. cbn [map].
  rewrite (split_join (map title ws) (title w) []).
  - cbn [rev app]. now rewrite str_chars.
  - exact (title_words (w :: ws) W).
Qed.

Lemma case_form_twice (s : string) : case_form (case_form s) = case_form s.
Proof.
  destruct (isupper s) eqn:U.
  { assert (E : case_form s = s) by (unfold case_form; now rewrite U).
    now rewrite !E. }
  destruct (match_version s) eqn:V.
  { assert (E : case_form s = s) by (unfold case_form; now rewrite U, V).
    now rewrite !E. }
  destruct (match_single_token s) eqn:T.
  { destruct (bool_decide (lower s ∈ acronyms)) eqn:A.
    - assert (E : case_form s = upper s)
        by (unfold case_form; now rewrite U, V, T, A).
      rewrite E. unfold case_form. rewrite isupper_upper; [reflexivity|].
      apply acronym_has_letter. now apply bool_decide_eq_true in A.
    - assert (E : case_form s = s)
        by (unfold case_form; now rewrite U, V, T, A).
      now rewrite !E. }
  assert (E : case_form s = join " " (map title (split " " s)))
    by (unfold case_form; now rewrite U, V, T).
  assert (T' : match_single_token (case_form s) = false).
  { rewrite <- T. apply match_single_token_same, case_form_same_spaces. }
  rewrite E in *. set (n := join " " (map title (split " " s))) in *.
  unfold case_form.
  destruct (isupper n); [reflexivity|].
  destruct (match_version n); [reflexivity|].
  rewrite T'. unfold n at 1. rewrite split_title, map_map.
  unfold n. f_equal. apply map_ext. intros w. apply title_twice.
Qed.

Lemma dedup_ci_fixed (l : list string) :
  forall seen,
    NoDup (map lower l) ->
    (forall x, In x l -> ~ In (lower x) seen) ->
    dedup_ci seen l = l.
Proof.
  induction l as [|x l IH]; intros seen N H; [reflexivity|].
  cbn [map] in N. apply NoDup_cons in N. destruct N as [Nx N].
  cbn [dedup_ci].
  destruct (existsb (String.eqb (lower x)) seen) eqn:E.
  - exfalso. apply existsb_exists in E. destruct E as (k & Hk & Ek).
    apply String.eqb_eq in Ek. subst k. exact (H x (or_introl eq_refl) Hk).
  - f_equal. apply IH; [exact N|]. intros y Hy [Hin|Hin].
    + apply Nx. rewrite Hin. apply list_elem_of_In, in_map. exact Hy.
    + exact (H y (or_intror Hy) Hin).
Qed.

Lemma omap_fixed (f : string -> option string) (l : list string) :
  Forall (fun x => f x = Some x) l -> omap f l = l.
Proof.
  induction l as [|x l IH]; intros H; [reflexivity|].
  apply Forall_cons in H. destruct H as [Hx H].
  cbn [omap list_omap]. rewrite Hx. f_equal. now apply IH.
Qed.

Lemma map_fixed (f : string -> string) (l : list string) :
  Forall (fun x => f x = x) l -> map f l = l.
Proof.
  induction l as [|x l IH]; intros H; [reflexivity|].
  apply Forall_cons in H. destruct H as [Hx H].
  cbn [map]. rewrite Hx. f_equal. now apply IH.
Qed.

(** Every skill that [normalize_skills] returns is kept as it is by the
    cleaning and by the casing, so normalizing the result again changes
    nothing; the skills have 2 to 40 characters, all letters, digits, [+],
    [#], [.] or single spaces. *)
Theorem normalize_skills_idempotent (items : list string) :
  normalize_skills (normalize_skills items) = normalize_skills items
  /\ Forall (fun x => clean_item x = Some x /\ case_form x = x
                      /\ tidy x /\ 2 <= len x <= 40)
            (normalize_skills items).
Proof.
  assert (F : Forall (fun x => clean_item x = Some x /\ case_form x = x
                               /\ tidy x /\ 2 <= len x <= 40)
                     (normalize_skills items)).
  { unfold normalize_skills.
    rewrite (normalize_loop_dedup items ∅ [] [])
      by (intros k; split; [intros H; now apply not_elem_of_empty in H|intros []]).
    cbn [app]. rewrite Forall_forall. intros x Hx.
    pose proof (elem_of_sublist _ _ _ Hx
                  (dedup_ci_sublist (map case_form (omap clean_item items)) []))
      as Hin.
    apply list_elem_of_In, in_map_iff in Hin. destruct Hin as (s & <- & Hs).
    apply list_elem_of_In, list_elem_of_omap in Hs. destruct Hs as (raw & _ & Hc).
    pose proof (clean_item_tidy _ _ Hc) as T.
    pose proof (clean_item_length _ _ Hc) as L.
    destruct (same_spaces_tidy _ _ (case_form_same_spaces s) T) as [T' L'].
    split; [apply clean_item_fixed; [exact T'|lia]|].
    split; [apply case_form_twice|]. split; [exact T'|lia]. }
  split; [|exact F].
  set (out := normalize_skills items) in *.
  unfold normalize_skills at 1.
  rewrite (normalize_loop_dedup out ∅ [] [])
    by (intros k; split; [intros H; now apply not_elem_of_empty in H|intros []]).
  cbn [app].
  rewrite omap_fixed by (eapply Forall_impl; [exact F|]; cbn; tauto).
  rewrite map_fixed by (eapply Forall_impl; [exact F|]; cbn; tauto).
  apply dedup_ci_fixed; [apply normalize_skills_nodup|]. intros x _ [].
Qed.

End normalize_skills_idempotence.
